(** * pi_rc: a radio-controlled vehicle driven from a game controller

    A shallow embedding of the Python sources under [src/radio_control]:

    - [controller/speed.py], [controller/controllerdata.py],
      [controller/xboxdefs.py], [controller/analogaxis.py]: the quantized
      input snapshot and the axis quantizer;
    - [controller/controller.py]: the capture thread, its reconnection
      procedure and [quit];
    - [gpio/led.py], [gpio/motordriver.py]: the LED and the DC motor driver
      on top of the pigpio daemon;
    - [radiocontrol.py]: the dispatch loop of [main].

    Python's [float] is IEEE-754 binary64, which is Rocq's primitive [float]:
    literals such as [0.2] denote the same nearest double in both languages,
    and [+], [-], [*], [<], [>=], [abs] are the same correctly rounded
    operations.  Python integers are [Z].  Exceptions are values of [exn]
    returned on the left of a sum.

    Left out: logging; [SimpleAnalogAxisConverter], which [main] never
    builds; the accessors of [XboxControllerInputHelper] that [main] never
    calls; the [finally] clause of [main]; and the configuration requests to
    pigpio and pygame ([set_mode], [set_PWM_range], [set_allowed],
    [pygame.quit]).  The dispatch loop records the calls it makes on the
    servos, the motors and the LED; what a call does is modelled with the
    class of the actuator. *)

From Stdlib Require Import ZArith List Bool Lia Floats String.
From stdpp Require Import base option list gmap.

#[local] Set Warnings "-inexact-float".
#[local] Open Scope Z_scope.

(** The Python exceptions the modelled code can raise. *)
Inductive exn : Set :=
| IndexError        (* list index out of range *)
| AttributeError    (* a method called on [None] *)
| ValueError        (* [Speed(n)] for an [n] that is no member, [int(nan)] *)
| OverflowError     (* [int(inf)], [float(n)] for a huge [n] *)
| RuntimeError      (* [Thread.join] on the current thread *)
| PigpioError       (* [pigpio.error]: the daemon refused a request *)
| ConnectError.     (* [Exception("Faild to connect controller.")] *)

(** ** Python numbers *)
Module PyFloat.

(** [int(x)]: truncation toward zero; [ValueError] on NaN and
    [OverflowError] on the infinities. *)
Definition py_int (x : float) : exn + Z :=
  match Prim2SF x with
  | S754_nan => inl ValueError
  | S754_infinity _ => inl OverflowError
  | S754_zero _ => inr 0
  | S754_finite s m e =>
      let mag := if 0 <=? e then Z.pos m * 2 ^ e else Z.pos m / 2 ^ (- e) in
      inr (if s then - mag else mag)
  end.

(** The implicit conversion of an [int] operand in mixed arithmetic
    ([1000 * dutycycle], [0.15 * level]): the nearest double, ties to even;
    [OverflowError] beyond the range of binary64. *)
Definition py_float (z : Z) : exn + float :=
  match binary_normalize prec emax z 0 false with
  | S754_infinity _ => inl OverflowError
  | r => inr (SF2Prim r)
  end.

(** [max(a, b)] on two doubles: [b] when [b > a], else [a]. *)
Definition py_max (a b : float) : float := if (a <? b)%float then b else a.

(** *** Auxiliary definitions for reasoning about binary64

    A non-NaN double is ordered like the triple [SFkey]: sign class first,
    then exponent, then mantissa (both negated for negative numbers). *)
Definition cmp3 (a b : Z * Z * Z) : comparison :=
  let '(a1, a2, a3) := a in
  let '(b1, b2, b3) := b in
  match a1 ?= b1 with
  | Eq => match a2 ?= b2 with Eq => a3 ?= b3 | c => c end
  | c => c
  end.

Definition SFkey (x : spec_float) : option (Z * Z * Z) :=
  match x with
  | S754_nan => None
  | S754_zero _ => Some (0, 0, 0)
  | S754_infinity s => Some (if s then -2 else 2, 0, 0)
  | S754_finite s m e =>
      Some (if s then (-1, - e, Z.neg m) else (1, e, Z.pos m))
  end.

Definition key (x : float) : option (Z * Z * Z) := SFkey (Prim2SF x).

Definition lt3 (a b : Z * Z * Z) : Prop :=
  a.1.1 < b.1.1 \/
  (a.1.1 = b.1.1 /\ (a.1.2 < b.1.2 \/ (a.1.2 = b.1.2 /\ a.2 < b.2))).

Definition le3 (a b : Z * Z * Z) : Prop := lt3 a b \/ a = b.

(** The exponent function of binary64 ([fexp prec emax]). *)
Definition fx (e : Z) : Z := Z.max (e - 53) (-1074).

(** What [binary_round_aux] returns once the mantissa has been shifted to
    exponent [E] and rounded to [m2]. *)
Definition rounded (s : bool) (m2 E : Z) : spec_float :=
  if m2 =? 0 then S754_zero s
  else if m2 =? 2 ^ 53 then
    if E + 1 <=? 971 then S754_finite s (2 ^ 52)%positive (E + 1)
    else S754_infinity s
  else if E <=? 971 then S754_finite s (Z.to_pos m2) E
  else S754_infinity s.

End PyFloat.
Export PyFloat.

(** ** controller/speed.py *)
Module Speed.

(** [class Speed(IntEnum)]. *)
Inductive Speed : Set := Zero | Slow | Middle | High | Max.

(** The integer a member stands for. *)
Definition value (s : Speed) : Z :=
  match s with Zero => 0 | Slow => 1 | Middle => 2 | High => 3 | Max => 4 end.

(** The call [Speed(n)]: the member of value [n], or [ValueError]. *)
Definition of_int (n : Z) : exn + Speed :=
  match n with
  | 0 => inr Zero
  | 1 => inr Slow
  | 2 => inr Middle
  | 3 => inr High
  | 4 => inr Max
  | _ => inl ValueError
  end.

End Speed.
Abbreviation Speed := Speed.Speed.

(** ** controller/controllerdata.py *)
Module controllerdata.

Inductive ControllerEventType : Set :=
| Empty | Connected | Disconnected | InputChanged | Quit.

(** [AxisInput].  [main] builds the controller with [ControllerType.Xbox],
    so [value] always holds a level produced by the quantizer, an [int]. *)
Record AxisInput : Set := { positive : bool; value : Z }.

Definition AxisInput_default : AxisInput := {| positive := true; value := 0 |}.

Record ControllerInput : Set := {
  buttons : list bool;
  hats : list (Z * Z);
  axes : list AxisInput
}.

(** [ControllerInput()]: three empty lists. *)
Definition ControllerInput_new : ControllerInput :=
  {| buttons := []; hats := []; axes := [] |}.

(** [reset] clears the three lists. *)
Definition reset (_ : ControllerInput) : ControllerInput := ControllerInput_new.

(** [self.copy(source)]: the three lists are copied from [source]. *)
Definition copy (_ source : ControllerInput) : ControllerInput :=
  {| buttons := buttons source; hats := hats source; axes := axes source |}.

(** The [__eq__] that [@dataclass] generates: the tuples of fields are
    compared, lists element by element. *)
Definition AxisInput_eqb (a b : AxisInput) : bool :=
  Bool.eqb (positive a) (positive b) && (value a =? value b).

Definition hat_eqb (a b : Z * Z) : bool := (a.1 =? b.1) && (a.2 =? b.2).

Fixpoint list_eqb {A : Type} (eqb : A -> A -> bool) (l1 l2 : list A) : bool :=
  match l1, l2 with
  | [], [] => true
  | x :: l1', y :: l2' => eqb x y && list_eqb eqb l1' l2'
  | _, _ => false
  end.

Definition ControllerInput_eqb (a b : ControllerInput) : bool :=
  list_eqb Bool.eqb (buttons a) (buttons b)
  && list_eqb hat_eqb (hats a) (hats b)
  && list_eqb AxisInput_eqb (axes a) (axes b).

Record ControllerData : Set := {
  event : ControllerEventType;
  controller_input : ControllerInput
}.

(** [ControllerData(event)]; [__post_init__] installs an empty input. *)
Definition ControllerData_new (ev : ControllerEventType) : ControllerData :=
  {| event := ev; controller_input := ControllerInput_new |}.

End controllerdata.
Export controllerdata.

(** ** controller/xboxdefs.py *)
Module xboxdefs.

Module XboxControllerButton.
Definition A : nat := 0.
Definition B : nat := 1.
Definition X : nat := 3.
Definition Y : nat := 4.
Definition LeftBumper : nat := 6.
Definition RightBumper : nat := 7.
Definition Back : nat := 10.
Definition Start : nat := 11.
Definition LeftStick : nat := 13.
Definition RightStick : nat := 14.
Definition Guide : nat := 12.
End XboxControllerButton.

Module XboxControllerStick.
Definition LeftX : nat := 0.
Definition LeftY : nat := 1.
Definition RightX : nat := 2.
Definition RightY : nat := 3.
End XboxControllerStick.

Module XboxControllerTrigger.
Definition Left : nat := 5.
Definition Right : nat := 4.
(** The members in definition order, as iterating the enum yields them. *)
Definition members : list nat := [Left; Right].
End XboxControllerTrigger.

(** [l[i]] for an index that is never negative. *)
Definition index {A : Type} (l : list A) (i : nat) : exn + A :=
  match l !! i with
  | Some x => inr x
  | None => inl IndexError
  end.

(** [XboxControllerInputHelper]. *)
Definition ButtonBack (input : ControllerInput) : exn + bool :=
  index (buttons input) XboxControllerButton.Back.
Definition ButtonStart (input : ControllerInput) : exn + bool :=
  index (buttons input) XboxControllerButton.Start.
Definition ButtonStickRight (input : ControllerInput) : exn + bool :=
  index (buttons input) XboxControllerButton.RightStick.

Definition HatX (input : ControllerInput) : exn + Z :=
  match index (hats input) 0 with
  | inr h => inr h.1
  | inl e => inl e
  end.
Definition HatY (input : ControllerInput) : exn + Z :=
  match index (hats input) 0 with
  | inr h => inr h.2
  | inl e => inl e
  end.

Definition StickLeftX (input : ControllerInput) : exn + AxisInput :=
  index (axes input) XboxControllerStick.LeftX.
Definition StickLeftY (input : ControllerInput) : exn + AxisInput :=
  index (axes input) XboxControllerStick.LeftY.
Definition StickRightX (input : ControllerInput) : exn + AxisInput :=
  index (axes input) XboxControllerStick.RightX.
Definition StickRightY (input : ControllerInput) : exn + AxisInput :=
  index (axes input) XboxControllerStick.RightY.
Definition TriggerLeft (input : ControllerInput) : exn + AxisInput :=
  index (axes input) XboxControllerTrigger.Left.
Definition TriggerRight (input : ControllerInput) : exn + AxisInput :=
  index (axes input) XboxControllerTrigger.Right.

End xboxdefs.
Export xboxdefs.

(** ** controller/analogaxis.py *)
Module analogaxis.

Record AnalogStickThreshold : Set := {
  st_zero : float; st_low : float; st_middle : float; st_high : float
}.
Definition AnalogStickThreshold_default : AnalogStickThreshold :=
  {| st_zero := 0.2; st_low := 0.4; st_middle := 0.6; st_high := 0.8 |}.

Record AnalogStickRoundedValue : Set := {
  sv_zero : Z; sv_low : Z; sv_middle : Z; sv_high : Z; sv_max : Z
}.
Definition AnalogStickRoundedValue_default : AnalogStickRoundedValue :=
  {| sv_zero := Speed.value Speed.Zero; sv_low := Speed.value Speed.Slow;
     sv_middle := Speed.value Speed.Middle; sv_high := Speed.value Speed.High;
     sv_max := Speed.value Speed.Max |}.

Record TriggerThreshold : Set := {
  tt_zero : float; tt_low : float; tt_middle : float; tt_high : float
}.
Definition TriggerThreshold_default : TriggerThreshold :=
  {| tt_zero := 0.2; tt_low := 0.65; tt_middle := 1.1; tt_high := 1.6 |}.

Record TriggerRoundedValue : Set := {
  tv_zero : Z; tv_low : Z; tv_middle : Z; tv_high : Z; tv_max : Z
}.
Definition TriggerRoundedValue_default : TriggerRoundedValue :=
  {| tv_zero := Speed.value Speed.Zero; tv_low := Speed.value Speed.Slow;
     tv_middle := Speed.value Speed.Middle; tv_high := Speed.value Speed.High;
     tv_max := Speed.value Speed.Max |}.

(** The four tables [AnalogAxisConverter.__init__] stores. *)
Record AnalogAxisConverter : Set := {
  _stick_threshold : AnalogStickThreshold;
  _stick_rounded_value : AnalogStickRoundedValue;
  _trigger_threshold : TriggerThreshold;
  _trigger_rounded_value : TriggerRoundedValue
}.

Definition _is_positive (value : float) : bool := (0 <=? value)%float.

Definition _round_stick_value (self : AnalogAxisConverter) (value : float) : Z :=
  let abs_value := abs value in
  if (abs_value <? st_zero (_stick_threshold self))%float then
    sv_zero (_stick_rounded_value self)
  else if (abs_value <? st_low (_stick_threshold self))%float then
    sv_low (_stick_rounded_value self)
  else if (abs_value <? st_middle (_stick_threshold self))%float then
    sv_middle (_stick_rounded_value self)
  else if (abs_value <? st_high (_stick_threshold self))%float then
    sv_high (_stick_rounded_value self)
  else sv_max (_stick_rounded_value self).

Definition _round_trigger_value (self : AnalogAxisConverter) (value : float) : Z :=
  if (value <? tt_zero (_trigger_threshold self))%float then
    tv_zero (_trigger_rounded_value self)
  else if (value <? tt_low (_trigger_threshold self))%float then
    tv_low (_trigger_rounded_value self)
  else if (value <? tt_middle (_trigger_threshold self))%float then
    tv_middle (_trigger_rounded_value self)
  else if (value <? tt_high (_trigger_threshold self))%float then
    tv_high (_trigger_rounded_value self)
  else tv_max (_trigger_rounded_value self).

(** [XboxAnalogAxisConverter()]: the default tables. *)
Definition XboxAnalogAxisConverter : AnalogAxisConverter :=
  {| _stick_threshold := AnalogStickThreshold_default;
     _stick_rounded_value := AnalogStickRoundedValue_default;
     _trigger_threshold := TriggerThreshold_default;
     _trigger_rounded_value := TriggerRoundedValue_default |}.

(** [XboxAnalogAxisConverter.convert]. *)
Definition convert (self : AnalogAxisConverter) (index : nat) (value : float)
  : AxisInput :=
  if bool_decide (index ∈ XboxControllerTrigger.members) then
    {| positive := true; value := _round_trigger_value self (1 + value) |}
  else
    {| positive := _is_positive value; value := _round_stick_value self value |}.

(** What the specification asks of a quantizer with the thresholds
    [t0 < t1 < t2 < t3]: five half-open buckets, the lower bound included,
    the last one unbounded. *)
Definition buckets (t0 t1 t2 t3 x : float) (level : Z) : Prop :=
  ((x <? t0)%float = true -> level = 0) /\
  ((t0 <=? x)%float = true -> (x <? t1)%float = true -> level = 1) /\
  ((t1 <=? x)%float = true -> (x <? t2)%float = true -> level = 2) /\
  ((t2 <=? x)%float = true -> (x <? t3)%float = true -> level = 3) /\
  ((t3 <=? x)%float = true -> level = 4).

End analogaxis.
Export analogaxis.

(** ** State and exceptions

    A method that mutates state [S] and may raise: the state reached is
    returned in both cases, as a Python object keeps the assignments made
    before the exception. *)
Definition ST (S A : Type) : Type := S -> S * (exn + A).

Definition ret {S A : Type} (a : A) : ST S A := fun s => (s, inr a).

Definition bind {S A B : Type} (m : ST S A) (k : A -> ST S B) : ST S B :=
  fun s =>
    match m s with
    | (s', inr a) => k a s'
    | (s', inl e) => (s', inl e)
    end.

Notation "'let*' x ':=' m 'in' k" := (bind m (fun x => k))
  (at level 10, x name, m at level 100, k at level 200).
Notation "m '>>' k" := (bind m (fun _ => k))
  (at level 100, k at level 200, right associativity).

Definition raise {S A : Type} (e : exn) : ST S A := fun s => (s, inl e).

(** The value or the exception of a pure computation. *)
Definition lift {S A : Type} (r : exn + A) : ST S A := fun s => (s, r).

(** ** gpio/pigpiohelper.py: the one [pigpio.pi] instance

    The pigpio daemon is an external collaborator.  Of its state the model
    keeps the PWM dutycycle last accepted on each GPIO, and takes the
    daemon's check of a request ([accepts gpio dutycycle]) as given. *)
Module pigpio.

Record pi : Type := {
  accepts : Z -> Z -> bool;
  dutycycles : gmap Z Z
}.

(** [pi.set_PWM_dutycycle(gpio, dutycycle)]: stores the dutycycle, or
    raises [pigpio.error] when the daemon refuses. *)
Definition set_PWM_dutycycle (gpio dutycycle : Z) : ST pi unit :=
  fun p =>
    if accepts p gpio dutycycle then
      ({| accepts := accepts p;
          dutycycles := <[gpio := dutycycle]> (dutycycles p) |}, inr tt)
    else (p, inl PigpioError).

(** The dutycycle a GPIO outputs; a GPIO never written outputs none. *)
Definition get_PWM_dutycycle (p : pi) (gpio : Z) : Z :=
  default 0 (dutycycles p !! gpio).

End pigpio.
Export pigpio.

(** ** gpio/led.py *)
Module LED.

Record LED : Set := {
  _led_pin : Z;
  PWM_RANGE : Z;
  BRIGHTNESS_STEP : float;
  _current_duty : float
}.

(** The fields [__init__] sets.  [_current_duty] starts as the integer [1];
    an [int] [0] or [1] held there is represented by the double of the same
    value, which [+], [-], [*], the comparisons and [int()] do not tell
    apart. *)
Definition init (led_pin : Z) : LED :=
  {| _led_pin := led_pin; PWM_RANGE := 1000; BRIGHTNESS_STEP := 0.1;
     _current_duty := 1 |}.

(** The LED object together with the pigpio instance it writes to. *)
Definition world : Type := LED * pi.

Definition set_current_duty (d : float) : ST world unit :=
  fun w =>
    ({| _led_pin := _led_pin w.1; PWM_RANGE := PWM_RANGE w.1;
        BRIGHTNESS_STEP := BRIGHTNESS_STEP w.1; _current_duty := d |}, w.2,
     inr tt).

Definition self : ST world LED := fun w => (w, inr w.1).

(** A request to the pigpio instance. *)
Definition on_pi {A : Type} (m : ST pi A) : ST world A :=
  fun w => match m w.2 with (p, r) => ((w.1, p), r) end.

Definition _set_led (dutycycle : Z) : ST world unit :=
  let* s := self in
  on_pi (set_PWM_dutycycle (_led_pin s) dutycycle).

(** [int(self._current_duty * self.PWM_RANGE)]. *)
Definition scaled_duty : ST world Z :=
  let* s := self in
  let* range := lift (py_float (PWM_RANGE s)) in
  lift (py_int (_current_duty s * range)%float).

Definition on : ST world unit :=
  let* s := self in
  (if (_current_duty s =? 0)%float then set_current_duty 1 else ret tt) >>
  let* dutycycle := scaled_duty in
  _set_led dutycycle.

Definition off : ST world unit := _set_led 0.

Definition increment_brightness : ST world unit :=
  let* s := self in
  set_current_duty (_current_duty s + BRIGHTNESS_STEP s)%float >>
  let* s := self in
  (if (1 <? _current_duty s)%float then set_current_duty 1 else ret tt) >>
  let* dutycycle := scaled_duty in
  _set_led dutycycle.

Definition decrement_brightness : ST world unit :=
  let* s := self in
  set_current_duty (_current_duty s - BRIGHTNESS_STEP s)%float >>
  let* s := self in
  (if (_current_duty s <? 0)%float then set_current_duty 0 else ret tt) >>
  let* dutycycle := scaled_duty in
  _set_led dutycycle.

(** A call of one of the four public methods. *)
Inductive call : Set := On | Off | IncrementBrightness | DecrementBrightness.

Definition do_call (c : call) : ST world unit :=
  match c with
  | On => on
  | Off => off
  | IncrementBrightness => increment_brightness
  | DecrementBrightness => decrement_brightness
  end.

(** A sequence of calls by a caller that goes on after an exception. *)
Definition do_calls (cs : list call) (w : world) : world :=
  fold_left (fun w c => (do_call c w).1) cs w.

(** The fields other than the brightness are as [init] sets them, and the
    brightness is a fraction. *)
Definition LED_ok (led_pin : Z) (l : LED) : Prop :=
  _led_pin l = led_pin /\ PWM_RANGE l = 1000 /\ BRIGHTNESS_STEP l = 0.1%float /\
  (0 <=? _current_duty l)%float = true /\ (_current_duty l <=? 1)%float = true.

End LED.

(** ** gpio/motordriver.py: [Motor] *)
Module Motor.

Record Motor : Set := {
  _forward_pin : Z;
  _backward_pin : Z;
  _max_dutycycle : Z
}.

Definition move (self : Motor) (dutycycle : float) (forward : bool) : ST pi unit :=
  let* range := lift (py_float (_max_dutycycle self)) in
  let* dutycycle_ := lift (py_int (range * dutycycle)%float) in
  let dutycycle_ :=
    if dutycycle_ >? _max_dutycycle self then _max_dutycycle self
    else dutycycle_ in
  if forward then
    set_PWM_dutycycle (_backward_pin self) 0 >>
    set_PWM_dutycycle (_forward_pin self) dutycycle_
  else
    set_PWM_dutycycle (_forward_pin self) 0 >>
    set_PWM_dutycycle (_backward_pin self) dutycycle_.

Definition stop (self : Motor) : ST pi unit :=
  set_PWM_dutycycle (_forward_pin self) 0 >>
  set_PWM_dutycycle (_backward_pin self) 0.

(** [Motor(forward_pin, backward_pin, max_dutycycle)]: the constructor ends
    with [self.stop()]. *)
Definition init (forward_pin backward_pin max_dutycycle : Z) : ST pi Motor :=
  let self := {| _forward_pin := forward_pin; _backward_pin := backward_pin;
                 _max_dutycycle := max_dutycycle |} in
  stop self >> ret self.

Inductive call : Set := Move (dutycycle : float) (forward : bool) | Stop.

Definition do_call (self : Motor) (c : call) : ST pi unit :=
  match c with
  | Move dutycycle forward => move self dutycycle forward
  | Stop => stop self
  end.

(** A sequence of calls by a caller that goes on after an exception. *)
Definition do_calls (self : Motor) (cs : list call) (p : pi) : pi :=
  fold_left (fun p c => (do_call self c p).1) cs p.

(** At most one of the two direction pins of [self] outputs PWM. *)
Definition one_direction (self : Motor) (p : pi) : Prop :=
  get_PWM_dutycycle p (_forward_pin self) = 0 \/
  get_PWM_dutycycle p (_backward_pin self) = 0.

End Motor.

(** ** radiocontrol.py

    The servos, the motors and the LED are commanded through their methods;
    the dispatch loop is modelled over the sequence of these calls, which is
    its state: a call appends to it. *)
Module radiocontrol.

Definition SERVO_STEP_SLOW : Z := 250.
Definition SERVO_STEP_MIDDLE : Z := 500.
Definition SERVO_STEP_HIGH : Z := 750.
Definition SERVO_STEP_MAX : Z := 1000.
Definition SERVO_INTERVAL : float := 0.025.

Inductive servo : Set := pan_servo | tilt_servo.
Inductive motor : Set := left_motor | right_motor.

(** A method call on one of the actuators. *)
Inductive command : Set :=
| led_on
| led_off
| led_increment_brightness
| led_decrement_brightness
| servo_move (s : servo) (step : Z) (interval : float) (clockwise : bool)
| servo_stop (s : servo)
| servo_initial (s : servo)
| motor_move (m : motor) (dutycycle : float) (forward : bool)
| motor_stop (m : motor).

Definition is_motor_command (c : command) : bool :=
  match c with
  | motor_move _ _ _ | motor_stop _ => true
  | _ => false
  end.

Definition calls : Type := list command.

Definition call (c : command) : ST calls unit := fun tr => (tr ++ [c], inr tt).

(** How an iteration of a [while True] loop ends: at its end or a
    [continue], at a [break], or by never returning. *)
Inductive flow : Set := Continue | Break | Blocked.

(** Python's [a and b]: [b] is evaluated only when [a] is true. *)
Definition and_ {S : Type} (a b : ST S bool) : ST S bool :=
  let* x := a in if x then b else ret false.

Definition run_servo (s : servo) (speed : Speed) (clockwise : bool) : ST calls unit :=
  match speed with
  | Speed.Slow => call (servo_move s SERVO_STEP_SLOW SERVO_INTERVAL clockwise)
  | Speed.Middle => call (servo_move s SERVO_STEP_MIDDLE SERVO_INTERVAL clockwise)
  | Speed.High => call (servo_move s SERVO_STEP_HIGH SERVO_INTERVAL clockwise)
  | Speed.Max => call (servo_move s SERVO_STEP_MAX SERVO_INTERVAL clockwise)
  | Speed.Zero => ret tt
  end.

(** The integers [1] and [0] of the last two branches are the doubles of the
    same value. *)
Definition get_dutycycle (speed : Speed) : float :=
  match speed with
  | Speed.Slow => 0.25
  | Speed.Middle => 0.5
  | Speed.High => 0.75
  | Speed.Max => 1
  | Speed.Zero => 0
  end.

Definition run_motor_raw (m : motor) (dutycycle : float) (forward : bool)
  : ST calls unit :=
  call (motor_move m dutycycle forward).

Definition run_motor (m : motor) (speed : Speed) (forward : bool) : ST calls unit :=
  let dutycycle := get_dutycycle speed in
  run_motor_raw m dutycycle forward.

(** [# LED lighting] *)
Definition led_lighting (input : ControllerInput) : ST calls unit :=
  (let* x := lift (HatX input) in
   if 0 <? x then call led_on
   else
     let* x := lift (HatX input) in
     if x <? 0 then call led_off else ret tt) >>
  let* y := lift (HatY input) in
  if 0 <? y then call led_increment_brightness
  else
    let* y := lift (HatY input) in
    if y <? 0 then call led_decrement_brightness else ret tt.

(** [# Control camera servo] *)
Definition camera_servo (input : ControllerInput) : ST calls unit :=
  (let* x := lift (StickRightX input) in
   if value x =? 0 then call (servo_stop pan_servo)
   else
     let* x := lift (StickRightX input) in
     let* speed := lift (Speed.of_int (value x)) in
     let* x := lift (StickRightX input) in
     let clockwise := positive x in
     run_servo pan_servo speed (negb clockwise)) >>
  (let* y := lift (StickRightY input) in
   if value y =? 0 then call (servo_stop tilt_servo)
   else
     let* y := lift (StickRightY input) in
     let* speed := lift (Speed.of_int (value y)) in
     let* y := lift (StickRightY input) in
     let clockwise := positive y in
     run_servo tilt_servo speed clockwise) >>
  let* b := lift (ButtonStickRight input) in
  if b then call (servo_initial pan_servo) >> call (servo_initial tilt_servo)
  else ret tt.

(** [# Spin turn]: [true] when one of the two branches ran and ended the
    iteration by [continue]. *)
Definition spin_turn (input : ControllerInput) : ST calls bool :=
  let* only_left :=
    and_ (let* l := lift (TriggerLeft input) in ret (negb (value l =? 0)))
         (let* r := lift (TriggerRight input) in ret (value r =? 0)) in
  if only_left then
    let* l := lift (TriggerLeft input) in
    let* speed := lift (Speed.of_int (value l)) in
    run_motor left_motor speed false >>
    run_motor right_motor speed true >>
    ret true
  else
    let* only_right :=
      and_ (let* l := lift (TriggerLeft input) in ret (value l =? 0))
           (let* r := lift (TriggerRight input) in ret (negb (value r =? 0))) in
    if only_right then
      let* r := lift (TriggerRight input) in
      let* speed := lift (Speed.of_int (value r)) in
      run_motor left_motor speed true >>
      run_motor right_motor speed false >>
      ret true
    else ret false.

(** The last branch of [# Running motor]: both axes of the left stick are
    tilted. *)
Definition blended_turn (input : ControllerInput) : ST calls unit :=
  let* y := lift (StickLeftY input) in
  let* speed := lift (Speed.of_int (value y)) in
  let* x := lift (StickLeftX input) in
  let* level := lift (py_float (value x)) in
  let dutycycle := (get_dutycycle speed - 0.15 * level)%float in
  let* y := lift (StickLeftY input) in
  let forward := negb (positive y) in
  let dutycycle := if (dutycycle <? 0)%float then 0%float else dutycycle in
  let* x := lift (StickLeftX input) in
  if positive x then
    run_motor left_motor speed forward >>
    run_motor_raw right_motor dutycycle forward
  else
    run_motor right_motor speed forward >>
    run_motor_raw left_motor dutycycle forward.

(** [# Running motor] *)
Definition running_motor (input : ControllerInput) : ST calls unit :=
  let* neutral :=
    and_ (let* y := lift (StickLeftY input) in ret (value y =? 0))
         (let* x := lift (StickLeftX input) in ret (value x =? 0)) in
  if neutral then call (motor_stop left_motor) >> call (motor_stop right_motor)
  else
    let* only_y :=
      and_ (let* y := lift (StickLeftY input) in ret (negb (value y =? 0)))
           (let* x := lift (StickLeftX input) in ret (value x =? 0)) in
    if only_y then
      let* y := lift (StickLeftY input) in
      let* speed := lift (Speed.of_int (value y)) in
      let* y := lift (StickLeftY input) in
      let forward := negb (positive y) in
      run_motor left_motor speed forward >>
      run_motor right_motor speed forward
    else
      let* only_x :=
        and_ (let* y := lift (StickLeftY input) in ret (value y =? 0))
             (let* x := lift (StickLeftX input) in ret (negb (value x =? 0))) in
      if only_x then
        let* x := lift (StickLeftX input) in
        let* speed := lift (Speed.of_int (value x)) in
        let* x := lift (StickLeftX input) in
        if positive x then
          call (motor_stop right_motor) >> run_motor left_motor speed true
        else
          call (motor_stop left_motor) >> run_motor right_motor speed true
      else blended_turn input.

(** The part of an iteration that precedes the reading of the fault input. *)
Definition light_and_servos (input : ControllerInput) : ST calls unit :=
  led_lighting input >> camera_servo input.

(** The body of the main loop from [input = state.controller_input] on.
    [chip_down] is what [pi.read(MOTOR_DRIVER_STATE_PIN)] returns when the
    iteration reads it. *)
Definition input_changed (input : ControllerInput) (chip_down : bool)
  : ST calls flow :=
  led_lighting input >>
  camera_servo input >>
  if chip_down then ret Continue
  else
    let* spun := spin_turn input in
    if spun then ret Continue
    else
      running_motor input >>
      let* quit := and_ (lift (ButtonBack input)) (lift (ButtonStart input)) in
      if quit then ret Break else ret Continue.

(** One iteration of the main loop, on the [state] taken from the queue. *)
Definition iteration (state : ControllerData) (chip_down : bool) : ST calls flow :=
  match event state with
  | Quit => ret Break
  | Disconnected =>
      call (servo_stop pan_servo) >>
      call (servo_stop tilt_servo) >>
      call (motor_stop left_motor) >>
      call (motor_stop right_motor) >>
      ret Continue
  | InputChanged => input_changed (controller_input state) chip_down
  | _ => ret Continue
  end.

(** The main loop over the states the queue delivers, each with the reading
    of the fault input during its iteration.  When the queue delivers nothing
    more, [controller.data.get()] blocks. *)
Fixpoint main_loop (deliveries : list (ControllerData * bool)) : ST calls flow :=
  match deliveries with
  | [] => ret Blocked
  | (state, chip_down) :: rest =>
      let* f := iteration state chip_down in
      match f with
      | Continue => main_loop rest
      | _ => ret f
      end
  end.

(** [m] only appends calls, and none of them is a call to a motor. *)
Definition no_motor_call {A : Type} (m : ST calls A) : Prop :=
  forall tr, exists added,
    (m tr).1 = tr ++ added /\ Forall (fun c => is_motor_command c = false) added.

(** Motor [m] is told to move at [dutycycle] somewhere in the calls [tr]. *)
Definition commanded (m : motor) (dutycycle : float) (tr : calls) : Prop :=
  exists forward, In (motor_move m dutycycle forward) tr.

End radiocontrol.

(** ** controller/controller.py

    pygame is an external collaborator: the model takes from it the event
    each [pygame.event.wait()] returns, the joysticks present, and the
    readings of the connected joystick.  [ControllerType] is declared in
    [controller/controllerdefs.py]; its value, the device name to match, is
    the field [_controller_type], and the converter is the one the factory
    returns for [ControllerType.Xbox], the type [main] passes. *)
Module controller.

Import radiocontrol.

(** The threads that run methods of the controller. *)
Inductive thread : Set := MainThread | CapturingThread.

Definition thread_eqb (a b : thread) : bool :=
  match a, b with
  | MainThread, MainThread | CapturingThread, CapturingThread => true
  | _, _ => false
  end.

(** The events the capture loop can receive: those
    [_set_allowed_target_event] allows and the [QUIT] that [quit] posts. *)
Inductive pygame_event : Set :=
| QUIT
| JOYAXISMOTION
| JOYHATMOTION
| JOYBUTTONUP
| JOYBUTTONDOWN
| JOYDEVICEREMOVED (instance_id : Z).

(** A joystick handle, [pygame.joystick.Joystick(i)]. *)
Record Joystick : Set := { get_name : string; get_instance_id : Z }.

(** What [get_axis], [get_button] and [get_hat] return for each index at the
    time of a poll. *)
Record readings : Set := {
  get_axis : list float;
  get_button : list bool;
  get_hat : list (Z * Z)
}.

(** A [JOYDEVICEADDED] event delivered to the search thread: the time it
    arrives, in seconds from the start of the search, and the joysticks
    present then. *)
Record attached : Set := { arrival : float; joysticks : list Joystick }.

(** An object in the queue: [self._controller_data] itself, which later
    assignments change in place, or a [ControllerData] built for the [put]. *)
Inductive entry : Set :=
| the_controller_data
| fresh (d : ControllerData).

Record Controller : Set := {
  _controller_type : string;
  _controller : option Joystick;
  _connection_timeout : float;
  _controller_connected : bool;
  data : list entry;
  _controller_data : ControllerData;
  _axis_converter : AnalogAxisConverter;
  _running : bool;
  _running_event : bool
}.

(** [Controller(controller_type, connection_timeout)]. *)
Definition init (controller_type : string) (connection_timeout : float) : Controller :=
  {| _controller_type := controller_type;
     _controller := None;
     _connection_timeout := connection_timeout;
     _controller_connected := false;
     data := [];
     _controller_data := ControllerData_new Empty;
     _axis_converter := XboxAnalogAxisConverter;
     _running := false;
     _running_event := false |}.

(** The state an entry of the queue shows to the thread that reads it. *)
Definition deref (self : Controller) (e : entry) : ControllerData :=
  match e with
  | the_controller_data => _controller_data self
  | fresh d => d
  end.

(** Assignments to the fields. *)
Definition set_controller (j : Joystick) : ST Controller unit :=
  fun c =>
    ({| _controller_type := _controller_type c; _controller := Some j;
        _connection_timeout := _connection_timeout c;
        _controller_connected := _controller_connected c; data := data c;
        _controller_data := _controller_data c;
        _axis_converter := _axis_converter c; _running := _running c;
        _running_event := _running_event c |}, inr tt).

Definition set_controller_connected (b : bool) : ST Controller unit :=
  fun c =>
    ({| _controller_type := _controller_type c; _controller := _controller c;
        _connection_timeout := _connection_timeout c;
        _controller_connected := b; data := data c;
        _controller_data := _controller_data c;
        _axis_converter := _axis_converter c; _running := _running c;
        _running_event := _running_event c |}, inr tt).

Definition set_data (q : list entry) : ST Controller unit :=
  fun c =>
    ({| _controller_type := _controller_type c; _controller := _controller c;
        _connection_timeout := _connection_timeout c;
        _controller_connected := _controller_connected c; data := q;
        _controller_data := _controller_data c;
        _axis_converter := _axis_converter c; _running := _running c;
        _running_event := _running_event c |}, inr tt).

Definition set_controller_data (d : ControllerData) : ST Controller unit :=
  fun c =>
    ({| _controller_type := _controller_type c; _controller := _controller c;
        _connection_timeout := _connection_timeout c;
        _controller_connected := _controller_connected c; data := data c;
        _controller_data := d;
        _axis_converter := _axis_converter c; _running := _running c;
        _running_event := _running_event c |}, inr tt).

Definition set_running (b : bool) : ST Controller unit :=
  fun c =>
    ({| _controller_type := _controller_type c; _controller := _controller c;
        _connection_timeout := _connection_timeout c;
        _controller_connected := _controller_connected c; data := data c;
        _controller_data := _controller_data c;
        _axis_converter := _axis_converter c; _running := b;
        _running_event := _running_event c |}, inr tt).

Definition set_running_event (b : bool) : ST Controller unit :=
  fun c =>
    ({| _controller_type := _controller_type c; _controller := _controller c;
        _connection_timeout := _connection_timeout c;
        _controller_connected := _controller_connected c; data := data c;
        _controller_data := _controller_data c;
        _axis_converter := _axis_converter c; _running := _running c;
        _running_event := b |}, inr tt).

Definition self : ST Controller Controller := fun c => (c, inr c).

(** [self.data.put(x)] and [self.data.clear()]. *)
Definition data_put (e : entry) : ST Controller unit :=
  let* c := self in set_data (data c ++ [e]).

Definition data_clear : ST Controller unit := set_data [].

(** [_try_connect_controller], over the joysticks present.  A
    [pygame.error] while the joysticks are listed is not modelled. *)
Fixpoint _try_connect_controller (present : list Joystick) : ST Controller bool :=
  match present with
  | [] => ret false
  | joy :: rest =>
      let* c := self in
      if String.eqb (get_name joy) (_controller_type c) then
        set_controller joy >>
        set_controller_connected true >>
        data_put (fresh (ControllerData_new Connected)) >>
        ret true
      else _try_connect_controller rest
  end.

(** [_search_controller] up to the moment the [join] of
    [_reconnect_controller] returns: the events that arrive before the
    [deadline] are tried in turn.  The result tells whether the thread has
    finished. *)
Fixpoint _search_controller (deadline : option float) (events : list attached)
  : ST Controller bool :=
  match events with
  | [] => ret false
  | ev :: rest =>
      let in_time :=
        match deadline with
        | Some t => (arrival ev <? t)%float
        | None => true
        end in
      if in_time then
        let* found := _try_connect_controller (joysticks ev) in
        if found then
          let* c := self in
          (if _running c then set_running_event true else ret tt) >>
          ret true
        else _search_controller deadline rest
      else ret false
  end.

(** [quit], called by the thread [caller].  [Thread.join] raises
    [RuntimeError] when the thread to join is the calling one; joined from
    another thread, the capture thread takes the posted [QUIT] and ends. *)
Definition quit (caller : thread) : ST Controller unit :=
  data_clear >>
  (let* c := self in
   if _running c then
     set_running_event true >>
     (if thread_eqb caller CapturingThread then raise RuntimeError else ret tt)
   else ret tt) >>
  data_put (fresh (ControllerData_new Quit)).

(** [_reconnect_controller], called by the thread [caller].  With no
    timeout the [join] returns only when the search has finished. *)
Definition _reconnect_controller (caller : thread) (events : list attached)
  : ST Controller flow :=
  let* c := self in
  let deadline :=
    if (0 <? _connection_timeout c)%float then Some (_connection_timeout c)
    else None in
  let* finished := _search_controller deadline events in
  match deadline, finished with
  | None, false => ret Blocked
  | _, _ =>
      let* c := self in
      if negb (_controller_connected c) then quit caller >> ret Continue
      else ret Continue
  end.

(** [connect], called by the main thread. *)
Definition connect (present : list Joystick) (events : list attached)
  : ST Controller flow :=
  let* found := _try_connect_controller present in
  if negb found then _reconnect_controller MainThread events
  else ret Continue.

(** [run]. *)
Definition run : ST Controller unit :=
  let* c := self in
  if _running c then ret tt
  else set_running true >> set_running_event true.

(** The snapshot the capture loop assembles from the readings. *)
Definition poll (conv : AnalogAxisConverter) (now : readings) : ControllerInput :=
  {| buttons := get_button now;
     hats := get_hat now;
     axes := imap (convert conv) (get_axis now) |}.

(** The state of the capture thread: the controller object and the local
    variable [current_input]. *)
Definition capture : Type := Controller * ControllerInput.

Definition on_self {A : Type} (m : ST Controller A) : ST capture A :=
  fun s => match m s.1 with (c, r) => ((c, s.2), r) end.

Definition set_current_input (i : ControllerInput) : ST capture unit :=
  fun s => ((s.1, i), inr tt).

Definition current_input : ST capture ControllerInput := fun s => (s, inr s.2).

(** One iteration of the loop of [_run]: [event] is what
    [pygame.event.wait()] returns, [now] the readings of the joystick at
    that time, and [events] what the search receives should the iteration
    start one. *)
Definition _run_iteration (event : pygame_event) (now : readings)
    (events : list attached) : ST capture flow :=
  let* c := on_self self in
  if negb (_running_event c) then ret Blocked
  else
    match event with
    | QUIT => ret Break
    | _ =>
        if negb (_controller_connected c) then ret Continue
        else
          let* removed :=
            match event with
            | JOYDEVICEREMOVED instance_id =>
                match _controller c with
                | Some joy => ret (instance_id =? get_instance_id joy)
                | None => raise AttributeError
                end
            | _ => ret false
            end in
          if removed then
            on_self (set_controller_connected false) >>
            on_self data_clear >>
            on_self (set_controller_data
                       {| event := Disconnected;
                          controller_input :=
                            reset (controller_input (_controller_data c)) |}) >>
            (let* cur := current_input in set_current_input (reset cur)) >>
            on_self (data_put the_controller_data) >>
            on_self (set_running_event false) >>
            let* f := on_self (_reconnect_controller CapturingThread events) in
            ret f
          else
            (let* cur := current_input in set_current_input (reset cur)) >>
            set_current_input (poll (_axis_converter c) now) >>
            let* c := on_self self in
            let* cur := current_input in
            if ControllerInput_eqb (controller_input (_controller_data c)) cur
            then ret Continue
            else
              on_self (set_controller_data
                         {| event := InputChanged;
                            controller_input :=
                              copy (controller_input (_controller_data c)) cur |}) >>
              on_self (data_put the_controller_data) >>
              ret Continue
    end.

(** No joystick of the event carries the name the controller looks for. *)
Definition no_match (controller_type : string) (ev : attached) : Prop :=
  Forall (fun joy => String.eqb (get_name joy) controller_type = false)
         (joysticks ev).

(** [event] makes a connected capture loop poll the joystick: it is neither
    [QUIT] nor the removal of the connected joystick. *)
Definition polls (c : Controller) (event : pygame_event) : Prop :=
  match event with
  | QUIT => False
  | JOYDEVICEREMOVED instance_id =>
      exists joy, _controller c = Some joy /\ instance_id <> get_instance_id joy
  | _ => True
  end.


End controller.

(** ** Sample inputs *)
Module samples.

Import radiocontrol controller.

Definition idle_axis : AxisInput := AxisInput_default.

(** Left stick pushed forward to level High and to the right at level Slow. *)
Definition blend_example : ControllerInput :=
  {| buttons := repeat false 15;
     hats := [(0, 0)];
     axes := [ {| positive := true; value := 1 |};
               {| positive := false; value := 3 |};
               idle_axis; idle_axis; idle_axis; idle_axis ] |}.

(** Left trigger at level Middle, with Back and Start both pressed. *)
Definition spin_and_shutdown : ControllerInput :=
  {| buttons := repeat false 10 ++ [true; true; false; false; false];
     hats := [(0, 0)];
     axes := [ idle_axis; idle_axis; idle_axis; idle_axis; idle_axis;
               {| positive := true; value := 2 |} ] |}.

(** A daemon with the PWM range 1000 on every GPIO, nothing written yet. *)
Definition daemon : pi :=
  {| accepts := fun _ dutycycle => (0 <=? dutycycle) && (dutycycle <=? 1000);
     dutycycles := ∅ |}.

Definition pad : Joystick :=
  {| get_name := "Xbox Wireless Controller"%string; get_instance_id := 0 |}.

Definition keyboard : Joystick :=
  {| get_name := "Keyboard"%string; get_instance_id := 1 |}.

(** The controller of [main] after [connect] found the pad and [run]
    started the capture thread. *)
Definition connected_controller : Controller :=
  (run (connect [pad] [] (init "Xbox Wireless Controller"%string 30)).1).1.

(** The same controller once the pad has been removed. *)
Definition lost_controller : Controller :=
  (set_controller_connected false connected_controller).1.

(** Sticks centred and triggers released, then the left stick pushed. *)
Definition at_rest : readings :=
  {| get_axis := [0; 0; 0; 0; -1; -1]%float;
     get_button := repeat false 15;
     get_hat := [(0, 0)] |}.

Definition pushed : readings :=
  {| get_axis := [0.3; -0.9; 0; 0; -1; -1]%float;
     get_button := repeat false 15;
     get_hat := [(0, 0)] |}.

End samples.

(** ** controller/controllerdata.py: [ControllerDataQueue]

    [queue.SimpleQueue] is a first-in first-out queue; the model is the list
    of the objects it holds, the oldest first.  The objects are the entries
    of the controller's queue. *)
Module ControllerDataQueue.

Import controller.

Definition ControllerDataQueue : Type := list entry.

(** [ControllerDataQueue()]. *)
Definition init : ControllerDataQueue := [].

Definition put (data : entry) : ST ControllerDataQueue unit :=
  fun q => (q ++ [data], inr tt).

Definition put_nowait (data : entry) : ST ControllerDataQueue unit := put data.

(** [get]: [None] when the queue is empty and the call blocks. *)
Definition get (q : ControllerDataQueue) : option (entry * ControllerDataQueue) :=
  match q with
  | [] => None
  | x :: q' => Some (x, q')
  end.

(** [get_nowait]: on an empty queue a new [ControllerData()], whose event is
    [Empty]. *)
Definition get_nowait : ST ControllerDataQueue entry :=
  fun q =>
    match q with
    | [] => ([], inr (fresh (ControllerData_new Empty)))
    | x :: q' => (q', inr x)
    end.

(** [clear]: an object is taken for as long as the queue is not empty. *)
Fixpoint clear (q : ControllerDataQueue) : ControllerDataQueue :=
  match q with
  | [] => []
  | _ :: q' => clear q'
  end.

(** The objects [put] one after the other, and the results of [n]
    successive calls of [get_nowait]. *)
Definition put_all (xs : list entry) (q : ControllerDataQueue) : ControllerDataQueue :=
  fold_left (fun q x => (put x q).1) xs q.

Fixpoint get_nowait_n (n : nat) (q : ControllerDataQueue)
  : list entry * ControllerDataQueue :=
  match n with
  | O => ([], q)
  | S n' =>
      match get_nowait q with
      | (q', inr x) => let r := get_nowait_n n' q' in (x :: r.1, r.2)
      | (q', inl _) => ([], q')
      end
  end.

End ControllerDataQueue.

(** ** gpio/motordriver.py: [ThreadedServo]

    The servo object is shared by the thread of [_run] and the thread that
    calls [move], [initial], [stop] and [quit].  An iteration of the loop of
    [_run] and a method call are each taken as one step, and the two threads
    as an interleaving of such steps.  Of pigpio the model keeps the
    [hardware_PWM] requests in the order they are made; [set_mode] and the
    two [time.sleep] are left out. *)
Module ThreadedServo.

Import radiocontrol.

Definition _VALID_PIN_VALUES : list Z := [12; 13; 18; 19].

(** What the constructor can raise: [ZeroDivisionError] at a division by a
    zero frame width, or one of [exn]. *)
Inductive init_exn : Set :=
| ZeroDivisionError
| Raised (e : exn).

Record ThreadedServo : Set := {
  _pin : Z;
  _min_duty : Z;
  _max_duty : Z;
  _initial_duty : Z;
  _freq : Z;
  _current_duty : Z;
  _clockwise : bool;
  _step : Z;
  _interval : float;
  _exit : bool;
  _running_event : bool
}.

(** The servo object and the [hardware_PWM(gpio, PWMfreq, PWMduty)]
    requests made so far. *)
Definition world : Type := ThreadedServo * list (Z * Z * Z).

Definition self : ST world ThreadedServo := fun w => (w, inr w.1).

(** Assignments to the fields. *)
Definition set_current_duty (d : Z) : ST world unit :=
  fun w =>
    ({| _pin := _pin w.1; _min_duty := _min_duty w.1; _max_duty := _max_duty w.1;
        _initial_duty := _initial_duty w.1; _freq := _freq w.1;
        _current_duty := d; _clockwise := _clockwise w.1; _step := _step w.1;
        _interval := _interval w.1; _exit := _exit w.1;
        _running_event := _running_event w.1 |}, w.2, inr tt).

Definition set_motion (step : Z) (interval : float) (clockwise : bool)
  : ST world unit :=
  fun w =>
    ({| _pin := _pin w.1; _min_duty := _min_duty w.1; _max_duty := _max_duty w.1;
        _initial_duty := _initial_duty w.1; _freq := _freq w.1;
        _current_duty := _current_duty w.1; _clockwise := clockwise;
        _step := step; _interval := interval; _exit := _exit w.1;
        _running_event := _running_event w.1 |}, w.2, inr tt).

Definition set_exit (b : bool) : ST world unit :=
  fun w =>
    ({| _pin := _pin w.1; _min_duty := _min_duty w.1; _max_duty := _max_duty w.1;
        _initial_duty := _initial_duty w.1; _freq := _freq w.1;
        _current_duty := _current_duty w.1; _clockwise := _clockwise w.1;
        _step := _step w.1; _interval := _interval w.1; _exit := b;
        _running_event := _running_event w.1 |}, w.2, inr tt).

Definition set_running_event (b : bool) : ST world unit :=
  fun w =>
    ({| _pin := _pin w.1; _min_duty := _min_duty w.1; _max_duty := _max_duty w.1;
        _initial_duty := _initial_duty w.1; _freq := _freq w.1;
        _current_duty := _current_duty w.1; _clockwise := _clockwise w.1;
        _step := _step w.1; _interval := _interval w.1; _exit := _exit w.1;
        _running_event := b |}, w.2, inr tt).

Definition hardware_PWM (gpio PWMfreq PWMduty : Z) : ST world unit :=
  fun w => ((w.1, w.2 ++ [(gpio, PWMfreq, PWMduty)]), inr tt).

Definition stop : ST world unit := set_running_event false.

Definition move (step : Z) (interval : float) (clockwise : bool) : ST world unit :=
  set_motion step interval clockwise >>
  set_running_event true.

Definition initial : ST world unit :=
  stop >>
  let* s := self in
  set_current_duty (_initial_duty s) >>
  let* s := self in
  hardware_PWM (_pin s) (_freq s) (_initial_duty s).

(** One iteration of the loop of [_run].  [Blocked]: the event is clear and
    [wait] does not return. *)
Definition _run_iteration : ST world flow :=
  let* s := self in
  if negb (_running_event s) then ret Blocked
  else if _exit s then ret Break
  else
    let* limit :=
      if _clockwise s then
        set_current_duty (_current_duty s + _step s) >>
        let* s := self in
        if _current_duty s >? _max_duty s then
          set_current_duty (_max_duty s) >> stop >> ret true
        else ret false
      else
        set_current_duty (_current_duty s - _step s) >>
        let* s := self in
        if _current_duty s <? _min_duty s then
          set_current_duty (_min_duty s) >> stop >> ret true
        else ret false in
    if limit then ret Continue
    else
      let* s := self in
      hardware_PWM (_pin s) (_freq s) (_current_duty s) >>
      ret Continue.

(** [quit]: at the [join] the thread of [_run] finds [_exit] set and leaves
    its loop. *)
Definition quit : ST world unit :=
  stop >>
  set_exit true >>
  set_running_event true >>
  initial.

(** Python's true division of two doubles. *)
Definition truediv (x y : float) : init_exn + float :=
  if (y =? 0)%float then inl ZeroDivisionError else inr (x / y)%float.

Definition raised {A : Type} (r : exn + A) : init_exn + A :=
  match r with
  | inl e => inl (Raised e)
  | inr a => inr a
  end.

Definition and_then {A B : Type} (r : init_exn + A) (k : A -> init_exn + B)
  : init_exn + B :=
  match r with
  | inl e => inl e
  | inr a => k a
  end.

(** [int(1000 * 1000 * pulse_width / frame_width)]. *)
Definition duty_of (pulse_width frame_width : float) : init_exn + Z :=
  and_then (raised (py_float (1000 * 1000))) (fun scale =>
  and_then (truediv (scale * pulse_width) frame_width) (fun duty =>
  raised (py_int duty))).

(** [ThreadedServo(pin, min_pulse_width, max_pulse_width, frame_width,
    initial_pulse_width)]: the fields, the thread of [_run] started, and
    [self.initial()]. *)
Definition init (pin : Z) (min_pulse_width max_pulse_width frame_width : float)
    (initial_pulse_width : option float) : init_exn + world :=
  if negb (bool_decide (pin ∈ _VALID_PIN_VALUES)) then inl (Raised ValueError)
  else
    and_then (duty_of min_pulse_width frame_width) (fun min_duty =>
    and_then (duty_of max_pulse_width frame_width) (fun max_duty =>
    and_then
      match initial_pulse_width with
      | None =>
          let pulse_width :=
            ((max_pulse_width - min_pulse_width) / 2 + min_pulse_width)%float in
          duty_of pulse_width frame_width
      | Some pulse_width => duty_of pulse_width frame_width
      end (fun initial_duty =>
    and_then (raised (py_float 1000)) (fun thousand =>
    and_then (truediv thousand frame_width) (fun freq =>
    and_then (raised (py_int freq)) (fun freq =>
    let s := {| _pin := pin; _min_duty := min_duty; _max_duty := max_duty;
                _initial_duty := initial_duty; _freq := freq;
                _current_duty := initial_duty; _clockwise := true;
                _step := 1000; _interval := 0.05; _exit := false;
                _running_event := false |} in
    inr (initial (s, [])).1)))))).

(** A step of one of the two threads: an iteration of the loop of [_run],
    or a call of a method. *)
Inductive action : Set :=
| Iterate
| Move (step : Z) (interval : float) (clockwise : bool)
| Initial
| Stop.

Definition do_action (a : action) : ST world unit :=
  match a with
  | Iterate => _run_iteration >> ret tt
  | Move step interval clockwise => move step interval clockwise
  | Initial => initial
  | Stop => stop
  end.

Definition do_actions (acts : list action) (w : world) : world :=
  fold_left (fun w a => (do_action a w).1) acts w.

(** [n] iterations of the loop of [_run] with no call in between. *)
Definition iterations (n : nat) (w : world) : world :=
  Nat.iter n (fun w => (_run_iteration w).1) w.

(** No [move] is given a negative step. *)
Definition steps_nonnegative (acts : list action) : Prop :=
  Forall (fun a => match a with Move step _ _ => 0 <= step | _ => True end) acts.

(** A request on the pin of [s], at its frequency, of a dutycycle between
    the two limits. *)
Definition within_limits (s : ThreadedServo) (request : Z * Z * Z) : Prop :=
  request.1.1 = _pin s /\ request.1.2 = _freq s /\
  _min_duty s <= request.2 <= _max_duty s.

(** What no step changes, and what every step keeps true, of a servo that
    started as [s]. *)
Definition servo_invariant (s : ThreadedServo) (w : world) : Prop :=
  _pin w.1 = _pin s /\ _min_duty w.1 = _min_duty s /\
  _max_duty w.1 = _max_duty s /\ _initial_duty w.1 = _initial_duty s /\
  _freq w.1 = _freq s /\ 0 <= _step w.1 /\
  _min_duty s <= _current_duty w.1 <= _max_duty s /\
  Forall (within_limits s) w.2.

End ThreadedServo.

(** ** radiocontrol.py: [main] from the connection on *)
Module main.

Import radiocontrol.

(** The body of [try] after [controller.connect()], over what the queue
    delivers: the loop that waits for [Connected], then [controller.run()]
    and the main loop.  The fault input is not read while waiting. *)
Fixpoint main_try (deliveries : list (ControllerData * bool)) : ST calls flow :=
  match deliveries with
  | [] => ret Blocked
  | (state, _) :: rest =>
      match event state with
      | Connected => main_loop rest
      | Quit => raise ConnectError
      | _ => main_try rest
      end
  end.

(** [m] only appends calls, all of them with the property [P]. *)
Definition only_calls (P : command -> Prop) {A : Type} (m : ST calls A) : Prop :=
  forall tr, exists added, (m tr).1 = tr ++ added /\ Forall P added.

(** A call that is no [move] of a motor, or one at a dutycycle of [0, 1]. *)
Definition unit_dutycycle (c : command) : Prop :=
  match c with
  | motor_move _ dutycycle _ =>
      (0 <=? dutycycle)%float = true /\ (dutycycle <=? 1)%float = true
  | _ => True
  end.

(** Every axis holds a level of the quantizer. *)
Definition quantized (input : ControllerInput) : Prop :=
  Forall (fun a => 0 <= value a <= 4) (axes input).

End main.

(** ** More sample inputs *)
Module more_samples.

Import radiocontrol controller samples.

(** The pan servo of [main]: an SG90 on GPIO 13. *)
Definition pan : ThreadedServo.init_exn + ThreadedServo.world :=
  ThreadedServo.init 13 0.5 2.4 20 (Some 1.5%float).

(** A pad with buttons and axes but no hat. *)
Definition hatless : ControllerInput :=
  {| buttons := repeat false 15;
     hats := [];
     axes := repeat idle_axis 6 |}.

(** Left stick pushed forward to level Middle, Back and Start pressed. *)
Definition straight_and_shutdown : ControllerInput :=
  {| buttons := repeat false 10 ++ [true; true; false; false; false];
     hats := [(0, 0)];
     axes := [ idle_axis; {| positive := false; value := 2 |};
               idle_axis; idle_axis; idle_axis; idle_axis ] |}.

(** Left stick pushed to the left at level High. *)
Definition pivot_example : ControllerInput :=
  {| buttons := repeat false 15;
     hats := [(0, 0)];
     axes := [ {| positive := false; value := 3 |}; idle_axis;
               idle_axis; idle_axis; idle_axis; idle_axis ] |}.

(** A new controller that waits without a timeout. *)
Definition patient_controller : Controller :=
  init "Xbox Wireless Controller"%string 0.

End more_samples.

(** * Properties *)

(** ** Binary64: order *)
Section FloatOrder.

Lemma SFcompare_key x y :
  SFcompare x y =
    match SFkey x, SFkey y with
    | Some a, Some b => Some (cmp3 a b)
    | _, _ => None
    end.
Proof.
  destruct x as [s1|s1| |s1 m1 e1], y as [s2|s2| |s2 m2 e2]; simpl;
    try reflexivity; try (destruct s1; reflexivity);
    try (destruct s2; reflexivity); try (destruct s1, s2; reflexivity).
  destruct s1, s2; simpl; try reflexivity.
  all: rewrite ?Z.compare_opp, ?(Z.compare_antisym e1 e2);
    destruct (e1 ?= e2); simpl; reflexivity.
Qed.

Lemma cmp3_Lt a b : cmp3 a b = Lt <-> lt3 a b.
Proof.
  destruct a as [[a1 a2] a3], b as [[b1 b2] b3]; unfold lt3, cmp3; simpl.
  destruct (Z.compare_spec a1 b1), (Z.compare_spec a2 b2), (Z.compare_spec a3 b3);
    split; (congruence || lia).
Qed.

Lemma cmp3_Eq a b : cmp3 a b = Eq <-> a = b.
Proof.
  destruct a as [[a1 a2] a3], b as [[b1 b2] b3]; unfold cmp3; simpl.
  destruct (Z.compare_spec a1 b1), (Z.compare_spec a2 b2), (Z.compare_spec a3 b3);
    split; intros Hx; try discriminate; try congruence; inversion Hx; lia.
Qed.

Lemma cmp3_Gt a b : cmp3 a b = Gt <-> lt3 b a.
Proof.
  destruct a as [[a1 a2] a3], b as [[b1 b2] b3]; unfold lt3, cmp3; simpl.
  destruct (Z.compare_spec a1 b1), (Z.compare_spec a2 b2), (Z.compare_spec a3 b3);
    split; (congruence || lia).
Qed.

Lemma ltb_key x y :
  (x <? y)%float = true <->
  exists a b, key x = Some a /\ key y = Some b /\ lt3 a b.
Proof.
  rewrite ltb_spec. unfold SFltb, key. rewrite SFcompare_key.
  destruct (SFkey (Prim2SF x)) as [a|], (SFkey (Prim2SF y)) as [b|];
    try (split; [discriminate | intros (? & ? & ? & ? & _); discriminate]).
  split.
  - destruct (cmp3 a b) eqn:E; try discriminate.
    apply cmp3_Lt in E. eauto.
  - intros (a' & b' & [= <-] & [= <-] & Hl). apply cmp3_Lt in Hl.
    rewrite Hl. reflexivity.
Qed.

Lemma leb_key x y :
  (x <=? y)%float = true <->
  exists a b, key x = Some a /\ key y = Some b /\ le3 a b.
Proof.
  rewrite leb_spec. unfold SFleb, key, le3. rewrite SFcompare_key.
  destruct (SFkey (Prim2SF x)) as [a|], (SFkey (Prim2SF y)) as [b|];
    try (split; [discriminate | intros (? & ? & ? & ? & _); discriminate]).
  split.
  - destruct (cmp3 a b) eqn:E; try discriminate.
    + apply cmp3_Eq in E. eauto 6.
    + apply cmp3_Lt in E. eauto 6.
  - intros (a' & b' & [= <-] & [= <-] & [Hl | He]).
    + apply cmp3_Lt in Hl. rewrite Hl. reflexivity.
    + apply cmp3_Eq in He. rewrite He. reflexivity.
Qed.

(** [x <= y] and [y < z] give [x < z]. *)
Lemma leb_ltb_trans x y z :
  (x <=? y)%float = true -> (y <? z)%float = true -> (x <? z)%float = true.
Proof.
  rewrite leb_key, !ltb_key.
  intros (a & b & Ha & Hb & Hab) (b' & c & Hb' & Hc & Hbc).
  rewrite Hb in Hb'. injection Hb' as <-.
  exists a, c. split; [assumption|]. split; [assumption|].
  destruct Hab as [Hab | ->]; [|assumption].
  unfold lt3 in *. lia.
Qed.

(** [y <= x] excludes [x < y]. *)
Lemma leb_not_ltb x y : (y <=? x)%float = true -> (x <? y)%float = false.
Proof.
  rewrite leb_key. intros (a & b & Ha & Hb & Hab).
  destruct (x <? y)%float eqn:E; [|reflexivity].
  apply ltb_key in E. destruct E as (b' & a' & Hb' & Ha' & Hlt).
  rewrite Hb in Hb'. rewrite Ha in Ha'.
  injection Hb' as <-. injection Ha' as <-.
  destruct Hab as [Hab | ->]; unfold lt3 in *; lia.
Qed.

(** Two doubles that are not NaN are comparable. *)
Lemma ltb_false_leb x y :
  is_Some (key x) -> is_Some (key y) ->
  (x <? y)%float = false -> (y <=? x)%float = true.
Proof.
  intros [a Ha] [b Hb] Hlt. apply leb_key. exists b, a.
  split; [assumption|]. split; [assumption|].
  destruct (cmp3 a b) eqn:E.
  - apply cmp3_Eq in E. right. congruence.
  - apply cmp3_Lt in E.
    assert ((x <? y)%float = true) by (apply ltb_key; eauto).
    congruence.
  - apply cmp3_Gt in E. left. assumption.
Qed.

Lemma leb_is_Some_l x y : (x <=? y)%float = true -> is_Some (key x).
Proof. rewrite leb_key. intros (a & b & Ha & _). eauto. Qed.

Lemma leb_is_Some_r x y : (x <=? y)%float = true -> is_Some (key y).
Proof. rewrite leb_key. intros (a & b & _ & Hb & _). eauto. Qed.

End FloatOrder.

(** ** The axis quantizer *)
Section Quantizer.

#[local] Abbreviation stick := (_round_stick_value XboxAnalogAxisConverter).
#[local] Abbreviation trigger := (_round_trigger_value XboxAnalogAxisConverter).

Lemma abs_opp v : abs (- v) = abs v.
Proof.
  apply Prim2SF_inj. rewrite !abs_spec, opp_spec.
  destruct (Prim2SF v); reflexivity.
Qed.

Lemma stick_range v : 0 <= stick v <= 4.
Proof.
  unfold _round_stick_value. cbn.
  repeat match goal with |- context [if ?b then _ else _] => destruct b end; lia.
Qed.

Lemma stick_monotone v w :
  (abs v <=? abs w)%float = true -> stick v <= stick w.
Proof.
  intros Hle. unfold _round_stick_value. cbn.
  pose proof (leb_ltb_trans _ _ 0.2 Hle) as H1.
  pose proof (leb_ltb_trans _ _ 0.4 Hle) as H2.
  pose proof (leb_ltb_trans _ _ 0.6 Hle) as H3.
  pose proof (leb_ltb_trans _ _ 0.8 Hle) as H4.
  destruct (abs w <? 0.2)%float; [rewrite H1 by reflexivity; lia|].
  destruct (abs w <? 0.4)%float;
    [rewrite H2 by reflexivity; destruct (abs v <? 0.2)%float; lia|].
  destruct (abs w <? 0.6)%float;
    [rewrite H3 by reflexivity;
     destruct (abs v <? 0.2)%float, (abs v <? 0.4)%float; lia|].
  destruct (abs w <? 0.8)%float;
    [rewrite H4 by reflexivity;
     destruct (abs v <? 0.2)%float, (abs v <? 0.4)%float, (abs v <? 0.6)%float;
     lia|].
  destruct (abs v <? 0.2)%float, (abs v <? 0.4)%float, (abs v <? 0.6)%float,
    (abs v <? 0.8)%float; lia.
Qed.

Lemma stick_buckets v : buckets 0.2 0.4 0.6 0.8 (abs v) (stick v).
Proof.
  unfold buckets, _round_stick_value. cbn.
  repeat split.
  - intros ->. reflexivity.
  - intros H0 ->. rewrite (leb_not_ltb _ _ H0). reflexivity.
  - intros H1 ->.
    rewrite (leb_not_ltb _ _ H1).
    assert ((abs v <? 0.2)%float = false) as ->; [|reflexivity].
    destruct (abs v <? 0.2)%float eqn:E; [|reflexivity].
    pose proof (leb_ltb_trans _ _ _ H1 E) as Hc. discriminate Hc.
  - intros H2 ->.
    rewrite (leb_not_ltb _ _ H2).
    assert ((abs v <? 0.4)%float = false) as ->.
    { destruct (abs v <? 0.4)%float eqn:E; [|reflexivity].
      pose proof (leb_ltb_trans _ _ _ H2 E) as Hc. discriminate Hc. }
    assert ((abs v <? 0.2)%float = false) as ->; [|reflexivity].
    destruct (abs v <? 0.2)%float eqn:E; [|reflexivity].
    pose proof (leb_ltb_trans _ _ _ H2 E) as Hc. discriminate Hc.
  - intros H3.
    rewrite (leb_not_ltb _ _ H3).
    assert ((abs v <? 0.6)%float = false) as ->.
    { destruct (abs v <? 0.6)%float eqn:E; [|reflexivity].
      pose proof (leb_ltb_trans _ _ _ H3 E) as Hc. discriminate Hc. }
    assert ((abs v <? 0.4)%float = false) as ->.
    { destruct (abs v <? 0.4)%float eqn:E; [|reflexivity].
      pose proof (leb_ltb_trans _ _ _ H3 E) as Hc. discriminate Hc. }
    assert ((abs v <? 0.2)%float = false) as ->; [|reflexivity].
    destruct (abs v <? 0.2)%float eqn:E; [|reflexivity].
    pose proof (leb_ltb_trans _ _ _ H3 E) as Hc. discriminate Hc.
Qed.

Lemma trigger_buckets x : buckets 0.2 0.65 1.1 1.6 x (trigger x).
Proof.
  unfold buckets, _round_trigger_value. cbn.
  repeat split.
  - intros ->. reflexivity.
  - intros H0 ->. rewrite (leb_not_ltb _ _ H0). reflexivity.
  - intros H1 ->.
    rewrite (leb_not_ltb _ _ H1).
    assert ((x <? 0.2)%float = false) as ->; [|reflexivity].
    destruct (x <? 0.2)%float eqn:E; [|reflexivity].
    pose proof (leb_ltb_trans _ _ _ H1 E) as Hc. discriminate Hc.
  - intros H2 ->.
    rewrite (leb_not_ltb _ _ H2).
    assert ((x <? 0.65)%float = false) as ->.
    { destruct (x <? 0.65)%float eqn:E; [|reflexivity].
      pose proof (leb_ltb_trans _ _ _ H2 E) as Hc. discriminate Hc. }
    assert ((x <? 0.2)%float = false) as ->; [|reflexivity].
    destruct (x <? 0.2)%float eqn:E; [|reflexivity].
    pose proof (leb_ltb_trans _ _ _ H2 E) as Hc. discriminate Hc.
  - intros H3.
    rewrite (leb_not_ltb _ _ H3).
    assert ((x <? 1.1)%float = false) as ->.
    { destruct (x <? 1.1)%float eqn:E; [|reflexivity].
      pose proof (leb_ltb_trans _ _ _ H3 E) as Hc. discriminate Hc. }
    assert ((x <? 0.65)%float = false) as ->.
    { destruct (x <? 0.65)%float eqn:E; [|reflexivity].
      pose proof (leb_ltb_trans _ _ _ H3 E) as Hc. discriminate Hc. }
    assert ((x <? 0.2)%float = false) as ->; [|reflexivity].
    destruct (x <? 0.2)%float eqn:E; [|reflexivity].
    pose proof (leb_ltb_trans _ _ _ H3 E) as Hc. discriminate Hc.
Qed.

(** C2.  The stick quantizer of the Xbox profile: for every raw value the
    level is one of 0..4 and does not decrease when the magnitude grows; the
    thresholds 0.2, 0.4, 0.6, 0.8 on the magnitude cut five half-open buckets
    with the lower bound included, so that 0.19 is Zero, 0.2 is Slow, 0.79 is
    High and 0.8 is Max; the sign flag is [value >= 0] and the level does not
    depend on the sign. *)
Theorem stick_quantizer :
  (forall v, 0 <= stick v <= 4) /\
  (forall v w, (abs v <=? abs w)%float = true -> stick v <= stick w) /\
  (forall v, buckets 0.2 0.4 0.6 0.8 (abs v) (stick v)) /\
  (stick 0.19 = Speed.value Speed.Zero /\ stick 0.2 = Speed.value Speed.Slow /\
   stick 0.79 = Speed.value Speed.High /\ stick 0.8 = Speed.value Speed.Max) /\
  (forall v, _is_positive v = (0 <=? v)%float /\ stick (- v) = stick v) /\
  (forall i v, i ∉ XboxControllerTrigger.members ->
     convert XboxAnalogAxisConverter i v =
       {| positive := (0 <=? v)%float; value := stick v |}).
Proof.
  split; [exact stick_range|].
  split; [exact stick_monotone|].
  split; [exact stick_buckets|].
  split; [repeat split; reflexivity|].
  split.
  - intros v. split; [reflexivity|].
    unfold _round_stick_value. rewrite abs_opp. reflexivity.
  - intros i v Hi. unfold convert.
    rewrite bool_decide_eq_false_2 by exact Hi. reflexivity.
Qed.

(** A use of [stick_quantizer]: a stick pushed to -0.7 is one level above a
    stick at 0.5, and axis 1 at -0.7 is reported negative at level High. *)
Lemma stick_quantizer_witness :
  stick 0.5 <= stick (-0.7) /\
  convert XboxAnalogAxisConverter 1 (-0.7) = {| positive := false; value := 3 |}.
Proof.
  destruct stick_quantizer as (_ & Hmono & _ & _ & _ & Hconv).
  split.
  - apply Hmono. reflexivity.
  - rewrite Hconv; [reflexivity|].
    unfold XboxControllerTrigger.members, XboxControllerTrigger.Left,
      XboxControllerTrigger.Right.
    intros H. repeat (apply elem_of_cons in H as [H|H]; [discriminate H|]).
    apply elem_of_nil in H. exact H.
Defined.

(** C3.  An axis whose index is one of the trigger indices is converted, under
    the Xbox profile, by the trigger thresholds 0.2, 0.65, 1.1, 1.6 applied to
    [1 + v]: five half-open buckets with the lower bound included and the
    last one unbounded; -1 gives Zero and 1 gives Max; the sign flag is
    always positive. *)
Theorem trigger_quantizer (i : nat) :
  i ∈ XboxControllerTrigger.members ->
  (forall v, convert XboxAnalogAxisConverter i v =
     {| positive := true; value := trigger (1 + v) |}) /\
  (forall v, buckets 0.2 0.65 1.1 1.6 (1 + v)
     (value (convert XboxAnalogAxisConverter i v))) /\
  (forall v, 0 <= value (convert XboxAnalogAxisConverter i v) <= 4) /\
  value (convert XboxAnalogAxisConverter i (-1)) = Speed.value Speed.Zero /\
  value (convert XboxAnalogAxisConverter i 1) = Speed.value Speed.Max /\
  (forall v, positive (convert XboxAnalogAxisConverter i v) = true).
Proof.
  intros Hi.
  assert (Hc : forall v, convert XboxAnalogAxisConverter i v =
     {| positive := true; value := trigger (1 + v) |}).
  { intros v. unfold convert. rewrite bool_decide_eq_true_2 by exact Hi.
    reflexivity. }
  split; [exact Hc|].
  split; [intros v; rewrite Hc; apply trigger_buckets|].
  split.
  { intros v. rewrite Hc. cbn [value]. unfold _round_trigger_value. cbn.
    repeat match goal with |- context [if ?b then _ else _] => destruct b end;
      lia. }
  repeat split; intros; rewrite Hc; reflexivity.
Qed.

(** A use of [trigger_quantizer]: the left trigger (axis 5) at rest, half
    pressed and fully pressed. *)
Lemma trigger_quantizer_witness :
  value (convert XboxAnalogAxisConverter 5 (-1)) = 0 /\
  convert XboxAnalogAxisConverter 5 0 = {| positive := true; value := 2 |} /\
  value (convert XboxAnalogAxisConverter 5 1) = 4.
Proof.
  assert (Hi : 5%nat ∈ XboxControllerTrigger.members) by (left).
  destruct (trigger_quantizer 5 Hi) as (Hc & _ & _ & H0 & H1 & _).
  split; [exact H0|]. split; [rewrite Hc; reflexivity | exact H1].
Defined.

End Quantizer.

(** ** Binary64: rounding *)
Section FloatRounding.
Lemma digits2_pos_bounds p :
  2 ^ (Z.pos (digits2_pos p) - 1) <= Z.pos p < 2 ^ Z.pos (digits2_pos p).
Proof.
  induction p as [p IH|p IH|]; simpl digits2_pos.
  - rewrite Pos2Z.inj_succ, Z.pow_succ_r by lia.
    replace (Z.succ (Z.pos (digits2_pos p)) - 1) with (Z.succ (Z.pos (digits2_pos p) - 1)) by lia.
    rewrite Z.pow_succ_r by lia. lia.
  - rewrite Pos2Z.inj_succ, Z.pow_succ_r by lia.
    replace (Z.succ (Z.pos (digits2_pos p)) - 1) with (Z.succ (Z.pos (digits2_pos p) - 1)) by lia.
    rewrite Z.pow_succ_r by lia. lia.
  - simpl. lia.
Qed.

Lemma digits2_pos_le p k : Z.pos p < 2 ^ k -> Z.pos (digits2_pos p) <= k.
Proof.
  intros Hp. destruct (Z.le_gt_cases (Z.pos (digits2_pos p)) k) as [|Hk]; [assumption|].
  pose proof (digits2_pos_bounds p) as [Hlo _].
  assert (0 <= k). { destruct (Z.le_gt_cases 0 k); [assumption|]. rewrite Z.pow_neg_r in Hp by lia. lia. }
  assert (2 ^ k <= 2 ^ (Z.pos (digits2_pos p) - 1)) by (apply Z.pow_le_mono_r; lia).
  lia.
Qed.

Lemma shr_1_m r : 0 <= shr_m r -> shr_m (shr_1 r) = shr_m r / 2.
Proof.
  destruct r as [m b1 b2]; cbn [shr_m]. intros Hm.
  destruct m as [|[p|p|]|p]; cbn [shr_1 shr_m]; try lia; try reflexivity.
  - apply Z.div_unique with 1; lia.
  - apply Z.div_unique with 0; lia.
Qed.

Lemma pow2_xO p : 2 ^ Z.pos p~0 = 2 ^ Z.pos p * 2 ^ Z.pos p.
Proof. rewrite <- Z.pow_add_r by lia. f_equal. lia. Qed.

Lemma pow2_xI p : 2 ^ Z.pos p~1 = 2 * (2 ^ Z.pos p * 2 ^ Z.pos p).
Proof.
  rewrite <- Z.pow_add_r, <- Z.pow_succ_r by lia. f_equal. lia.
Qed.

Lemma iter_pos_shr_1_m p : forall r,
  0 <= shr_m r -> shr_m (SpecFloat.iter_pos shr_1 p r) = shr_m r / 2 ^ Z.pos p.
Proof.
  induction p as [p IH|p IH|]; intros r Hr; cbn [SpecFloat.iter_pos].
  - assert (H1 : 0 <= shr_m (shr_1 r)) by (rewrite shr_1_m by lia; apply Z.div_pos; lia).
    assert (H2 : 0 <= shr_m (SpecFloat.iter_pos shr_1 p (shr_1 r))).
    { rewrite IH by lia. apply Z.div_pos; lia. }
    rewrite IH, IH, shr_1_m by lia.
    rewrite !Z.div_div by lia. rewrite pow2_xI. reflexivity.
  - assert (H2 : 0 <= shr_m (SpecFloat.iter_pos shr_1 p r)).
    { rewrite IH by lia. apply Z.div_pos; lia. }
    rewrite IH, IH by lia.
    rewrite !Z.div_div by lia. rewrite pow2_xO. reflexivity.
  - rewrite shr_1_m by lia. reflexivity.
Qed.

Lemma fexp_eq e : fexp prec emax e = fx e.
Proof. reflexivity. Qed.

Lemma shr_fexp_exact m e :
  0 <= m ->
  let n := fx (Zdigits2 m + e) - e in
  shr_fexp prec emax m e loc_Exact =
    (if 0 <? n then SpecFloat.iter_pos shr_1 (Z.to_pos n) (Build_shr_record m false false)
     else Build_shr_record m false false,
     Z.max e (fx (Zdigits2 m + e))).
Proof.
  intros Hm n. unfold shr_fexp. rewrite fexp_eq. fold n. unfold shr.
  cbn [shr_record_of_loc].
  destruct n as [|p|p] eqn:En; cbn [Z.ltb Z.compare Z.to_pos]; f_equal; lia.
Qed.

Lemma round_nearest_even_cases m l :
  round_nearest_even m l = m \/ round_nearest_even m l = m + 1.
Proof.
  unfold round_nearest_even. destruct l as [|[| |]]; auto.
  destruct (Z.even m); auto.
Qed.

Lemma binary_round_aux_exact s (m : BinNums.positive) e :
  let E := Z.max e (fx (Z.pos (digits2_pos m) + e)) in
  let m1 := Z.pos m / 2 ^ (E - e) in
  m1 < 2 ^ 53 /\
  exists m2, (m2 = m1 \/ m2 = m1 + 1) /\
    binary_round_aux prec emax s (Z.pos m) e loc_Exact = rounded s m2 E.
Proof.
  intros E m1.
  pose proof (digits2_pos_bounds m) as [_ Hd].
  set (d := Z.pos (digits2_pos m)) in *.
  assert (Hm1 : 0 <= m1 < 2 ^ 53).
  { unfold m1. split; [apply Z.div_pos; [lia | apply Z.pow_pos_nonneg; lia ]|].
    apply Z.div_lt_upper_bound; [apply Z.pow_pos_nonneg; lia; lia|].
    rewrite <- Z.pow_add_r by lia.
    eapply Z.lt_le_trans; [exact Hd|]. apply Z.pow_le_mono_r; unfold fx in *; lia. }
  split; [lia|].
  unfold binary_round_aux.
  rewrite shr_fexp_exact by lia. cbn [Zdigits2]. fold d. fold E.
  set (mrs' := if 0 <? fx (d + e) - e then _ else _).
  assert (Hmrs : shr_m mrs' = m1).
  { unfold mrs', m1. destruct (Z.ltb_spec 0 (fx (d + e) - e)) as [Hn|Hn].
    - rewrite iter_pos_shr_1_m by (cbn; lia). cbn [shr_m].
      rewrite Z2Pos.id by lia. do 2 f_equal. lia.
    - cbn [shr_m]. replace (E - e) with 0 by lia. rewrite Z.div_1_r. reflexivity. }
  rewrite Hmrs.
  set (m2 := round_nearest_even m1 _).
  assert (Hm2 : m2 = m1 \/ m2 = m1 + 1) by apply round_nearest_even_cases.
  exists m2. split; [assumption|].
  rewrite shr_fexp_exact by lia.
  assert (HE : -1074 <= E) by (unfold E, fx; lia).
  unfold rounded.
  destruct (Z.eqb_spec m2 0) as [H0|H0].
  { subst m2. rewrite H0. cbn [Zdigits2]. 
    destruct (Z.ltb_spec 0 (fx (0 + E) - E)) as [Hn|Hn]; [unfold fx in Hn; lia|].
    reflexivity. }
  destruct (Z.eqb_spec m2 (2 ^ 53)) as [H53|H53].
  { rewrite H53. change (Zdigits2 (2 ^ 53)) with 54.
    replace (fx (54 + E) - E) with 1 by (unfold fx; lia).
    cbn [Z.ltb Z.compare Z.to_pos SpecFloat.iter_pos].
    replace (Z.max E (fx (54 + E))) with (E + 1) by (unfold fx; lia).
    reflexivity. }
  assert (Hp : 0 < m2 < 2 ^ 53) by lia.
  destruct m2 as [|p2|p2] eqn:Em2; try lia.
  cbn [Zdigits2].
  pose proof (digits2_pos_le p2 53 ltac:(lia)) as Hd2.
  destruct (Z.ltb_spec 0 (fx (Z.pos (digits2_pos p2) + E) - E)) as [Hn|Hn];
    [unfold fx in Hn; lia|].
  cbn [shr_m Z.to_pos].
  replace (Z.max E (fx (Z.pos (digits2_pos p2) + E))) with E by (unfold fx; lia).
  reflexivity.
Qed.

Lemma iter_xO_spec m d :
  Z.pos (Pos.iter xO m d) = Z.pos m * 2 ^ Z.pos d /\
  Z.pos (digits2_pos (Pos.iter xO m d)) = Z.pos (digits2_pos m) + Z.pos d.
Proof.
  apply Pos.iter_ind with (P := fun d r =>
    Z.pos r = Z.pos m * 2 ^ Z.pos d /\
    Z.pos (digits2_pos r) = Z.pos (digits2_pos m) + Z.pos d).
  - cbn [digits2_pos]. rewrite Pos2Z.inj_succ. change (2 ^ 1) with 2. lia.
  - intros p r [H1 H2]. cbn [digits2_pos].
    rewrite !Pos2Z.inj_succ, Z.pow_succ_r by lia. lia.
Qed.

Lemma shl_align_spec m e e' :
  let r := shl_align m e e' in
  r.2 = Z.min e e' /\
  Z.pos (digits2_pos r.1) + r.2 = Z.pos (digits2_pos m) + e.
Proof.
  unfold shl_align. destruct (e' - e) as [|p|p] eqn:Ed; cbn [fst snd]; try lia.
  destruct (iter_xO_spec m p) as [_ H2]. lia.
Qed.

Lemma binary_round_exact s m e :
  exists m2, 0 <= m2 <= 2 ^ 53 /\
    binary_round prec emax s m e = rounded s m2 (fx (Z.pos (digits2_pos m) + e)).
Proof.
  unfold binary_round. rewrite fexp_eq.
  pose proof (shl_align_spec m e (fx (Z.pos (digits2_pos m) + e))) as [H1 H2].
  destruct (shl_align m e (fx (Z.pos (digits2_pos m) + e))) as [mz ez].
  cbn [fst snd] in H1, H2.
  destruct (binary_round_aux_exact s mz ez) as [Hlt (m2 & Hm2 & ->)].
  rewrite H2.
  replace (Z.max ez (fx (Z.pos (digits2_pos m) + e)))
    with (fx (Z.pos (digits2_pos m) + e)) by lia.
  exists m2. split; [|reflexivity].
  rewrite H2 in Hlt, Hm2.
  assert (0 <= Z.pos mz / 2 ^ (Z.max ez (fx (Z.pos (digits2_pos m) + e)) - ez)).
  { apply Z.div_pos; [lia | apply Z.pow_pos_nonneg; lia]. }
  lia.
Qed.
End FloatRounding.

(** ** Binary64: sums and differences of doubles in [0, 1] *)
Section FloatArith.

(** The shapes of a double that is [>= 0]. *)
Lemma nonneg_shape x :
  (0 <=? x)%float = true ->
  match Prim2SF x with
  | S754_zero _ => True
  | S754_infinity s | S754_finite s _ _ => s = false
  | S754_nan => False
  end.
Proof.
  rewrite leb_key. unfold key. intros (a & b & Ha & Hb & Hab).
  change (Prim2SF 0) with (S754_zero false) in Ha. injection Ha as <-.
  destruct (Prim2SF x) as [s|s| |s m e]; try discriminate; try exact I;
    destruct s; try reflexivity; injection Hb as <-;
    destruct Hab as [Hab | Hab]; unfold lt3 in *; simpl in *;
    (lia || discriminate).
Qed.

Lemma SFleb_zero_nonneg z :
  match z with
  | S754_zero _ => True
  | S754_infinity s | S754_finite s _ _ => s = false
  | S754_nan => False
  end ->
  SFleb (S754_zero false) z = true.
Proof.
  destruct z as [s|s| |s m e]; intros H; try contradiction; subst; reflexivity.
Qed.

Lemma rounded_sign s m2 E :
  0 <= m2 ->
  match rounded s m2 E with
  | S754_zero s' | S754_infinity s' | S754_finite s' _ _ => s' = s
  | S754_nan => False
  end.
Proof.
  intros Hm. unfold rounded.
  destruct (m2 =? 0); [reflexivity|].
  destruct (m2 =? 2 ^ 53); [destruct (E + 1 <=? 971); reflexivity|].
  destruct (E <=? 971); reflexivity.
Qed.

(** The sum of two doubles that are [>= 0] is [>= 0], and so no NaN. *)
Lemma add_nonneg x y :
  (0 <=? x)%float = true -> (0 <=? y)%float = true ->
  (0 <=? x + y)%float = true.
Proof.
  intros Hx Hy. apply nonneg_shape in Hx, Hy.
  rewrite leb_spec, add_spec.
  change (Prim2SF 0) with (S754_zero false).
  apply SFleb_zero_nonneg.
  destruct (Prim2SF x) as [sx|sx| |sx mx ex], (Prim2SF y) as [sy|sy| |sy my ey];
    try contradiction; subst; unfold SF64add, SFadd;
    try exact I; try reflexivity;
    try (destruct sx; exact I); try (destruct sx, sy; exact I).
  cbn [cond_Zopp]. rewrite <- Pos2Z.inj_add. cbn [binary_normalize].
  match goal with |- context [binary_round _ _ ?s ?m ?e] =>
    destruct (binary_round_exact s m e) as (m2 & Hm2 & ->);
    pose proof (rounded_sign s m2 (fx (Z.pos (digits2_pos m) + e)) ltac:(lia)) as Hs
  end.
  destruct (rounded _ _ _); first [assumption | exact I].
Qed.

Lemma shl_align_value m e e' :
  e' <= e -> Z.pos (shl_align m e e').1 = Z.pos m * 2 ^ (e - e').
Proof.
  intros Hle. unfold shl_align.
  destruct (e' - e) as [|p|p] eqn:Ed; cbn [fst]; try lia.
  - replace (e - e') with 0 by lia. lia.
  - destruct (iter_xO_spec m p) as [H1 _]. rewrite H1. do 2 f_equal. lia.
Qed.

Lemma rounded_le_one m2 E :
  0 <= m2 <= 2 ^ 53 -> E <= -53 ->
  SFleb (rounded false m2 E) (Prim2SF 1) = true.
Proof.
  intros Hm HE. change (Prim2SF 1) with (S754_finite false (2 ^ 52) (-52)).
  unfold rounded, SFleb. rewrite SFcompare_key.
  destruct (Z.eqb_spec m2 0); [reflexivity|].
  destruct (Z.eqb_spec m2 (2 ^ 53)).
  - destruct (Z.leb_spec (E + 1) 971); [|lia]. cbn [SFkey].
    destruct (cmp3 _ _) eqn:Ec; try reflexivity.
    apply cmp3_Gt in Ec. unfold lt3 in Ec. cbn in Ec. lia.
  - destruct (Z.leb_spec E 971); [|lia]. cbn [SFkey].
    destruct (cmp3 _ _) eqn:Ec; try reflexivity.
    apply cmp3_Gt in Ec. unfold lt3 in Ec. cbn [fst snd] in Ec. lia.
Qed.

Lemma neg_le_one z :
  match z with
  | S754_zero _ => True
  | S754_infinity s | S754_finite s _ _ => s = true
  | S754_nan => False
  end ->
  SFleb z (Prim2SF 1) = true.
Proof.
  change (Prim2SF 1) with (S754_finite false (2 ^ 52) (-52)).
  destruct z as [s|s| |s m e]; intros H; try contradiction; subst; reflexivity.
Qed.

Lemma le_one_finite mx ex :
  valid_binary (S754_finite false mx ex) = true ->
  SFleb (S754_finite false mx ex) (Prim2SF 1) = true ->
  ex <= -52 /\ Z.pos mx <= 2 ^ (- ex).
Proof.
  change (Prim2SF 1) with (S754_finite false (2 ^ 52) (-52)).
  unfold SFleb. rewrite SFcompare_key. cbn [SFkey valid_binary].
  intros Hv Hle.
  apply andb_prop in Hv as [Hc _]. unfold canonical_mantissa in Hc.
  apply Z.eqb_eq in Hc. change (fexp prec emax) with fx in Hc.
  pose proof (digits2_pos_bounds mx) as [_ Hd].
  assert (Hlex : ex < -52 \/ (ex = -52 /\ Z.pos mx <= 2 ^ 52)).
  { destruct (cmp3 _ _) eqn:Ec; try discriminate.
    - apply cmp3_Eq in Ec. injection Ec as -> ->. right. split; lia.
    - apply cmp3_Lt in Ec. unfold lt3 in Ec. cbn [fst snd] in Ec. lia. }
  destruct Hlex as [Hlt | [-> Hm]]; [|split; [lia | exact Hm]].
  split; [lia|].
  assert (Z.pos (digits2_pos mx) <= 53) by (unfold fx in Hc; lia).
  assert (2 ^ Z.pos (digits2_pos mx) <= 2 ^ (- ex)) by (apply Z.pow_le_mono_r; lia).
  lia.
Qed.

(** A double of [0, 1] less a double that is [>= 0] is at most [1], and no
    NaN. *)
Lemma sub_le_one x y :
  (0 <=? x)%float = true -> (x <=? 1)%float = true -> (0 <=? y)%float = true ->
  (x - y <=? 1)%float = true.
Proof.
  intros Hx0 Hx1 Hy. pose proof (Prim2SF_valid x) as Hv.
  apply nonneg_shape in Hx0, Hy.
  rewrite leb_spec in Hx1. rewrite leb_spec, sub_spec.
  destruct (Prim2SF x) as [sx|sx| |sx mx ex]; try contradiction.
  - destruct (Prim2SF y) as [sy|sy| |sy my ey]; try contradiction; subst;
      unfold SF64sub, SFsub; apply neg_le_one; cbn;
      try reflexivity; try (destruct sx; exact I); try (destruct sx, sy; exact I).
  - subst sx. discriminate Hx1.
  - subst sx.
    destruct (Prim2SF y) as [sy|sy| |sy my ey]; try contradiction; subst;
      unfold SF64sub, SFsub; try assumption; try reflexivity.
    destruct (le_one_finite mx ex Hv Hx1) as [Hex Hmx].
    cbn [cond_Zopp].
    set (ez := Z.min ex ey).
    pose proof (shl_align_value mx ex ez ltac:(lia)) as HA.
    set (A := Z.pos (shl_align mx ex ez).1) in *.
    set (B := Z.pos (shl_align my ey ez).1).
    assert (HAle : A <= 2 ^ (- ez)).
    { rewrite HA. replace (- ez) with (- ex + (ex - ez)) by lia.
      rewrite Z.pow_add_r by lia.
      apply Z.mul_le_mono_nonneg_r; [apply Z.pow_nonneg; lia | exact Hmx]. }
    destruct (A - B) as [|p|p] eqn:Ed; cbn [binary_normalize].
    + reflexivity.
    + destruct (binary_round_exact false p ez) as (m2 & Hm2 & ->).
      apply rounded_le_one; [exact Hm2|].
      assert (Z.pos (digits2_pos p) <= - ez).
      { apply digits2_pos_le. subst B. lia. }
      unfold fx. lia.
    + destruct (binary_round_exact true p ez) as (m2 & Hm2 & ->).
      apply neg_le_one.
      pose proof (rounded_sign true m2 (fx (Z.pos (digits2_pos p) + ez)) ltac:(lia)) as Hs.
      destruct (rounded _ _ _); first [assumption | exact I].
Qed.

(** The dutycycle computed from a fraction. *)
Lemma py_int_rounded m2 E :
  0 <= m2 -> E <= -43 -> m2 <= 1000 * 2 ^ (- E) + 1 ->
  forall x, Prim2SF x = rounded false m2 E ->
  exists k, py_int x = inr k /\ 0 <= k <= 1000.
Proof.
  intros Hm HE Hle x Hx. unfold py_int. rewrite Hx. unfold rounded.
  assert (Hpow : 2 ^ 43 <= 2 ^ (- E)) by (apply Z.pow_le_mono_r; lia).
  assert (Hpos : 0 < 2 ^ (- E)) by lia.
  destruct (Z.eqb_spec m2 0); [exists 0; split; [reflexivity | lia]|].
  destruct (Z.eqb_spec m2 (2 ^ 53)) as [E53|N53].
  - destruct (Z.leb_spec (E + 1) 971); [|lia].
    destruct (Z.leb_spec 0 (E + 1)); [lia|].
    eexists. split; [reflexivity|]. split.
    + apply Z.div_pos; [lia | apply Z.pow_pos_nonneg; lia].
    + assert (H2 : 2 ^ (- E) = 2 * 2 ^ (- (E + 1))).
      { rewrite <- Z.pow_succ_r by lia. f_equal. lia. }
      assert (0 < 2 ^ (- (E + 1))) by (apply Z.pow_pos_nonneg; lia).
      apply Z.lt_succ_r. apply Z.div_lt_upper_bound; [assumption|].
      change (Z.pos (2 ^ 52)) with (2 ^ 52). change (2 ^ 53) with (2 * 2 ^ 52) in E53.
      lia.
  - destruct (Z.leb_spec E 971); [|lia].
    destruct (Z.leb_spec 0 E); [lia|].
    eexists. split; [reflexivity|].
    rewrite Z2Pos.id by lia. split.
    + apply Z.div_pos; lia.
    + apply Z.lt_succ_r. apply Z.div_lt_upper_bound; [assumption|]. lia.
Qed.

(** [int(d * 1000)] for a fraction [d] is a dutycycle of the range. *)
Lemma scaled_fraction d :
  (0 <=? d)%float = true -> (d <=? 1)%float = true ->
  exists k, py_int (d * 1000) = inr k /\ 0 <= k <= 1000.
Proof.
  intros H0 H1. pose proof (Prim2SF_valid d) as Hv.
  apply nonneg_shape in H0. rewrite leb_spec in H1.
  pose proof (mul_spec d 1000) as Hmul.
  change (Prim2SF 1000) with (S754_finite false 8796093022208000 (-43)) in Hmul.
  destruct (Prim2SF d) as [s|s| |s mx ex] eqn:Ed; try contradiction.
  - exists 0. unfold py_int. rewrite Hmul. split; [reflexivity | lia].
  - subst s. discriminate H1.
  - subst s. destruct (le_one_finite mx ex Hv H1) as [Hex Hmx].
    unfold SF64mul, SFmul in Hmul. cbn [xorb] in Hmul.
    destruct (binary_round_aux_exact false (mx * 8796093022208000) (ex + -43))
      as (Hlt & m2 & Hm2 & Hr).
    rewrite Hr in Hmul. clear Hr.
    set (e := ex + -43) in *.
    set (P := Z.pos (mx * 8796093022208000)) in *.
    assert (HP : P <= 1000 * 2 ^ (- e)).
    { subst P e. rewrite Pos2Z.inj_mul.
      change (Z.pos 8796093022208000) with (1000 * 2 ^ 43).
      replace (- (ex + -43)) with (- ex + 43) by lia.
      rewrite Z.pow_add_r by lia.
      assert (0 < 2 ^ 43) by reflexivity. nia. }
    assert (Hpe : 0 < 2 ^ (- e)) by (apply Z.pow_pos_nonneg; lia).
    assert (Hd : Z.pos (digits2_pos (mx * 8796093022208000)) <= 10 - e).
    { apply digits2_pos_le. fold P.
      replace (10 - e) with (10 + - e) by lia. rewrite Z.pow_add_r by lia.
      change (2 ^ 10) with 1024. lia. }
    set (E := Z.max e (fx (Z.pos (digits2_pos (mx * 8796093022208000)) + e))) in *.
    assert (HE : e <= E <= -43) by (unfold E, fx, e; lia).
    assert (Hsplit : 2 ^ (- e) = 2 ^ (- E) * 2 ^ (E - e)).
    { rewrite <- Z.pow_add_r by lia. f_equal. lia. }
    assert (0 < 2 ^ (E - e)) by (apply Z.pow_pos_nonneg; lia).
    assert (0 < 2 ^ (- E)) by (apply Z.pow_pos_nonneg; lia).
    assert (Hm1 : 0 <= P / 2 ^ (E - e) <= 1000 * 2 ^ (- E)).
    { split; [apply Z.div_pos; lia|].
      apply Z.div_le_upper_bound; [assumption|]. nia. }
    apply (py_int_rounded m2 E); [lia | lia | lia | exact Hmul].
Qed.
End FloatArith.

(** ** The LED *)
Section LEDFacts.
Import LED samples.

Ltac run_led :=
  unfold on, off, increment_brightness, decrement_brightness, scaled_duty,
    _set_led, set_current_duty, self, on_pi, set_PWM_dutycycle, bind, ret, lift;
  cbn [fst snd _led_pin PWM_RANGE BRIGHTNESS_STEP _current_duty].

Lemma do_call_fields c l p :
  let l' := (do_call c (l, p)).1.1 in
  _led_pin l' = _led_pin l /\ PWM_RANGE l' = PWM_RANGE l /\
  BRIGHTNESS_STEP l' = BRIGHTNESS_STEP l.
Proof.
  destruct c; cbn [do_call]; run_led;
    repeat match goal with
      | |- context [if ?b then _ else _] => destruct b; cbn
      | |- context [match ?r with inl _ => _ | inr _ => _ end] => destruct r; cbn
      end; auto.
Qed.

Lemma do_call_duty c l p :
  let d := _current_duty l in
  _current_duty (do_call c (l, p)).1.1 =
    match c with
    | On => if (d =? 0)%float then 1%float else d
    | Off => d
    | IncrementBrightness =>
        let d' := (d + BRIGHTNESS_STEP l)%float in
        if (1 <? d')%float then 1%float else d'
    | DecrementBrightness =>
        let d' := (d - BRIGHTNESS_STEP l)%float in
        if (d' <? 0)%float then 0%float else d'
    end.
Proof.
  destruct c; cbn [do_call]; run_led;
    repeat match goal with
      | |- context [if ?b then _ else _] => destruct b; cbn
      | |- context [match ?r with inl _ => _ | inr _ => _ end] => destruct r; cbn
      end; auto.
Qed.

Lemma do_call_ok led_pin c l p :
  LED_ok led_pin l -> LED_ok led_pin (do_call c (l, p)).1.1.
Proof.
  intros (Hpin & Hrange & Hstep & H0 & H1).
  destruct (do_call_fields c l p) as (Fpin & Frange & Fstep).
  unfold LED_ok. rewrite Fpin, Frange, Fstep, do_call_duty, Hstep.
  repeat split; try assumption; destruct c; cbn zeta.
  - destruct (_current_duty l =? 0)%float; [reflexivity | assumption].
  - assumption.
  - destruct (1 <? _current_duty l + 0.1)%float; [reflexivity|].
    apply add_nonneg; [assumption | reflexivity].
  - destruct (_current_duty l - 0.1 <? 0)%float eqn:E; [reflexivity|].
    apply ltb_false_leb in E; [assumption| |eexists; reflexivity].
    eapply leb_is_Some_l. apply sub_le_one; [assumption..|reflexivity].
  - destruct (_current_duty l =? 0)%float; [reflexivity | assumption].
  - assumption.
  - destruct (1 <? _current_duty l + 0.1)%float eqn:E; [reflexivity|].
    apply ltb_false_leb in E; [assumption|eexists; reflexivity|].
    eapply leb_is_Some_r. apply add_nonneg; [eassumption | reflexivity].
  - destruct (_current_duty l - 0.1 <? 0)%float; [reflexivity|].
    apply sub_le_one; [assumption..|reflexivity].
Qed.

Lemma do_calls_ok led_pin cs : forall w,
  LED_ok led_pin w.1 -> LED_ok led_pin (do_calls cs w).1.
Proof.
  induction cs as [|c cs IH]; intros [l p] Hok; [exact Hok|].
  cbn [do_calls fold_left]. apply IH. apply do_call_ok. exact Hok.
Qed.

Lemma init_ok led_pin : LED_ok led_pin (init led_pin).
Proof. repeat split. Qed.

Lemma do_call_accepts c w : accepts (do_call c w).1.2 = accepts w.2.
Proof.
  destruct w as [l p].
  destruct c; cbn [do_call]; run_led;
    repeat match goal with
      | |- context [if ?b then _ else _] => destruct b; cbn
      | |- context [match ?r with inl _ => _ | inr _ => _ end] => destruct r; cbn
      end; reflexivity.
Qed.

Lemma do_calls_accepts cs : forall w, accepts (do_calls cs w).2 = accepts w.2.
Proof.
  induction cs as [|c cs IH]; intros w; [reflexivity|].
  cbn [do_calls fold_left]. etransitivity; [apply IH | apply do_call_accepts].
Qed.

(** The common end of [on], [increment_brightness] and
    [decrement_brightness] returns when the daemon accepts the range. *)
Lemma write_scaled_returns led_pin l p :
  LED_ok led_pin l ->
  (forall k, 0 <= k <= 1000 -> accepts p led_pin k = true) ->
  ((let* dutycycle := scaled_duty in _set_led dutycycle) (l, p)).2 = inr tt.
Proof.
  intros (Hpin & Hrange & _ & H0 & H1) Hacc.
  destruct (scaled_fraction _ H0 H1) as (k & Hk & Hkr).
  run_led. rewrite Hrange.
  replace (py_float 1000) with (@inr exn float 1000%float) by reflexivity.
  cbn [fst snd]. rewrite Hk. cbn [fst snd].
  rewrite Hpin, (Hacc k Hkr). reflexivity.
Qed.

Lemma do_call_returns led_pin c l p :
  LED_ok led_pin l ->
  (forall k, 0 <= k <= 1000 -> accepts p led_pin k = true) ->
  (do_call c (l, p)).2 = inr tt.
Proof.
  intros Hok Hacc.
  pose proof (do_call_ok led_pin c l p Hok) as Hok'.
  pose proof (do_call_duty c l p) as Hduty. cbv zeta in Hduty.
  destruct Hok as (Hpin & Hrange & Hstep & H0 & H1).
  destruct c; cbn [do_call].
  - unfold on. unfold bind at 1, self at 1. cbn [fst snd].
    destruct (_current_duty l =? 0)%float.
    + unfold bind at 1, set_current_duty. cbn [fst snd].
      apply (write_scaled_returns led_pin); [|exact Hacc].
      repeat split; assumption.
    + unfold bind at 1, ret.
      apply (write_scaled_returns led_pin); [|exact Hacc].
      repeat split; assumption.
  - run_led. rewrite Hpin, (Hacc 0) by lia. reflexivity.
  - destruct Hok' as (_ & _ & _ & H0' & H1'). rewrite Hduty, Hstep in H0', H1'.
    unfold increment_brightness.
    unfold bind at 1, self at 1. cbn [fst snd].
    unfold bind at 1, set_current_duty at 1. cbn [fst snd].
    unfold bind at 1, self at 1. cbn [fst snd _current_duty].
    rewrite Hstep.
    destruct (1 <? _current_duty l + 0.1)%float.
    + unfold bind at 1, set_current_duty. cbn [fst snd].
      apply (write_scaled_returns led_pin); [|exact Hacc].
      repeat split; assumption.
    + unfold bind at 1, ret.
      apply (write_scaled_returns led_pin); [|exact Hacc].
      repeat split; assumption.
  - destruct Hok' as (_ & _ & _ & H0' & H1'). rewrite Hduty, Hstep in H0', H1'.
    unfold decrement_brightness.
    unfold bind at 1, self at 1. cbn [fst snd].
    unfold bind at 1, set_current_duty at 1. cbn [fst snd].
    unfold bind at 1, self at 1. cbn [fst snd _current_duty].
    rewrite Hstep.
    destruct (_current_duty l - 0.1 <? 0)%float.
    + unfold bind at 1, set_current_duty. cbn [fst snd].
      apply (write_scaled_returns led_pin); [|exact Hacc].
      repeat split; assumption.
    + unfold bind at 1, ret.
      apply (write_scaled_returns led_pin); [|exact Hacc].
      repeat split; assumption.
Qed.

(** C9.  After every sequence of [on], [off], [increment_brightness] and
    [decrement_brightness] on a new LED the brightness is a fraction of
    [0, 1]; an increment adds the step 0.1 and a decrement subtracts it, cut
    at 1 and at 0; [off] leaves the brightness alone; and [on] at brightness
    0 sets it to 1 and asks the daemon for the full dutycycle 1000.  When
    the daemon accepts the dutycycles 0..1000 on the pin, no call raises. *)
Theorem led_brightness (led_pin : Z) (p : pi) (cs : list call) :
  let w := do_calls cs (init led_pin, p) in
  let d := _current_duty w.1 in
  ((0 <=? d)%float = true /\ (d <=? 1)%float = true) /\
  _current_duty (increment_brightness w).1.1
    = (if (1 <? d + 0.1)%float then 1 else d + 0.1)%float /\
  _current_duty (decrement_brightness w).1.1
    = (if (d - 0.1 <? 0)%float then 0 else d - 0.1)%float /\
  _current_duty (off w).1.1 = d /\
  _current_duty (on w).1.1 = (if (d =? 0)%float then 1%float else d) /\
  ((d =? 0)%float = true ->
     (on w).1.2 = (set_PWM_dutycycle led_pin 1000 w.2).1 /\
     _current_duty (on w).1.1 = 1%float) /\
  ((forall k, 0 <= k <= 1000 -> accepts p led_pin k = true) ->
     forall c, (do_call c w).2 = inr tt).
Proof.
  intros w d.
  pose proof (do_calls_accepts cs (init led_pin, p)) as Hacc.
  fold w in Hacc. cbn [snd] in Hacc.
  pose proof (do_calls_ok led_pin cs (init led_pin, p) (init_ok led_pin)) as Hok.
  fold w in Hok.
  pose proof (do_calls_ok led_pin cs (init led_pin, p) (init_ok led_pin))
    as (Hpin & Hrange & Hstep & H0 & H1).
  fold w in Hpin, Hrange, Hstep, H0, H1. fold d in H0, H1.
  destruct w as [l q] eqn:Ew. cbn [fst snd] in *.
  split; [split; assumption|].
  split; [rewrite (do_call_duty IncrementBrightness), Hstep; reflexivity|].
  split; [rewrite (do_call_duty DecrementBrightness), Hstep; reflexivity|].
  split; [rewrite (do_call_duty Off); reflexivity|].
  split; [rewrite (do_call_duty On); reflexivity|].
  split.
  2:{ intros Ha c. apply (do_call_returns led_pin); [exact Hok|].
      rewrite Hacc. exact Ha. }
  intros Hz. split; [|rewrite (do_call_duty On); cbn zeta; fold d; rewrite Hz; reflexivity].
  run_led. fold d. rewrite Hz.
  cbn [fst snd _led_pin PWM_RANGE BRIGHTNESS_STEP _current_duty].
  rewrite Hrange, Hpin.
  replace (py_float 1000) with (@inr exn float 1000%float) by reflexivity.
  cbn [fst snd _led_pin PWM_RANGE BRIGHTNESS_STEP _current_duty].
  replace (py_int (1 * 1000)) with (@inr exn Z 1000) by reflexivity.
  cbn [fst snd _led_pin PWM_RANGE BRIGHTNESS_STEP _current_duty].
  destruct (accepts q led_pin 1000); reflexivity.
Qed.

(** Eleven decrements take a new LED to brightness 0, where [on] lights it
    fully again. *)
Lemma led_brightness_witness :
  let w := do_calls (repeat DecrementBrightness 11) (init 16, daemon) in
  _current_duty w.1 = 0%float /\
  _current_duty (on w).1.1 = 1%float /\
  dutycycles (on w).1.2 !! 16 = Some 1000.
Proof.
  intros w.
  assert (Hz : _current_duty w.1 = 0%float) by (vm_compute; reflexivity).
  destruct (led_brightness 16 daemon (repeat DecrementBrightness 11))
    as (_ & _ & _ & _ & _ & Hon & _).
  fold w in Hon. rewrite Hz in Hon.
  destruct (Hon eq_refl) as [Hpin Hduty].
  split; [exact Hz|]. split; [exact Hduty|].
  rewrite Hpin. vm_compute. reflexivity.
Defined.

End LEDFacts.

(** ** The motor driver *)
Section MotorFacts.
Import Motor samples.

Ltac run_motor_call :=
  unfold move, stop, set_PWM_dutycycle, bind, ret, lift;
  cbn [fst snd].

Ltac pins :=
  unfold get_PWM_dutycycle; cbn [dutycycles];
  repeat first [rewrite lookup_insert_eq | rewrite lookup_insert_ne by congruence];
  reflexivity.

Lemma do_call_one_direction self c p :
  _forward_pin self <> _backward_pin self ->
  one_direction self p -> one_direction self (do_call self c p).1.
Proof.
  intros Hne Hinv. unfold one_direction in *.
  destruct c as [d forward|]; cbn [do_call]; run_motor_call.
  - destruct (py_float (_max_dutycycle self)) as [e|range]; [exact Hinv|].
    destruct (py_int (range * d)) as [e|k]; [exact Hinv|].
    destruct forward.
    + destruct (accepts p (_backward_pin self) 0); [|exact Hinv].
      cbn [accepts dutycycles fst snd].
      match goal with |- context [if ?b then _ else _] => destruct b end;
        cbn [fst snd].
      * right. pins.
      * right. pins.
    + destruct (accepts p (_forward_pin self) 0); [|exact Hinv].
      cbn [accepts dutycycles fst snd].
      match goal with |- context [if ?b then _ else _] => destruct b end;
        cbn [fst snd].
      * left. pins.
      * left. pins.
  - destruct (accepts p (_forward_pin self) 0); [|exact Hinv].
    cbn [accepts dutycycles fst snd].
    match goal with |- context [if ?b then _ else _] => destruct b end;
      cbn [fst snd].
    + right. pins.
    + left. pins.
Qed.

Lemma do_calls_one_direction self cs : forall p,
  _forward_pin self <> _backward_pin self ->
  one_direction self p -> one_direction self (do_calls self cs p).
Proof.
  induction cs as [|c cs IH]; intros p Hne Hinv; [exact Hinv|].
  cbn [do_calls fold_left]. apply IH; [exact Hne|].
  apply do_call_one_direction; assumption.
Qed.

(** What a call that returns has written. *)
Lemma move_writes self d forward p p' :
  _forward_pin self <> _backward_pin self ->
  move self d forward p = (p', inr tt) ->
  exists range k,
    py_float (_max_dutycycle self) = inr range /\
    py_int (range * d) = inr k /\
    dutycycles p' !! (if forward then _backward_pin self else _forward_pin self)
      = Some 0 /\
    dutycycles p' !! (if forward then _forward_pin self else _backward_pin self)
      = Some (Z.min k (_max_dutycycle self)).
Proof.
  intros Hne. run_motor_call.
  destruct (py_float (_max_dutycycle self)) as [e|range] eqn:Er; [discriminate|].
  destruct (py_int (range * d)) as [e|k] eqn:Ek; [discriminate|].
  assert (Hmin : (if k >? _max_dutycycle self then _max_dutycycle self else k)
                 = Z.min k (_max_dutycycle self)).
  { destruct (Z.gtb_spec k (_max_dutycycle self)); lia. }
  rewrite Hmin.
  destruct forward;
    match goal with |- context [if ?b then _ else _] => destruct b end;
    cbn [fst snd accepts dutycycles]; try discriminate;
    match goal with |- context [if ?b then _ else _] => destruct b end;
    cbn [fst snd]; try discriminate;
    intros [= <-]; exists range, k; cbn [dutycycles];
    repeat split; try exact Ek;
    repeat first [rewrite lookup_insert_eq | rewrite lookup_insert_ne by congruence];
    reflexivity.
Qed.

Lemma stop_writes self p p' :
  stop self p = (p', inr tt) ->
  dutycycles p' !! _forward_pin self = Some 0 /\
  dutycycles p' !! _backward_pin self = Some 0.
Proof.
  run_motor_call.
  match goal with |- context [if ?b then _ else _] => destruct b end;
    cbn [fst snd accepts dutycycles]; try discriminate;
    match goal with |- context [if ?b then _ else _] => destruct b end;
    cbn [fst snd]; try discriminate.
  intros [= <-]. cbn [dutycycles]. split.
  - destruct (decide (_backward_pin self = _forward_pin self)) as [->|Hne].
    + apply lookup_insert_eq.
    + rewrite lookup_insert_ne by exact Hne. apply lookup_insert_eq.
  - apply lookup_insert_eq.
Qed.

(** C10.  A motor built on two different pins never has both of them at a
    nonzero dutycycle, whatever [move] and [stop] calls follow the
    constructor: a [move] forward that returns has written 0 to the backward
    pin and the dutycycle, cut at the maximum, to the forward pin; a [move]
    backward the reverse; a [stop] 0 to both. *)
Theorem motor_one_direction (forward_pin backward_pin max_dutycycle : Z)
    (p0 : pi) (cs : list call) :
  forward_pin <> backward_pin ->
  match init forward_pin backward_pin max_dutycycle p0 with
  | (p, inr self) =>
      one_direction self (do_calls self cs p) /\
      (forall q q' d forward, move self d forward q = (q', inr tt) ->
         exists range k,
           py_float max_dutycycle = inr range /\
           py_int (range * d) = inr k /\
           dutycycles q' !! (if forward then backward_pin else forward_pin)
             = Some 0 /\
           dutycycles q' !! (if forward then forward_pin else backward_pin)
             = Some (Z.min k max_dutycycle)) /\
      (forall q q', stop self q = (q', inr tt) ->
         dutycycles q' !! forward_pin = Some 0 /\
         dutycycles q' !! backward_pin = Some 0)
  | (_, inl _) => True
  end.
Proof.
  intros Hne.
  set (self := {| _forward_pin := forward_pin; _backward_pin := backward_pin;
                  _max_dutycycle := max_dutycycle |}).
  unfold init. fold self. unfold bind at 1.
  destruct (stop self p0) as [p [e|[]]] eqn:Es; [exact I|].
  unfold ret.
  split; [|split].
  - apply do_calls_one_direction; [exact Hne|].
    apply stop_writes in Es as [Hf Hb]. left.
    unfold get_PWM_dutycycle. cbn [_forward_pin self] in Hf |- *.
    rewrite Hf. reflexivity.
  - intros q q' d forward Hm. exact (move_writes self d forward q q' Hne Hm).
  - intros q q' Hs. exact (stop_writes self q q' Hs).
Qed.

(** The left motor of [main], on GPIO 22 and 24, driven forward, then
    backward beyond the maximum. *)
Lemma motor_one_direction_witness :
  let p := do_calls {| _forward_pin := 22; _backward_pin := 24;
                       _max_dutycycle := 1000 |}
             [Move 0.75 true; Move 1.5 false] (init 22 24 1000 daemon).1 in
  one_direction {| _forward_pin := 22; _backward_pin := 24;
                   _max_dutycycle := 1000 |} p /\
  get_PWM_dutycycle p 22 = 0 /\ get_PWM_dutycycle p 24 = 1000.
Proof.
  assert (Hne : 22 <> 24) by discriminate.
  pose proof (motor_one_direction 22 24 1000 daemon
                [Move 0.75 true; Move 1.5 false] Hne) as H.
  change (init 22 24 1000 daemon)
    with ({| accepts := accepts daemon;
             dutycycles := <[24 := 0]> (<[22 := 0]> ∅) |},
          @inr exn Motor {| _forward_pin := 22; _backward_pin := 24;
                            _max_dutycycle := 1000 |}) in H.
  destruct H as (H & _ & _).
  split; [exact H|]. split; vm_compute; reflexivity.
Defined.

End MotorFacts.

(** ** The dispatch loop *)
Section Dispatch.
Import radiocontrol samples.

Lemma no_motor_ret {A} (a : A) : no_motor_call (ret a).
Proof. intros tr. exists []. split; [symmetry; apply app_nil_r | constructor]. Qed.

Lemma no_motor_lift {A} (r : exn + A) : no_motor_call (lift r).
Proof. intros tr. exists []. split; [symmetry; apply app_nil_r | constructor]. Qed.

Lemma no_motor_call_call c : is_motor_command c = false -> no_motor_call (call c).
Proof. intros Hc tr. exists [c]. split; [reflexivity | repeat constructor; exact Hc]. Qed.

Lemma no_motor_bind {A B} (m : ST calls A) (k : A -> ST calls B) :
  no_motor_call m -> (forall a, no_motor_call (k a)) -> no_motor_call (bind m k).
Proof.
  intros Hm Hk tr. unfold bind.
  destruct (Hm tr) as (a1 & E1 & F1).
  destruct (m tr) as [tr' [e|a]]; cbn [fst] in E1; subst tr'.
  - exists a1. split; [reflexivity | exact F1].
  - destruct (Hk a (tr ++ a1)) as (a2 & E2 & F2).
    exists (a1 ++ a2). split; [rewrite E2; symmetry; apply app_assoc|].
    apply Forall_app. split; assumption.
Qed.

Lemma no_motor_if {A} (b : bool) (m1 m2 : ST calls A) :
  no_motor_call m1 -> no_motor_call m2 -> no_motor_call (if b then m1 else m2).
Proof. destruct b; auto. Qed.

Lemma no_motor_run_servo s speed clockwise :
  no_motor_call (run_servo s speed clockwise).
Proof.
  destruct speed; cbn [run_servo];
    first [apply no_motor_ret | apply no_motor_call_call; reflexivity].
Qed.

Ltac no_motor :=
  repeat first
    [ apply no_motor_bind; [|intros ?]
    | apply no_motor_if
    | apply no_motor_ret
    | apply no_motor_lift
    | apply no_motor_run_servo
    | apply no_motor_call_call; reflexivity ].

Lemma no_motor_light_and_servos input : no_motor_call (light_and_servos input).
Proof. unfold light_and_servos, led_lighting, camera_servo. no_motor. Qed.

(** C6.  When the fault input reads faulted, the iteration issues the calls
    of the LED and servo part and nothing else, none of them a call to a
    motor, whatever the sticks and triggers hold; and unless that part
    raised, the loop goes on with the next event. *)
Theorem chip_down_skips_motors (input : ControllerInput) (tr : calls)
    (rest : list (ControllerData * bool)) :
  let before := light_and_servos input tr in
  (input_changed input true tr).1 = before.1 /\
  (exists added, (input_changed input true tr).1 = tr ++ added /\
     Forall (fun c => is_motor_command c = false) added) /\
  (before.2 = inr tt ->
     (input_changed input true tr).2 = inr Continue /\
     main_loop (({| event := InputChanged; controller_input := input |}, true) :: rest) tr
     = main_loop rest before.1).
Proof.
  intros before.
  assert (E : input_changed input true tr =
              (before.1, match before.2 with inl e => inl e | inr _ => inr Continue end)).
  { unfold input_changed, before, light_and_servos, bind at 1 2 3 4.
    destruct (led_lighting input tr) as [t1 [e|[]]]; [reflexivity|].
    destruct (camera_servo input t1) as [t2 [e|[]]]; reflexivity. }
  split; [rewrite E; reflexivity|].
  split; [rewrite E; apply no_motor_light_and_servos|].
  intros Hok. split; [rewrite E, Hok; reflexivity|].
  cbn [main_loop iteration event controller_input]. unfold bind at 1.
  rewrite E, Hok. reflexivity.
Qed.

(** The left stick of [blend_example] is tilted on both axes; with the
    motor driver down only the two servo calls are issued. *)
Lemma chip_down_skips_motors_witness :
  input_changed blend_example true [] =
    ([servo_stop pan_servo; servo_stop tilt_servo], inr Continue).
Proof.
  destruct (chip_down_skips_motors blend_example [] []) as (H1 & _ & H2).
  destruct (H2 eq_refl) as [H3 _].
  destruct (input_changed blend_example true []) as [tr res].
  cbn [fst snd] in H1, H3. rewrite H1, H3. reflexivity.
Defined.

Lemma input_changed_after input chip_down tr after :
  light_and_servos input tr = (after, inr tt) ->
  input_changed input chip_down tr =
    (if chip_down then ret Continue
     else
       let* spun := spin_turn input in
       if spun then ret Continue
       else
         running_motor input >>
         let* quit := and_ (lift (ButtonBack input)) (lift (ButtonStart input)) in
         if quit then ret Break else ret Continue) after.
Proof.
  unfold input_changed, light_and_servos, bind at 1 2 3 4.
  destruct (led_lighting input tr) as [t1 [e|[]]]; [discriminate|].
  destruct (camera_servo input t1) as [t2 [e|[]]]; [discriminate|].
  intros [= ->]. reflexivity.
Qed.

Ltac run_dispatch :=
  unfold spin_turn, running_motor, blended_turn, run_motor, run_motor_raw,
    call, and_, bind, lift, ret;
  cbn [fst snd].

(** C4.  With the motor driver up and exactly one trigger pressed, the
    iteration commands both motors at the dutycycle of that trigger's level:
    left trigger, left motor backward and right motor forward; right trigger,
    left motor forward and right motor backward.  The iteration ends there:
    the left stick is not looked at. *)
Theorem spin_turn_commands (input : ControllerInput) (tr after : calls)
    (l r : AxisInput) (speed : Speed) :
  light_and_servos input tr = (after, inr tt) ->
  TriggerLeft input = inr l -> TriggerRight input = inr r ->
  (value l <> 0 -> value r = 0 -> Speed.of_int (value l) = inr speed ->
     input_changed input false tr =
       (after ++ [motor_move left_motor (get_dutycycle speed) false;
                  motor_move right_motor (get_dutycycle speed) true],
        inr Continue)) /\
  (value l = 0 -> value r <> 0 -> Speed.of_int (value r) = inr speed ->
     input_changed input false tr =
       (after ++ [motor_move left_motor (get_dutycycle speed) true;
                  motor_move right_motor (get_dutycycle speed) false],
        inr Continue)).
Proof.
  intros Hpre Hl Hr.
  rewrite (input_changed_after _ _ _ _ Hpre).
  split.
  - intros Hl0 Hr0 Hs. run_dispatch. rewrite Hl, Hr, Hr0.
    apply Z.eqb_neq in Hl0. rewrite Hl0. cbn. rewrite Hs. cbn.
    rewrite <- app_assoc. reflexivity.
  - intros Hl0 Hr0 Hs. run_dispatch. rewrite Hl, Hr, Hl0.
    apply Z.eqb_neq in Hr0. rewrite Hr0. cbn. rewrite Hs. cbn.
    rewrite <- app_assoc. reflexivity.
Qed.

(** C1, amended.  In a blended turn (both axes of the left stick tilted, no
    spin turn, motor driver up) the motor on the side opposite to X's sign
    (the left motor for positive X) is commanded at the dutycycle of Y's
    level, and the motor on the side of X's sign at
    [max(0, that - 0.15 * X.level)], both forward exactly when Y is
    negative; for Y at 3 and X at 1 the two dutycycles are 0.75 and 0.60. *)
Theorem blended_turn_commands (input : ControllerInput) (tr after : calls)
    (l r x y : AxisInput) (speed : Speed) (level : float) :
  light_and_servos input tr = (after, inr tt) ->
  TriggerLeft input = inr l -> TriggerRight input = inr r ->
  (value l =? 0) = (value r =? 0) ->
  StickLeftX input = inr x -> StickLeftY input = inr y ->
  value x <> 0 -> value y <> 0 ->
  Speed.of_int (value y) = inr speed -> py_float (value x) = inr level ->
  let outer := get_dutycycle speed in
  let inner :=
    let d := (outer - 0.15 * level)%float in if (d <? 0)%float then 0%float else d in
  let forward := negb (positive y) in
  (input_changed input false tr).1 =
    after ++
      (if positive x then
         [motor_move left_motor outer forward; motor_move right_motor inner forward]
       else
         [motor_move right_motor outer forward; motor_move left_motor inner forward]) /\
  (1 <= value x <= 4 -> inner = py_max 0 (outer - 0.15 * level)) /\
  (value y = 3 -> value x = 1 -> outer = 0.75%float /\ inner = 0.6%float).
Proof.
  intros Hpre Hl Hr Hlr Hx Hy Hx0 Hy0 Hs Hlev outer inner forward.
  split; [|split].
  - rewrite (input_changed_after _ _ _ _ Hpre).
    apply Z.eqb_neq in Hx0. apply Z.eqb_neq in Hy0.
    run_dispatch. rewrite Hl, Hr, Hx, Hy. cbn [fst snd].
    rewrite <- Hlr.
    destruct (value l =? 0); cbn; rewrite Hx0, Hy0; cbn; rewrite Hs, Hlev; cbn;
      fold outer; fold inner; fold forward;
      destruct (positive x); cbn;
      repeat match goal with
        | |- context [match ?b with inl _ => _ | inr _ => _ end] => destruct b; cbn
        | |- context [if ?b then _ else _] => destruct b; cbn
        end; rewrite <- app_assoc; reflexivity.
  - intros Hrange. subst inner outer.
    assert (Hv : value x = 1 \/ value x = 2 \/ value x = 3 \/ value x = 4) by lia.
    destruct Hv as [E|[E|[E|E]]]; rewrite E in Hlev; injection Hlev as <-;
      destruct speed; reflexivity.
  - intros Ey Ex. rewrite Ey in Hs. rewrite Ex in Hlev.
    injection Hs as <-. injection Hlev as <-. split; reflexivity.
Qed.

(** Y at High and pushed forward, X at Slow and positive: the left motor
    runs at 0.75 and the right motor at 0.60. *)
Lemma blended_turn_commands_witness :
  (input_changed blend_example false []).1 =
    [servo_stop pan_servo; servo_stop tilt_servo;
     motor_move left_motor 0.75 true; motor_move right_motor 0.6 true].
Proof.
  refine (proj1 (blended_turn_commands blend_example []
                   [servo_stop pan_servo; servo_stop tilt_servo]
                   idle_axis idle_axis
                   {| positive := true; value := 1 |}
                   {| positive := false; value := 3 |}
                   Speed.High 1%float _ _ _ _ _ _ _ _ _ _));
    first [reflexivity | discriminate].
Defined.

(** C1 as stated fails on that input: the right motor is not commanded at
    0.75 nor the left motor at 0.60. *)
Lemma blended_turn_counterexample :
  let tr := (input_changed blend_example false []).1 in
  tr = [servo_stop pan_servo; servo_stop tilt_servo;
        motor_move left_motor 0.75 true; motor_move right_motor 0.6 true] /\
  ~ commanded right_motor 0.75 tr /\ ~ commanded left_motor 0.6 tr.
Proof.
  cbv zeta.
  assert (E : (input_changed blend_example false []).1 =
    [servo_stop pan_servo; servo_stop tilt_servo;
     motor_move left_motor 0.75 true; motor_move right_motor 0.6 true])
    by reflexivity.
  rewrite E. split; [reflexivity|].
  assert (Hne : 0.75%float <> 0.6%float).
  { intros H. apply (f_equal (fun z => (z =? 0.75)%float)) in H.
    vm_compute in H. discriminate H. }
  split; intros [f Hin]; cbn [In] in Hin;
    repeat destruct Hin as [Hin|Hin]; try discriminate Hin; try contradiction;
    injection Hin as H1 H2; congruence.
Qed.

(** Left trigger at level Middle, right trigger released: left motor
    backward and right motor forward at dutycycle 0.5. *)
Lemma spin_turn_commands_witness :
  input_changed spin_and_shutdown false [] =
    ([servo_stop pan_servo; servo_stop tilt_servo;
      motor_move left_motor 0.5 false; motor_move right_motor 0.5 true],
     inr Continue).
Proof.
  refine (proj1 (spin_turn_commands spin_and_shutdown []
                   [servo_stop pan_servo; servo_stop tilt_servo]
                   {| positive := true; value := 2 |} idle_axis Speed.Middle
                   _ _ _) _ _ _);
    first [reflexivity | discriminate].
Defined.

(** C5 at its failing input.  With Back and Start both pressed, the motor
    driver up and only the left trigger pressed, the iteration ends at the
    [continue] of the spin turn: the loop does not end but goes on with the
    deliveries that follow. *)
Theorem spin_turn_skips_shutdown (rest : list (ControllerData * bool)) :
  ButtonBack spin_and_shutdown = inr true /\
  ButtonStart spin_and_shutdown = inr true /\
  input_changed spin_and_shutdown false [] =
    ([servo_stop pan_servo; servo_stop tilt_servo;
      motor_move left_motor 0.5 false; motor_move right_motor 0.5 true],
     inr Continue) /\
  main_loop (({| event := InputChanged; controller_input := spin_and_shutdown |},
              false) :: rest) [] =
    main_loop rest [servo_stop pan_servo; servo_stop tilt_servo;
                    motor_move left_motor 0.5 false; motor_move right_motor 0.5 true].
Proof. repeat split. Qed.

(** X17.  Outside a spin turn and with the motor driver up, the two buttons
    end the loop. *)
Lemma shutdown_buttons_break (input : ControllerInput) (tr after after' : calls)
    (l r : AxisInput) (rest : list (ControllerData * bool)) :
  light_and_servos input tr = (after, inr tt) ->
  TriggerLeft input = inr l -> TriggerRight input = inr r ->
  (value l =? 0) = (value r =? 0) ->
  running_motor input after = (after', inr tt) ->
  ButtonBack input = inr true -> ButtonStart input = inr true ->
  input_changed input false tr = (after', inr Break) /\
  main_loop (({| event := InputChanged; controller_input := input |}, false) :: rest) tr
    = (after', inr Break).
Proof.
  intros Hpre Hl Hr Hlr Hrun Hb Hs.
  assert (E : input_changed input false tr = (after', inr Break)).
  { rewrite (input_changed_after _ _ _ _ Hpre).
    unfold spin_turn, and_, bind, lift, ret. cbv beta.
    rewrite Hl, Hr. cbv beta iota. rewrite <- Hlr.
    destruct (value l =? 0); cbn [negb]; cbv beta iota;
      rewrite Hrun, Hb, Hs; reflexivity. }
  split; [exact E|].
  cbn [main_loop iteration event controller_input]. unfold bind at 1.
  rewrite E. reflexivity.
Qed.
End Dispatch.

(** ** The capture thread *)
Section Capture.
Import radiocontrol controller samples.

Lemma try_connect_no_match present : forall c,
  Forall (fun joy => String.eqb (get_name joy) (_controller_type c) = false) present ->
  _try_connect_controller present c = (c, inr false).
Proof.
  induction present as [|joy rest IH]; intros c Hall; [reflexivity|].
  inversion Hall as [|? ? Hjoy Hrest]; subst.
  cbn [_try_connect_controller]. unfold bind at 1, controller.self. cbn [fst snd].
  rewrite Hjoy. apply IH. exact Hrest.
Qed.

Lemma search_no_match deadline events : forall c,
  Forall (no_match (_controller_type c)) events ->
  _search_controller deadline events c = (c, inr false).
Proof.
  induction events as [|ev rest IH]; intros c Hall; [reflexivity|].
  inversion Hall as [|? ? Hev Hrest]; subst.
  cbn [_search_controller].
  destruct (match deadline with Some t => (arrival ev <? t)%float | None => true end);
    [|reflexivity].
  unfold bind at 1. rewrite (try_connect_no_match _ _ Hev). apply IH. exact Hrest.
Qed.

(** The state and result of a reconnection that times out in the capture
    thread of a running controller. *)
Lemma reconnect_raises ty ctl T q cd conv ev events :
  (0 <? T)%float = true ->
  Forall (no_match ty) events ->
  _reconnect_controller CapturingThread events
    {| _controller_type := ty; _controller := ctl; _connection_timeout := T;
       _controller_connected := false; data := q; _controller_data := cd;
       _axis_converter := conv; _running := true; _running_event := ev |}
  = ({| _controller_type := ty; _controller := ctl; _connection_timeout := T;
        _controller_connected := false; data := []; _controller_data := cd;
        _axis_converter := conv; _running := true; _running_event := true |},
     inl RuntimeError).
Proof.
  intros HT Hno.
  set (c := {| _controller_type := ty; _controller := ctl;
               _connection_timeout := T; _controller_connected := false;
               data := q; _controller_data := cd; _axis_converter := conv;
               _running := true; _running_event := ev |}).
  assert (Hno' : Forall (no_match (_controller_type c)) events) by exact Hno.
  unfold _reconnect_controller. unfold bind at 1, controller.self at 1.
  cbn [fst snd _connection_timeout c]. rewrite HT. unfold bind at 1.
  rewrite (search_no_match _ _ c Hno'). reflexivity.
Qed.

(** C7 at its failing input.  When the capture thread, running, reconnects
    and the search times out with no matching joystick, [quit] raises
    [RuntimeError] at the [join] of the thread on itself: the queue is left
    empty, no [Quit] is put. *)
Theorem reconnect_timeout_in_capture_thread (c : Controller) (events : list attached) :
  (0 <? _connection_timeout c)%float = true ->
  _controller_connected c = false ->
  _running c = true ->
  Forall (no_match (_controller_type c)) events ->
  let r := _reconnect_controller CapturingThread events c in
  r.2 = inl RuntimeError /\ data r.1 = [] /\ _controller_connected r.1 = false.
Proof.
  intros HT Hconn Hrun Hno r.
  destruct c as [ty ctl T conn q cd conv running ev].
  cbn [_controller_connected _running _connection_timeout _controller_type]
    in HT, Hconn, Hrun, Hno.
  subst conn running r.
  rewrite (reconnect_raises ty ctl T q cd conv ev events HT Hno).
  repeat split.
Qed.


(** A keyboard attached after 5 seconds does not help the lost controller. *)
Lemma reconnect_timeout_in_capture_thread_witness :
  let r := _reconnect_controller CapturingThread
             [{| arrival := 5; joysticks := [keyboard] |}] lost_controller in
  r.2 = inl RuntimeError /\ data r.1 = [] /\ _controller_connected r.1 = false.
Proof.
  apply reconnect_timeout_in_capture_thread; try reflexivity.
  repeat constructor.
Defined.

Lemma list_eqb_eq {A} (eqb : A -> A -> bool) :
  (forall x y, eqb x y = true <-> x = y) ->
  forall l1 l2, list_eqb eqb l1 l2 = true <-> l1 = l2.
Proof.
  intros Heq. induction l1 as [|x l1 IH]; intros [|y l2]; cbn [list_eqb];
    try (split; [discriminate | discriminate]); [split; reflexivity|].
  rewrite andb_true_iff, Heq, IH. split.
  - intros [-> ->]. reflexivity.
  - intros [= -> ->]. split; reflexivity.
Qed.

Lemma AxisInput_eqb_eq a b : AxisInput_eqb a b = true <-> a = b.
Proof.
  destruct a as [pa va], b as [pb vb]. unfold AxisInput_eqb. cbn [positive value].
  rewrite andb_true_iff, Bool.eqb_true_iff, Z.eqb_eq. split.
  - intros [-> ->]. reflexivity.
  - intros [= -> ->]. split; reflexivity.
Qed.

Lemma hat_eqb_eq a b : hat_eqb a b = true <-> a = b.
Proof.
  destruct a as [a1 a2], b as [b1 b2]. unfold hat_eqb. cbn [fst snd].
  rewrite andb_true_iff, !Z.eqb_eq. split.
  - intros [-> ->]. reflexivity.
  - intros [= -> ->]. split; reflexivity.
Qed.

(** The generated [__eq__] is equality of the three sequences, element by
    element. *)
Lemma ControllerInput_eqb_eq a b : ControllerInput_eqb a b = true <-> a = b.
Proof.
  destruct a as [ba ha aa], b as [bb hb ab]. unfold ControllerInput_eqb.
  cbn [buttons hats axes].
  rewrite !andb_true_iff, (list_eqb_eq _ Bool.eqb_true_iff),
    (list_eqb_eq _ hat_eqb_eq), (list_eqb_eq _ AxisInput_eqb_eq). split.
  - intros [[-> ->] ->]. reflexivity.
  - intros [= -> -> ->]. repeat split.
Qed.

Lemma bind_inr {S A B} (m : ST S A) (k : A -> ST S B) s s' a :
  m s = (s', inr a) -> bind m k s = k a s'.
Proof. intros H. unfold bind. rewrite H. reflexivity. Qed.

(** What a polling iteration does, by the comparison of the two snapshots. *)
Lemma run_iteration_poll (c : Controller) (cur : ControllerInput)
    (event : pygame_event) (now : readings) (events : list attached) :
  _running_event c = true -> _controller_connected c = true -> polls c event ->
  let last := controller_input (_controller_data c) in
  let new := poll (_axis_converter c) now in
  _run_iteration event now events (c, cur) =
    if ControllerInput_eqb last new then ((c, new), inr Continue)
    else
      (({| _controller_type := _controller_type c;
           _controller := _controller c;
           _connection_timeout := _connection_timeout c;
           _controller_connected := _controller_connected c;
           data := data c ++ [the_controller_data];
           _controller_data :=
             {| event := InputChanged; controller_input := new |};
           _axis_converter := _axis_converter c;
           _running := _running c;
           _running_event := _running_event c |}, new),
       inr Continue).
Proof.
  intros Hev Hconn Hpoll last new.
  destruct c as [ty ctl T conn q cd conv running ev].
  cbn [_running_event _controller_connected] in Hev, Hconn. subst ev conn.
  cbn [_controller_data _axis_converter] in last, new.
  cbn [_controller_type _controller _connection_timeout _controller_connected
       data _controller_data _axis_converter _running _running_event].
  set (c := {| _controller_type := ty; _controller := ctl;
               _connection_timeout := T; _controller_connected := true;
               data := q; _controller_data := cd; _axis_converter := conv;
               _running := running; _running_event := true |}) in *.
  assert (Hrem :
    match event with
    | JOYDEVICEREMOVED instance_id =>
        match _controller c with
        | Some joy => ret (instance_id =? get_instance_id joy)
        | None => raise AttributeError
        end
    | _ => ret false
    end (c, cur) = ((c, cur), inr false)).
  { destruct event; try reflexivity.
    destruct Hpoll as (joy & -> & Hne). apply Z.eqb_neq in Hne.
    unfold ret. rewrite Hne. reflexivity. }
  unfold _run_iteration. unfold bind at 1, on_self at 1, controller.self at 1.
  cbn [fst snd _running_event _controller_connected c negb].
  subst new. remember (poll conv now) as new eqn:Enew.
  destruct new as [nb nh na].
  destruct event; try contradiction;
    rewrite (bind_inr _ _ _ _ _ Hrem);
    unfold bind, on_self, current_input, set_current_input, controller.self,
      set_controller_data, data_put, set_data, ret, reset, copy;
    cbn [fst snd _controller_type _controller _connection_timeout
         _controller_connected data _controller_data _axis_converter _running
         _running_event c buttons hats axes];
    fold last; rewrite <- Enew;
    cbn [buttons hats axes];
    destruct (ControllerInput_eqb last _); reflexivity.
Qed.

(** C8.  A polling iteration of the connected capture loop puts
    [InputChanged] exactly when the snapshot it assembled differs from the
    last dispatched one, field by field and element by element; it then
    holds the new snapshot as the last dispatched one; and a second poll of
    the same readings puts nothing. *)
Theorem input_changed_iff_snapshot_differs (c : Controller) (cur : ControllerInput)
    (event event' : pygame_event) (now : readings) (events : list attached) :
  _running_event c = true -> _controller_connected c = true ->
  polls c event -> polls c event' ->
  let last := controller_input (_controller_data c) in
  let new := poll (_axis_converter c) now in
  let r := _run_iteration event now events (c, cur) in
  let r' := _run_iteration event' now events r.1 in
  r.2 = inr Continue /\
  (data r.1.1 = data c ++ [the_controller_data] <-> new <> last) /\
  (data r.1.1 = data c <-> new = last) /\
  (new = last -> r.1.1 = c) /\
  (new <> last ->
     deref r.1.1 the_controller_data =
       {| event := InputChanged; controller_input := new |}) /\
  controller_input (_controller_data r.1.1) = new /\
  (r'.2 = inr Continue /\ r'.1.1 = r.1.1).
Proof.
  intros Hev Hconn Hpoll Hpoll' last new r r'.
  pose proof (run_iteration_poll c cur event now events Hev Hconn Hpoll) as E.
  cbv zeta in E. fold last new r in E.
  assert (Hneq : forall (l : list entry) x, l ++ [x] <> l).
  { intros l x H. apply (f_equal length) in H. rewrite length_app in H.
    cbn in H. lia. }
  destruct (ControllerInput_eqb last new) eqn:Eq.
  - apply ControllerInput_eqb_eq in Eq.
    assert (E' : r' = ((c, new), inr Continue)).
    { subst r'. rewrite E. cbn [fst].
      rewrite (run_iteration_poll c new event' now events Hev Hconn Hpoll').
      cbv zeta. fold last new.
      replace (ControllerInput_eqb last new) with true
        by (symmetry; apply ControllerInput_eqb_eq; exact Eq).
      reflexivity. }
    rewrite E, E'. cbn [fst snd].
    split; [reflexivity|]. split; [|split; [|split; [|split; [|split]]]].
    + split; [intros H; symmetry in H; destruct (Hneq _ _ H) | congruence].
    + split; [congruence | reflexivity].
    + reflexivity.
    + congruence.
    + exact Eq.
    + split; reflexivity.
  - assert (Hne : new <> last).
    { intros H. symmetry in H. apply ControllerInput_eqb_eq in H. congruence. }
    set (c' := {| _controller_type := _controller_type c;
                  _controller := _controller c;
                  _connection_timeout := _connection_timeout c;
                  _controller_connected := _controller_connected c;
                  data := data c ++ [the_controller_data];
                  _controller_data :=
                    {| event := InputChanged; controller_input := new |};
                  _axis_converter := _axis_converter c;
                  _running := _running c;
                  _running_event := _running_event c |}) in *.
    assert (E' : r' = ((c', new), inr Continue)).
    { subst r'. rewrite E. cbn [fst].
      assert (Hp : polls c' event') by (destruct event'; exact Hpoll').
      rewrite (run_iteration_poll c' new event' now events Hev Hconn Hp).
      cbv zeta. cbn [c' _controller_data controller_input _axis_converter].
      fold new.
      replace (ControllerInput_eqb new new) with true
        by (symmetry; apply ControllerInput_eqb_eq; reflexivity).
      reflexivity. }
    rewrite E, E'. cbn [fst snd c' data _controller_data controller_input deref].
    split; [reflexivity|]. split; [|split; [|split; [|split; [|split]]]].
    + split; [intros _; exact Hne | reflexivity].
    + split; [intros H; destruct (Hneq _ _ H) | contradiction].
    + contradiction.
    + reflexivity.
    + reflexivity.
    + split; reflexivity.
Qed.

(** The pad at rest has been dispatched; the stick is then pushed. *)
Lemma input_changed_iff_snapshot_differs_witness :
  let c := (_run_iteration JOYAXISMOTION at_rest []
              (connected_controller, ControllerInput_new)).1.1 in
  let r := _run_iteration JOYAXISMOTION pushed [] (c, ControllerInput_new) in
  data r.1.1 = data c ++ [the_controller_data] /\
  data (_run_iteration JOYBUTTONDOWN pushed [] r.1).1.1 = data r.1.1.
Proof.
  intros c r.
  destruct (input_changed_iff_snapshot_differs c ControllerInput_new
              JOYAXISMOTION JOYBUTTONDOWN pushed [] eq_refl eq_refl I I)
    as (_ & Hput & _ & _ & _ & _ & _ & Hagain).
  fold r in Hput, Hagain. split.
  - apply Hput. vm_compute. discriminate.
  - rewrite Hagain. reflexivity.
Defined.

End Capture.

(** ** The queue *)
Section QueueFacts.
Import controller ControllerDataQueue.

Lemma put_all_app xs : forall q, put_all xs q = q ++ xs.
Proof.
  induction xs as [|x xs IH]; intros q; [symmetry; apply app_nil_r|].
  cbn [put_all fold_left]. change (fold_left _ xs ?q0) with (put_all xs q0).
  rewrite IH. unfold put. cbn [fst]. rewrite <- app_assoc. reflexivity.
Qed.

Lemma get_nowait_n_spec n : forall q,
  get_nowait_n n q =
    (take n (q ++ repeat (fresh (ControllerData_new Empty)) n), drop n q).
Proof.
  induction n as [|n IH]; intros q; [rewrite take_0, drop_0; reflexivity|].
  cbn [get_nowait_n]. destruct q as [|x q]; cbn [get_nowait].
  - rewrite IH. cbn [fst snd app repeat]. rewrite firstn_cons.
    rewrite drop_nil. reflexivity.
  - rewrite IH. cbn [fst snd]. rewrite <- app_comm_cons, firstn_cons, skipn_cons.
    f_equal. f_equal.
    replace (repeat (fresh (ControllerData_new Empty)) (S n))
      with (repeat (fresh (ControllerData_new Empty)) n ++ [fresh (ControllerData_new Empty)]).
    2:{ change [fresh (ControllerData_new Empty)] with (repeat (fresh (ControllerData_new Empty)) 1).
        rewrite <- repeat_app. f_equal. lia. }
    rewrite app_assoc. symmetry. apply take_app_le.
    rewrite length_app, repeat_length. lia.
Qed.

Lemma clear_nil q : clear q = [].
Proof. induction q as [|x q IH]; [reflexivity | exact IH]. Qed.

(** X1.  The queue is first-in first-out and [get_nowait] never raises:
    after the objects [xs] have been put on a queue holding [q], [n] calls of
    [get_nowait] return the objects of [q], then those of [xs], in the order
    they were put, and from then on new [Empty] states; what they did not
    take stays queued.  [clear] leaves the queue empty, and [get] blocks
    exactly on the empty queue.  The queue of the controller is used that
    way. *)
Theorem queue_first_in_first_out (q : ControllerDataQueue) (xs : list entry)
    (n : nat) (c : Controller) (e : entry) :
  let empty := fresh (ControllerData_new Empty) in
  get_nowait_n n (put_all xs q) =
    (take n (q ++ xs ++ repeat empty n), drop n (q ++ xs)) /\
  clear q = init /\
  (get_nowait_n n (clear q)).1 = repeat empty n /\
  (get q = None <-> q = []) /\
  get (put_all (e :: xs) init) = Some (e, put_all xs init) /\
  data (data_put e c).1 = (put e (data c)).1 /\
  data (data_clear c).1 = clear (data c).
Proof.
  intros empty. rewrite put_all_app, get_nowait_n_spec, clear_nil.
  repeat split.
  - rewrite <- app_assoc. reflexivity.
  - rewrite get_nowait_n_spec. cbn [fst app]. apply take_ge.
    rewrite repeat_length. lia.
  - destruct q; [reflexivity | discriminate].
  - intros ->. reflexivity.
  - rewrite !put_all_app. reflexivity.
  - rewrite clear_nil. reflexivity.
Qed.
End QueueFacts.

(** ** Equality of snapshots *)
Section SnapshotFacts.

Lemma ControllerInput_eqb_neq a b : a <> b -> ControllerInput_eqb a b = false.
Proof.
  intros Hne. destruct (ControllerInput_eqb a b) eqn:E; [|reflexivity].
  apply ControllerInput_eqb_eq in E. contradiction.
Qed.

Lemma insert_changes {A} (l : list A) i x y :
  l !! i = Some x -> y <> x -> <[i := y]> l <> l.
Proof.
  intros Hi Hne Heq. apply (f_equal (fun l => l !! i)) in Heq.
  rewrite list_lookup_insert_eq in Heq by (eapply lookup_lt_Some; exact Hi).
  congruence.
Qed.

(** X2.  The comparison of two snapshots is an equivalence that holds
    exactly for equal snapshots: after [copy] the target compares equal to
    its source, after [reset] to a new snapshot, and a snapshot in which one
    button, one hat or one axis has been replaced by a different value, or
    to which a button has been added, compares unequal to the original. *)
Theorem snapshot_equality (a b : ControllerInput) :
  ControllerInput_eqb a a = true /\
  ControllerInput_eqb a b = ControllerInput_eqb b a /\
  (ControllerInput_eqb a b = true <-> a = b) /\
  ControllerInput_eqb (copy a b) b = true /\
  ControllerInput_eqb (reset a) ControllerInput_new = true /\
  (forall i x y, buttons a !! i = Some x -> y <> x ->
     ControllerInput_eqb a {| buttons := <[i := y]> (buttons a);
                              hats := hats a; axes := axes a |} = false) /\
  (forall i x y, hats a !! i = Some x -> y <> x ->
     ControllerInput_eqb a {| buttons := buttons a;
                              hats := <[i := y]> (hats a); axes := axes a |} = false) /\
  (forall i x y, axes a !! i = Some x -> y <> x ->
     ControllerInput_eqb a {| buttons := buttons a; hats := hats a;
                              axes := <[i := y]> (axes a) |} = false) /\
  (forall x, ControllerInput_eqb a {| buttons := buttons a ++ [x];
                                      hats := hats a; axes := axes a |} = false).
Proof.
  assert (Hrefl : forall x, ControllerInput_eqb x x = true)
    by (intros x; apply ControllerInput_eqb_eq; reflexivity).
  split; [apply Hrefl|]. split.
  { destruct (ControllerInput_eqb b a) eqn:E.
    - apply ControllerInput_eqb_eq in E. subst b. apply Hrefl.
    - apply ControllerInput_eqb_neq. intros ->. rewrite Hrefl in E. discriminate. }
  split; [apply ControllerInput_eqb_eq|].
  split; [apply ControllerInput_eqb_eq; destruct b; reflexivity|].
  split; [reflexivity|].
  destruct a as [ba ha aa]. cbn [buttons hats axes].
  repeat split.
  - intros i x y Hi Hne. apply ControllerInput_eqb_neq. intros [= H].
    symmetry in H. exact (insert_changes _ _ _ _ Hi Hne H).
  - intros i x y Hi Hne. apply ControllerInput_eqb_neq. intros [= H].
    symmetry in H. exact (insert_changes _ _ _ _ Hi Hne H).
  - intros i x y Hi Hne. apply ControllerInput_eqb_neq. intros [= H].
    symmetry in H. exact (insert_changes _ _ _ _ Hi Hne H).
  - intros x. apply ControllerInput_eqb_neq. intros [= H].
    apply (f_equal length) in H. rewrite length_app in H. cbn in H. lia.
Qed.

End SnapshotFacts.

(** ** The quantizer with any tables *)
Section QuantizerTables.

Lemma nan_ltb_l x y : Prim2SF x = S754_nan -> (x <? y)%float = false.
Proof. intros H. rewrite ltb_spec, H. reflexivity. Qed.

Lemma abs_nan x : Prim2SF x = S754_nan -> Prim2SF (abs x) = S754_nan.
Proof. intros H. rewrite abs_spec, H. reflexivity. Qed.

Lemma add_nan x y : Prim2SF y = S754_nan -> Prim2SF (x + y) = S754_nan.
Proof.
  intros H. rewrite add_spec, H. unfold SF64add, SFadd.
  destruct (Prim2SF x); reflexivity.
Qed.

(** X3.  Whatever tables a converter holds, a stick level depends on the
    magnitude of the reading only and is one of the five values of the
    table, as is a trigger level; and a reading that is not a number gets
    the last value of the table: the Xbox converter turns it into level 4
    on a stick, with a false sign flag, and on a trigger. *)
Theorem quantizer_any_table (self : AnalogAxisConverter) (v : float) :
  let sv := _stick_rounded_value self in
  let tv := _trigger_rounded_value self in
  _round_stick_value self (- v) = _round_stick_value self v /\
  _round_stick_value self v ∈
    [sv_zero sv; sv_low sv; sv_middle sv; sv_high sv; sv_max sv] /\
  _round_trigger_value self v ∈
    [tv_zero tv; tv_low tv; tv_middle tv; tv_high tv; tv_max tv] /\
  (Prim2SF v = S754_nan ->
     _round_stick_value self v = sv_max sv /\
     _round_trigger_value self v = tv_max tv /\
     convert XboxAnalogAxisConverter XboxControllerStick.LeftY v
       = {| positive := false; value := 4 |} /\
     convert XboxAnalogAxisConverter XboxControllerTrigger.Left v
       = {| positive := true; value := 4 |}).
Proof.
  intros sv tv. split; [|split; [|split]].
  - unfold _round_stick_value. rewrite abs_opp. reflexivity.
  - unfold _round_stick_value. subst sv.
    repeat match goal with |- context [if ?b then _ else _] => destruct b end;
      set_solver.
  - unfold _round_trigger_value. subst tv.
    repeat match goal with |- context [if ?b then _ else _] => destruct b end;
      set_solver.
  - intros Hnan.
    assert (Hs : forall c, _round_stick_value c v = sv_max (_stick_rounded_value c)).
    { intros c. unfold _round_stick_value.
      rewrite !(nan_ltb_l _ _ (abs_nan _ Hnan)). reflexivity. }
    assert (Ht : forall c x, Prim2SF x = S754_nan ->
                 _round_trigger_value c x = tv_max (_trigger_rounded_value c)).
    { intros c x Hx. unfold _round_trigger_value.
      rewrite !(nan_ltb_l _ _ Hx). reflexivity. }
    split; [apply Hs|]. split; [apply Ht; exact Hnan|]. split.
    + unfold convert.
      replace (bool_decide (XboxControllerStick.LeftY ∈ XboxControllerTrigger.members))
        with false by reflexivity.
      rewrite Hs. unfold _is_positive. rewrite leb_spec, Hnan. reflexivity.
    + unfold convert.
      replace (bool_decide (XboxControllerTrigger.Left ∈ XboxControllerTrigger.members))
        with true by reflexivity.
      rewrite (Ht _ _ (add_nan 1 v Hnan)). reflexivity.
Qed.

(** X4.  A converter whose table of stick values is nondecreasing is
    monotone in the magnitude of the reading, and one whose table of trigger
    values is nondecreasing is monotone in the shifted reading, whatever the
    thresholds are. *)
Theorem quantizer_monotone (self : AnalogAxisConverter) (v w : float) :
  let sv := _stick_rounded_value self in
  let tv := _trigger_rounded_value self in
  sv_zero sv <= sv_low sv -> sv_low sv <= sv_middle sv ->
  sv_middle sv <= sv_high sv -> sv_high sv <= sv_max sv ->
  tv_zero tv <= tv_low tv -> tv_low tv <= tv_middle tv ->
  tv_middle tv <= tv_high tv -> tv_high tv <= tv_max tv ->
  ((abs v <=? abs w)%float = true ->
     _round_stick_value self v <= _round_stick_value self w) /\
  ((v <=? w)%float = true ->
     _round_trigger_value self v <= _round_trigger_value self w).
Proof.
  intros sv tv S0 S1 S2 S3 T0 T1 T2 T3.
  assert (Hstep : forall x y t, (x <=? y)%float = true ->
            (y <? t)%float = true -> (x <? t)%float = true)
    by (intros x y t; apply leb_ltb_trans).
  split; intros Hle.
  - unfold _round_stick_value. fold sv.
    repeat match goal with
      | |- context [(abs w <? ?t)%float] =>
          let E := fresh "E" in
          destruct (abs w <? t)%float eqn:E;
          [rewrite ?(Hstep _ _ _ Hle E)|]
      end;
    repeat match goal with |- context [if ?b then _ else _] => destruct b end;
    lia.
  - unfold _round_trigger_value. fold tv.
    repeat match goal with
      | |- context [(w <? ?t)%float] =>
          let E := fresh "E" in
          destruct (w <? t)%float eqn:E;
          [rewrite ?(Hstep _ _ _ Hle E)|]
      end;
    repeat match goal with |- context [if ?b then _ else _] => destruct b end;
    lia.
Qed.

(** A converter with the thresholds in disorder and the levels doubled. *)
Lemma quantizer_monotone_witness :
  let c := {| _stick_threshold :=
                {| st_zero := 0.5; st_low := 0.1; st_middle := 0.9; st_high := 0.3 |};
              _stick_rounded_value :=
                {| sv_zero := 0; sv_low := 2; sv_middle := 4; sv_high := 6; sv_max := 8 |};
              _trigger_threshold := TriggerThreshold_default;
              _trigger_rounded_value := TriggerRoundedValue_default |} in
  _round_stick_value c 0.45 <= _round_stick_value c (-0.95) /\
  _round_trigger_value c 0.3 <= _round_trigger_value c 1.7.
Proof.
  intros c.
  refine (conj (proj1 (quantizer_monotone c 0.45 (-0.95) _ _ _ _ _ _ _ _) _)
               (proj2 (quantizer_monotone c 0.3 1.7 _ _ _ _ _ _ _ _) _));
    first [reflexivity | (cbn; lia)].
Defined.

End QuantizerTables.

(** ** The servo *)
Section ServoFacts.
Import radiocontrol ThreadedServo more_samples.

Ltac run_servo_call :=
  unfold do_action, _run_iteration, quit, initial, move, stop, hardware_PWM,
    set_current_duty, set_motion, set_exit, set_running_event, ThreadedServo.self,
    bind, ret;
  cbn [fst snd _pin _min_duty _max_duty _initial_duty _freq _current_duty
       _clockwise _step _interval _exit _running_event negb].

Lemma do_action_invariant s a w :
  _min_duty s <= _initial_duty s <= _max_duty s ->
  match a with Move step _ _ => 0 <= step | _ => True end ->
  servo_invariant s w -> servo_invariant s (do_action a w).1.
Proof.
  intros Hinit Ha (Hpin & Hmin & Hmax & Hini & Hfreq & Hstep & Hcur & Hlog).
  destruct w as [t log]. cbn [fst snd] in *.
  unfold servo_invariant.
  destruct a as [|step interval clockwise| |]; run_servo_call.
  - destruct (_running_event t); cbn [negb fst snd];
      [|repeat split; assumption || lia].
    destruct (_exit t); cbn [fst snd]; [repeat split; assumption || lia|].
    destruct (_clockwise t); cbn [fst snd _current_duty _max_duty _min_duty].
    + destruct (Z.gtb_spec (_current_duty t + _step t) (_max_duty t));
        cbn [fst snd _pin _min_duty _max_duty _initial_duty _freq _current_duty
             _step];
        repeat split; try assumption; try lia.
      apply Forall_app. split; [assumption|]. repeat constructor; cbn; lia.
    + destruct (Z.ltb_spec (_current_duty t - _step t) (_min_duty t));
        cbn [fst snd _pin _min_duty _max_duty _initial_duty _freq _current_duty
             _step];
        repeat split; try assumption; try lia.
      apply Forall_app. split; [assumption|]. repeat constructor; cbn; lia.
  - repeat split; assumption || lia.
  - repeat split; try assumption; try lia.
    apply Forall_app. split; [assumption|]. repeat constructor; cbn; lia.
  - repeat split; assumption || lia.
Qed.

Lemma do_actions_invariant s acts : forall w,
  _min_duty s <= _initial_duty s <= _max_duty s ->
  steps_nonnegative acts ->
  servo_invariant s w -> servo_invariant s (do_actions acts w).
Proof.
  induction acts as [|a acts IH]; intros w Hinit Hacts Hinv; [exact Hinv|].
  inversion Hacts as [|? ? Ha Hrest]; subst.
  cbn [do_actions fold_left]. apply IH; [exact Hinit | exact Hrest|].
  apply do_action_invariant; assumption.
Qed.

Lemma init_fields pin minw maxw frame initw s log :
  init pin minw maxw frame initw = inr (s, log) ->
  pin ∈ _VALID_PIN_VALUES /\ _pin s = pin /\
  _current_duty s = _initial_duty s /\ _step s = 1000 /\
  _clockwise s = true /\ _exit s = false /\ _running_event s = false /\
  log = [(pin, _freq s, _initial_duty s)].
Proof.
  unfold init. destruct (bool_decide (pin ∈ _VALID_PIN_VALUES)) eqn:Epin;
    cbn [negb]; [|discriminate].
  apply bool_decide_eq_true in Epin.
  unfold and_then.
  repeat match goal with
    | |- context [match ?r with inl _ => _ | inr _ => _ end] =>
        destruct r; try discriminate
    end.
  intros [= <- <-]. cbn. repeat split. exact Epin.
Qed.

(** X5.  A servo that the constructor has built with its initial dutycycle
    between the two limits keeps its dutycycle between them, and asks for no
    other: whatever iterations of its thread and calls of [move], [initial]
    and [stop] follow one another, none of the [move] with a negative step,
    every [hardware_PWM] request is on the servo's pin, at its frequency, of
    a dutycycle from the minimum to the maximum; the pin is one of 12, 13, 18
    and 19. *)
Theorem servo_requests_within_limits (pin : Z)
    (min_pulse_width max_pulse_width frame_width : float)
    (initial_pulse_width : option float)
    (s : ThreadedServo) (log : list (Z * Z * Z)) (acts : list action) :
  init pin min_pulse_width max_pulse_width frame_width initial_pulse_width
    = inr (s, log) ->
  _min_duty s <= _initial_duty s <= _max_duty s ->
  steps_nonnegative acts ->
  let w := do_actions acts (s, log) in
  pin ∈ _VALID_PIN_VALUES /\
  _min_duty s <= _current_duty w.1 <= _max_duty s /\
  Forall (within_limits s) w.2 /\
  (_pin w.1, _min_duty w.1, _max_duty w.1, _initial_duty w.1, _freq w.1)
    = (pin, _min_duty s, _max_duty s, _initial_duty s, _freq s).
Proof.
  intros Hinit Hrange Hacts w.
  destruct (init_fields _ _ _ _ _ _ _ Hinit)
    as (Hpin & Epin & Ecur & Estep & _ & _ & _ & Elog).
  assert (Hinv : servo_invariant s (s, log)).
  { unfold servo_invariant. cbn [fst snd]. rewrite Ecur, Estep, Elog.
    repeat split; try lia.
    repeat constructor; cbn; lia. }
  destruct (do_actions_invariant s acts (s, log) Hrange Hacts Hinv)
    as (Fpin & Fmin & Fmax & Fini & Ffreq & _ & Fcur & Flog).
  fold w in Fpin, Fmin, Fmax, Fini, Ffreq, Fcur, Flog.
  split; [exact Hpin|]. split; [exact Fcur|]. split; [exact Flog|].
  rewrite Fpin, Fmin, Fmax, Fini, Ffreq, Epin. reflexivity.
Qed.

(** The pan servo of [main], swept clockwise for 50 iterations, recentred
    and swept back at the largest step of [main]. *)
Lemma servo_requests_within_limits_witness :
  match pan with
  | inr (s, log) =>
      let w := do_actions
                 (Move 1000 0.025 true :: repeat Iterate 50 ++
                  Initial :: Move 750 0.025 false :: repeat Iterate 70)
                 (s, log) in
      (_min_duty s, _max_duty s) = (25000, 120000) /\
      _min_duty s <= _current_duty w.1 <= _max_duty s /\
      Forall (within_limits s) w.2
  | inl _ => False
  end.
Proof.
  destruct pan as [e|[s log]] eqn:E; [discriminate E|].
  assert (Es : s = {| _pin := 13; _min_duty := 25000; _max_duty := 120000;
                      _initial_duty := 75000; _freq := 50;
                      _current_duty := 75000; _clockwise := true;
                      _step := 1000; _interval := 0.05; _exit := false;
                      _running_event := false |})
    by (vm_compute in E; injection E as <- _; reflexivity).
  cbv zeta. split; [rewrite Es; reflexivity|].
  destruct (servo_requests_within_limits 13 0.5 2.4 20 (Some 1.5%float) s log
              (Move 1000 0.025 true :: repeat Iterate 50 ++
               Initial :: Move 750 0.025 false :: repeat Iterate 70) E)
    as (_ & Hcur & Hlog & _).
  - rewrite Es. cbn. lia.
  - unfold steps_nonnegative. cbn [repeat app].
    repeat constructor; lia.
  - split; [exact Hcur | exact Hlog].
Defined.


Lemma floor_steps D step k :
  0 < step -> (k <= D / step <-> k * step <= D).
Proof.
  intros Hs. split; intros H.
  - pose proof (Z.mul_div_le D step Hs). nia.
  - apply Z.div_le_lower_bound; lia.
Qed.

Lemma seqZ_snoc m : 0 <= m -> seqZ 1 (m + 1) = seqZ 1 m ++ [m + 1].
Proof.
  intros Hm. rewrite seqZ_app by lia. f_equal.
  replace (1 + m) with (m + 1) by lia. reflexivity.
Qed.

(** X6.  A sweep.  A running servo whose dutycycle is within the limits
    and whose step is positive asks, iteration after iteration, for its
    dutycycle moved by one step more, clockwise upward and counterclockwise
    downward, for as long as the limit is not passed; the iteration that
    would pass it asks for nothing, sets the dutycycle to the limit and
    stops the thread, and the iterations after that wait. *)
Theorem servo_sweep (s : ThreadedServo) (log : list (Z * Z * Z)) (n : nat) :
  _running_event s = true -> _exit s = false -> 0 < _step s ->
  _min_duty s <= _current_duty s <= _max_duty s ->
  let sign := if _clockwise s then 1 else -1 in
  let limit := if _clockwise s then _max_duty s else _min_duty s in
  let reach := sign * (limit - _current_duty s) / _step s in
  let duty i := _current_duty s + sign * i * _step s in
  iterations n (s, log) =
    ({| _pin := _pin s; _min_duty := _min_duty s; _max_duty := _max_duty s;
        _initial_duty := _initial_duty s; _freq := _freq s;
        _current_duty := if Z.of_nat n <=? reach then duty (Z.of_nat n) else limit;
        _clockwise := _clockwise s; _step := _step s; _interval := _interval s;
        _exit := false; _running_event := Z.of_nat n <=? reach |},
     log ++ ((fun i => (_pin s, _freq s, duty i)) <$>
             seqZ 1 (Z.min (Z.of_nat n) reach))).
Proof.
  intros Hev Hex Hstep Hcur sign limit reach duty.
  destruct s as [pin mn mx ini fr cur cw step itv ex ev].
  cbn [_pin _min_duty _max_duty _initial_duty _freq _current_duty
       _clockwise _step _interval _exit _running_event] in *.
  subst ev ex.
  assert (HD : 0 <= sign * (limit - cur)) by (subst sign limit; destruct cw; lia).
  assert (Hreach : forall k, k <= reach <-> k * step <= sign * (limit - cur))
    by (intros k; apply floor_steps; exact Hstep).
  assert (H0 : 0 <= reach) by (apply Hreach; lia).
  induction n as [|n IH].
  - cbn [iterations Nat.iter]. change (Z.of_nat 0) with 0.
    destruct (Z.leb_spec 0 reach); [|lia].
    rewrite Z.min_l by lia. cbn. rewrite app_nil_r.
    subst duty. cbv beta. replace (cur + sign * 0 * step) with cur by lia.
    reflexivity.
  - change (iterations (S n) ?w) with ((_run_iteration (iterations n w)).1).
    rewrite IH. clear IH.
    destruct (Z.leb_spec (Z.of_nat n) reach) as [Hn|Hn].
    + rewrite Z.min_l by lia.
      destruct (Z.leb_spec (Z.of_nat (S n)) reach) as [Hn'|Hn'].
      * rewrite Z.min_l by lia.
        replace (Z.of_nat (S n)) with (Z.of_nat n + 1) in * by lia.
        rewrite seqZ_snoc by lia. rewrite fmap_app, app_assoc. cbn [fmap list_fmap].
        apply Hreach in Hn'.
        run_servo_call. subst duty sign limit. cbv beta.
        destruct cw; cbn [fst snd _current_duty _max_duty _min_duty].
        -- destruct (Z.gtb_spec (cur + 1 * Z.of_nat n * step + step) mx); [nia|].
           cbn [fst snd _pin _freq _current_duty].
           f_equal; [f_equal; lia|]. f_equal. f_equal. f_equal. lia.
        -- destruct (Z.ltb_spec (cur + -1 * Z.of_nat n * step - step) mn); [nia|].
           cbn [fst snd _pin _freq _current_duty].
           f_equal; [f_equal; lia|]. f_equal. f_equal. f_equal. lia.
      * rewrite (Z.min_r (Z.of_nat (S n))) by lia.
        assert (En : Z.of_nat n = reach) by lia.
        assert (Hover : ~ (reach + 1) * step <= sign * (limit - cur))
          by (intros H; apply Hreach in H; lia).
        run_servo_call. subst duty sign limit. cbv beta. rewrite En.
        destruct cw; cbn [fst snd _current_duty _max_duty _min_duty].
        -- destruct (Z.gtb_spec (cur + 1 * reach * step + step) mx); [|nia].
           reflexivity.
        -- destruct (Z.ltb_spec (cur + -1 * reach * step - step) mn); [|nia].
           reflexivity.
    + rewrite Z.min_r by lia.
      destruct (Z.leb_spec (Z.of_nat (S n)) reach) as [Hn'|Hn']; [lia|].
      rewrite Z.min_r by lia. reflexivity.
Qed.

(** The pan servo of [main] swept clockwise at the step 1000 from its
    initial position: 45 requests up to the maximum 120000, then the thread
    stops itself. *)
Lemma servo_sweep_witness :
  match pan with
  | inr w =>
      let w' := iterations 50 (move 1000 0.025 true w).1 in
      _current_duty w'.1 = 120000 /\ _running_event w'.1 = false /\
      length w'.2 = 46%nat /\ last w'.2 = Some (13, 50, 120000)
  | inl _ => False
  end.
Proof.
  destruct pan as [e|w] eqn:E; [discriminate E|].
  vm_compute in E. injection E as <-.
  cbv zeta.
  match goal with |- context [iterations 50 ?w] =>
    let w1 := eval vm_compute in w in change w with w1 end.
  rewrite (servo_sweep _ _ 50); [|reflexivity|reflexivity|reflexivity|cbn; lia].
  vm_compute. repeat split; reflexivity.
Defined.
End ServoFacts.

(** ** The LED and the pin *)
Section LEDPin.
Import LED samples.

Ltac led_steps :=
  unfold on, off, increment_brightness, decrement_brightness, scaled_duty,
    _set_led, set_current_duty, LED.self, on_pi, set_PWM_dutycycle, bind, ret, lift;
  cbn [fst snd _led_pin PWM_RANGE BRIGHTNESS_STEP _current_duty].

(** The pigpio instance after a request of the LED that the daemon may have
    refused. *)
Lemma write_scaled_pi led_pin l p :
  LED_ok led_pin l ->
  exists k, 0 <= k <= 1000 /\ py_int (_current_duty l * 1000) = inr k /\
    (let* dutycycle := scaled_duty in _set_led dutycycle) (l, p) =
      if accepts p led_pin k then
        ((l, {| accepts := accepts p;
                dutycycles := <[led_pin := k]> (dutycycles p) |}), inr tt)
      else ((l, p), inl PigpioError).
Proof.
  intros (Hpin & Hrange & _ & H0 & H1).
  destruct (scaled_fraction _ H0 H1) as (k & Hk & Hkr).
  exists k. split; [exact Hkr|]. split; [exact Hk|].
  led_steps. rewrite Hrange.
  replace (py_float 1000) with (@inr exn float 1000%float) by reflexivity.
  cbn [fst snd]. rewrite Hk. cbn [fst snd]. rewrite Hpin.
  destruct (accepts p led_pin k); reflexivity.
Qed.

Lemma with_duty_ok led_pin l d :
  LED_ok led_pin l -> (0 <=? d)%float = true -> (d <=? 1)%float = true ->
  LED_ok led_pin {| _led_pin := _led_pin l; PWM_RANGE := PWM_RANGE l;
                    BRIGHTNESS_STEP := BRIGHTNESS_STEP l; _current_duty := d |}.
Proof. intros (Hpin & Hrange & Hstep & _ & _) H0 H1. repeat split; assumption. Qed.

Lemma same_duty l :
  {| _led_pin := _led_pin l; PWM_RANGE := PWM_RANGE l;
     BRIGHTNESS_STEP := BRIGHTNESS_STEP l; _current_duty := _current_duty l |} = l.
Proof. destruct l; reflexivity. Qed.

(** Every call is a possible change of the brightness followed by one
    request for a dutycycle of the range. *)
Lemma do_call_request led_pin c l p :
  LED_ok led_pin l ->
  let d := _current_duty l in
  let d' :=
    match c with
    | On => if (d =? 0)%float then 1%float else d
    | Off => d
    | IncrementBrightness =>
        let d' := (d + BRIGHTNESS_STEP l)%float in
        if (1 <? d')%float then 1%float else d'
    | DecrementBrightness =>
        let d' := (d - BRIGHTNESS_STEP l)%float in
        if (d' <? 0)%float then 0%float else d'
    end in
  let l' := {| _led_pin := _led_pin l; PWM_RANGE := PWM_RANGE l;
               BRIGHTNESS_STEP := BRIGHTNESS_STEP l; _current_duty := d' |} in
  exists k, 0 <= k <= 1000 /\
    (c = Off -> k = 0) /\
    (c <> Off -> py_int (d' * 1000) = inr k) /\
    do_call c (l, p) =
      if accepts p led_pin k then
        ((l', {| accepts := accepts p;
                 dutycycles := <[led_pin := k]> (dutycycles p) |}), inr tt)
      else ((l', p), inl PigpioError).
Proof.
  intros Hok cur0 next0 l'.
  pose proof (do_call_ok led_pin c l p Hok) as Hok'.
  pose proof (do_call_duty c l p) as Hduty. cbv zeta in Hduty.
  assert (Htail : forall d,
    (0 <=? d)%float = true -> (d <=? 1)%float = true ->
    let l' := {| _led_pin := _led_pin l; PWM_RANGE := PWM_RANGE l;
                 BRIGHTNESS_STEP := BRIGHTNESS_STEP l; _current_duty := d |} in
    exists k, 0 <= k <= 1000 /\ py_int (d * 1000) = inr k /\
      (let* dutycycle := scaled_duty in _set_led dutycycle) (l', p) =
        if accepts p led_pin k then
          ((l', {| accepts := accepts p;
                   dutycycles := <[led_pin := k]> (dutycycles p) |}), inr tt)
        else ((l', p), inl PigpioError)).
  { intros d H0 H1 l0.
    exact (write_scaled_pi led_pin l0 p (with_duty_ok led_pin l d Hok H0 H1)). }
  destruct Hok as (Hpin & Hrange & Hstep & H0 & H1).
  destruct Hok' as (_ & _ & _ & H0' & H1'). rewrite Hduty in H0', H1'.
  subst l' next0 cur0.
  destruct c; cbn [do_call] in *.
  - destruct (Htail _ H0' H1') as (k & Hk & Hint & E). exists k.
    split; [exact Hk|]. split; [discriminate|]. split; [intros _; exact Hint|].
    unfold on. unfold bind at 1, LED.self at 1. cbn [fst snd].
    destruct (_current_duty l =? 0)%float.
    + unfold bind at 1, set_current_duty. cbn [fst snd]. exact E.
    + unfold bind at 1, ret. rewrite <- (same_duty l) at 1. exact E.
  - exists 0. split; [lia|]. split; [reflexivity|]. split; [congruence|].
    led_steps. rewrite same_duty, Hpin.
    destruct (accepts p led_pin 0); reflexivity.
  - destruct (Htail _ H0' H1') as (k & Hk & Hint & E). exists k.
    split; [exact Hk|]. split; [discriminate|]. split; [intros _; exact Hint|].
    unfold increment_brightness.
    unfold bind at 1, LED.self at 1. cbn [fst snd].
    unfold bind at 1, set_current_duty at 1. cbn [fst snd].
    unfold bind at 1, LED.self at 1. cbn [fst snd _current_duty].
    destruct (1 <? _current_duty l + BRIGHTNESS_STEP l)%float.
    + unfold bind at 1, set_current_duty.
      cbn [fst snd _led_pin PWM_RANGE BRIGHTNESS_STEP]. exact E.
    + unfold bind at 1, ret. exact E.
  - destruct (Htail _ H0' H1') as (k & Hk & Hint & E). exists k.
    split; [exact Hk|]. split; [discriminate|]. split; [intros _; exact Hint|].
    unfold decrement_brightness.
    unfold bind at 1, LED.self at 1. cbn [fst snd].
    unfold bind at 1, set_current_duty at 1. cbn [fst snd].
    unfold bind at 1, LED.self at 1. cbn [fst snd _current_duty].
    destruct (_current_duty l - BRIGHTNESS_STEP l <? 0)%float.
    + unfold bind at 1, set_current_duty.
      cbn [fst snd _led_pin PWM_RANGE BRIGHTNESS_STEP]. exact E.
    + unfold bind at 1, ret. exact E.
Qed.

Lemma get_insert_eq (p : pi) f g k :
  get_PWM_dutycycle {| accepts := f; dutycycles := <[g := k]> (dutycycles p) |} g = k.
Proof. unfold get_PWM_dutycycle. cbn [dutycycles]. rewrite lookup_insert_eq. reflexivity. Qed.

(** X7.  The LED drives its pin within the PWM range and touches no other
    GPIO: when the pin's dutycycle is between 0 and 1000 before the LED is
    built, it is so after every sequence of [on], [off],
    [increment_brightness] and [decrement_brightness], also when the daemon
    refuses requests, and the dutycycle of every other GPIO is what it
    was. *)
Theorem led_pin_in_range (led_pin : Z) (p : pi) (cs : list call) :
  0 <= get_PWM_dutycycle p led_pin <= 1000 ->
  let w := do_calls cs (init led_pin, p) in
  0 <= get_PWM_dutycycle w.2 led_pin <= 1000 /\
  (forall gpio, gpio <> led_pin -> dutycycles w.2 !! gpio = dutycycles p !! gpio).
Proof.
  intros Hp w. subst w.
  assert (Hgen : forall cs w,
    LED_ok led_pin w.1 -> 0 <= get_PWM_dutycycle w.2 led_pin <= 1000 ->
    0 <= get_PWM_dutycycle (do_calls cs w).2 led_pin <= 1000 /\
    (forall gpio, gpio <> led_pin ->
       dutycycles (do_calls cs w).2 !! gpio = dutycycles w.2 !! gpio)).
  { clear cs Hp. induction cs as [|c cs IH]; intros [l q] Hok Hq;
      [split; [exact Hq | reflexivity]|].
    cbn [do_calls fold_left].
    change (fold_left _ cs ?w0) with (do_calls cs w0).
    cbn [fst snd] in Hok, Hq.
    pose proof (do_call_ok led_pin c l q Hok) as Hok'.
    destruct (do_call_request led_pin c l q Hok) as (k & Hk & _ & _ & E).
    cbv zeta in E.
    destruct (do_call c (l, q)) as [[l1 q1] r1]. cbn [fst snd] in *.
    assert (Hq1 : 0 <= get_PWM_dutycycle q1 led_pin <= 1000 /\
                  forall gpio, gpio <> led_pin ->
                    dutycycles q1 !! gpio = dutycycles q !! gpio).
    { destruct (accepts q led_pin k); injection E as _ -> _.
      - rewrite get_insert_eq. split; [exact Hk|].
        intros gpio Hne. cbn [dutycycles]. apply lookup_insert_ne. congruence.
      - split; [exact Hq | reflexivity]. }
    destruct Hq1 as [Hr Hf].
    destruct (IH (l1, q1) Hok' Hr) as [Hr' Hf'].
    split; [exact Hr'|].
    intros gpio Hne. rewrite (Hf' gpio Hne). apply Hf. exact Hne. }
  apply Hgen; [apply init_ok | exact Hp].
Qed.

(** The LED of [main] on GPIO 16 of a daemon with nothing written yet. *)
Lemma led_pin_in_range_witness :
  let w := do_calls [DecrementBrightness; DecrementBrightness; Off; On]
             (init 16, daemon) in
  0 <= get_PWM_dutycycle w.2 16 <= 1000 /\ dutycycles w.2 !! 22 = None.
Proof.
  intros w.
  destruct (led_pin_in_range 16 daemon
              [DecrementBrightness; DecrementBrightness; Off; On]) as [Hr Hf].
  - vm_compute. split; discriminate.
  - split; [exact Hr|]. fold w in Hf. rewrite (Hf 22) by discriminate. reflexivity.
Defined.

(** X8.  [off] darkens the LED without losing the brightness: on a daemon
    that accepts the range, after any sequence of calls on a new LED, [on]
    asks for the dutycycle of the brightness, [off] puts the pin to 0 and
    leaves the LED object as it is, and the next [on] asks for the same
    dutycycle as the first and changes nothing in the object. *)
Theorem led_off_then_on (led_pin : Z) (p : pi) (cs : list call) :
  (forall k, 0 <= k <= 1000 -> accepts p led_pin k = true) ->
  let lit := (on (do_calls cs (init led_pin, p))).1 in
  let dark := (off lit).1 in
  let relit := (on dark).1 in
  py_int (_current_duty lit.1 * 1000) = inr (get_PWM_dutycycle lit.2 led_pin) /\
  get_PWM_dutycycle dark.2 led_pin = 0 /\
  dark.1 = lit.1 /\
  relit.1 = lit.1 /\
  get_PWM_dutycycle relit.2 led_pin = get_PWM_dutycycle lit.2 led_pin.
Proof.
  intros Hacc.
  pose proof (do_calls_ok led_pin cs (init led_pin, p) (init_ok led_pin)) as Hok.
  pose proof (do_calls_accepts cs (init led_pin, p)) as Ha. cbn [snd] in Ha.
  destruct (do_calls cs (init led_pin, p)) as [l q]. cbn [fst snd] in Hok, Ha.
  assert (Hq : forall k, 0 <= k <= 1000 -> accepts q led_pin k = true)
    by (rewrite Ha; exact Hacc).
  clear Ha Hacc.
  pose proof (do_call_ok led_pin On l q Hok) as Hok1.
  destruct (do_call_request led_pin On l q Hok) as (k & Hk & _ & Hint & E).
  cbv zeta in Hint, E. specialize (Hint ltac:(discriminate)).
  rewrite (Hq k Hk) in E. cbn [do_call] in E, Hok1.
  rewrite E in Hok1 |- *. cbn [fst snd] in Hok1 |- *.
  set (d1 := if (_current_duty l =? 0)%float then 1%float else _current_duty l) in *.
  set (l1 := {| _led_pin := _led_pin l; PWM_RANGE := PWM_RANGE l;
                BRIGHTNESS_STEP := BRIGHTNESS_STEP l; _current_duty := d1 |}) in *.
  set (q1 := {| accepts := accepts q; dutycycles := <[led_pin := k]> (dutycycles q) |}).
  assert (Hq1 : forall k, 0 <= k <= 1000 -> accepts q1 led_pin k = true) by exact Hq.
  destruct (do_call_request led_pin Off l1 q1 Hok1) as (k0 & _ & Hk0 & _ & E0).
  cbv zeta in E0. rewrite (Hk0 eq_refl) in E0. rewrite (Hq1 0) in E0 by lia.
  cbn [do_call] in E0. rewrite same_duty in E0. rewrite E0. cbn [fst snd].
  set (q0 := {| accepts := accepts q1; dutycycles := <[led_pin := 0]> (dutycycles q1) |}).
  assert (Hq0 : forall k, 0 <= k <= 1000 -> accepts q0 led_pin k = true) by exact Hq.
  destruct (do_call_request led_pin On l1 q0 Hok1) as (k2 & Hk2 & _ & Hint2 & E2).
  cbv zeta in Hint2, E2. specialize (Hint2 ltac:(discriminate)).
  assert (Hd1 : (_current_duty l1 =? 0)%float = false).
  { cbn [l1 _current_duty]. subst d1.
    destruct (_current_duty l =? 0)%float eqn:Ez; [reflexivity | exact Ez]. }
  rewrite Hd1 in Hint2, E2. rewrite same_duty in E2.
  cbn [l1 _current_duty] in Hint2. rewrite Hint in Hint2. injection Hint2 as <-.
  rewrite (Hq0 k Hk) in E2. cbn [do_call] in E2. rewrite E2. cbn [fst snd].
  unfold q0, q1. rewrite !get_insert_eq.
  repeat split. cbn [l1 _current_duty]. exact Hint.
Qed.

(** The LED of [main] dimmed twice: 800 before and after the dark phase. *)
Lemma led_off_then_on_witness :
  let lit := (on (do_calls [DecrementBrightness; DecrementBrightness]
                    (init 16, daemon))).1 in
  get_PWM_dutycycle lit.2 16 = 800 /\
  get_PWM_dutycycle (off lit).1.2 16 = 0 /\
  get_PWM_dutycycle (on (off lit).1).1.2 16 = 800.
Proof.
  intros lit.
  destruct (led_off_then_on 16 daemon [DecrementBrightness; DecrementBrightness])
    as (_ & Hdark & _ & _ & Hrelit).
  - intros k Hk. cbn. lia.
  - fold lit in Hdark, Hrelit.
    assert (Hlit : get_PWM_dutycycle lit.2 16 = 800) by (vm_compute; reflexivity).
    rewrite Hrelit. repeat split; assumption.
Defined.
End LEDPin.

(** ** The motor driver and the range *)
Section MotorRange.
Import Motor samples.

Lemma float_mul_comm (x y : float) : (x * y)%float = (y * x)%float.
Proof.
  apply Prim2SF_inj. rewrite !mul_spec. unfold SF64mul, SFmul.
  destruct (Prim2SF x) as [sx|sx| |sx mx ex], (Prim2SF y) as [sy|sy| |sy my ey];
    try reflexivity; try (f_equal; apply xorb_comm).
  rewrite (xorb_comm sx sy), (Pos.mul_comm mx my), (Z.add_comm ex ey). reflexivity.
Qed.

Lemma mul_nan x y : Prim2SF y = S754_nan -> Prim2SF (x * y) = S754_nan.
Proof.
  intros H. rewrite mul_spec, H. unfold SF64mul, SFmul.
  destruct (Prim2SF x); reflexivity.
Qed.

Ltac motor_steps :=
  unfold move, stop, set_PWM_dutycycle, bind, ret, lift;
  cbn [fst snd].

Lemma do_call_frame self c p gpio :
  gpio <> _forward_pin self -> gpio <> _backward_pin self ->
  dutycycles (do_call self c p).1 !! gpio = dutycycles p !! gpio.
Proof.
  intros Hf Hb.
  destruct c as [d forward|]; cbn [do_call]; motor_steps;
    repeat match goal with
      | |- context [match ?r with inl _ => _ | inr _ => _ end] => destruct r; cbn
      | |- context [if ?b then _ else _] => destruct b; cbn
      end;
    rewrite ?lookup_insert_ne by congruence; reflexivity.
Qed.

Lemma do_call_keeps_accepts self c p : accepts (do_call self c p).1 = accepts p.
Proof.
  destruct c as [d forward|]; cbn [do_call]; motor_steps;
    repeat match goal with
      | |- context [match ?r with inl _ => _ | inr _ => _ end] => destruct r; cbn
      | |- context [if ?b then _ else _] => destruct b; cbn
      end; reflexivity.
Qed.

(** X9.  A motor writes to its two pins only: whatever [move] and [stop]
    calls are made, returning or not, the dutycycle of every other GPIO and
    the daemon's acceptance are what they were; so the calls on one motor
    leave the direction pins of a motor on other pins as they are. *)
Theorem motor_touches_own_pins (self other : Motor) (cs : list call) (p : pi) :
  let p' := do_calls self cs p in
  (forall gpio, gpio <> _forward_pin self -> gpio <> _backward_pin self ->
     dutycycles p' !! gpio = dutycycles p !! gpio) /\
  accepts p' = accepts p /\
  (_forward_pin other <> _forward_pin self ->
   _forward_pin other <> _backward_pin self ->
   _backward_pin other <> _forward_pin self ->
   _backward_pin other <> _backward_pin self ->
   get_PWM_dutycycle p' (_forward_pin other) = get_PWM_dutycycle p (_forward_pin other) /\
   get_PWM_dutycycle p' (_backward_pin other) = get_PWM_dutycycle p (_backward_pin other) /\
   (one_direction other p -> one_direction other p')).
Proof.
  intros p'. subst p'.
  assert (Hgen : forall cs p,
    (forall gpio, gpio <> _forward_pin self -> gpio <> _backward_pin self ->
       dutycycles (do_calls self cs p) !! gpio = dutycycles p !! gpio) /\
    accepts (do_calls self cs p) = accepts p).
  { clear cs p. induction cs as [|c cs IH]; intros p; [split; reflexivity|].
    cbn [do_calls fold_left].
    change (fold_left _ cs ?p0) with (do_calls self cs p0).
    destruct (IH (do_call self c p).1) as [IHd IHa]. split.
    - intros gpio Hf Hb. rewrite (IHd gpio Hf Hb).
      apply (do_call_frame self c p gpio Hf Hb).
    - rewrite IHa. apply do_call_keeps_accepts. }
  destruct (Hgen cs p) as [Hd Ha].
  split; [exact Hd|]. split; [exact Ha|].
  intros H1 H2 H3 H4.
  assert (Ef : get_PWM_dutycycle (do_calls self cs p) (_forward_pin other)
               = get_PWM_dutycycle p (_forward_pin other))
    by (unfold get_PWM_dutycycle; rewrite (Hd _ H1 H2); reflexivity).
  assert (Eb : get_PWM_dutycycle (do_calls self cs p) (_backward_pin other)
               = get_PWM_dutycycle p (_backward_pin other))
    by (unfold get_PWM_dutycycle; rewrite (Hd _ H3 H4); reflexivity).
  split; [exact Ef|]. split; [exact Eb|].
  unfold one_direction. rewrite Ef, Eb. exact (fun H => H).
Qed.

(** X10.  On a motor with the default range 1000 and a daemon that accepts
    the dutycycles 0..1000 on its two pins, [move] at a fraction of [0, 1]
    returns: it has put the opposite pin to 0 and the pin of the direction
    to [int(1000 * dutycycle)], a dutycycle of the range. *)
Theorem motor_move_fraction (self : Motor) (dutycycle : float) (forward : bool)
    (p : pi) :
  _max_dutycycle self = 1000 ->
  (0 <=? dutycycle)%float = true -> (dutycycle <=? 1)%float = true ->
  (forall k, 0 <= k <= 1000 ->
     accepts p (_forward_pin self) k = true /\
     accepts p (_backward_pin self) k = true) ->
  let driven := if forward then _forward_pin self else _backward_pin self in
  let opposite := if forward then _backward_pin self else _forward_pin self in
  exists k, py_int (1000 * dutycycle) = inr k /\ 0 <= k <= 1000 /\
    move self dutycycle forward p =
      ({| accepts := accepts p;
          dutycycles := <[driven := k]> (<[opposite := 0]> (dutycycles p)) |},
       inr tt).
Proof.
  intros Hmax H0 H1 Hacc driven opposite.
  destruct (scaled_fraction dutycycle H0 H1) as (k & Hk & Hkr).
  rewrite float_mul_comm in Hk.
  exists k. split; [exact Hk|]. split; [exact Hkr|].
  motor_steps. rewrite Hmax.
  replace (py_float 1000) with (@inr exn float 1000%float) by reflexivity.
  cbn [fst snd]. rewrite Hk. cbn [fst snd].
  destruct (Z.gtb_spec k 1000) as [Hgt|_]; [lia|].
  destruct (Hacc 0 ltac:(lia)) as [Hf0 Hb0].
  destruct (Hacc k Hkr) as [Hfk Hbk].
  subst driven opposite.
  destruct forward; rewrite ?Hf0, ?Hb0; cbn [fst snd accepts dutycycles];
    rewrite ?Hfk, ?Hbk; reflexivity.
Qed.

(** The left motor of [main] at three quarters, backward. *)
Lemma motor_move_fraction_witness :
  move {| _forward_pin := 22; _backward_pin := 24; _max_dutycycle := 1000 |}
       0.75 false daemon =
    ({| accepts := accepts daemon;
        dutycycles := <[24 := 750]> (<[22 := 0]> ∅) |}, inr tt).
Proof.
  destruct (motor_move_fraction
              {| _forward_pin := 22; _backward_pin := 24; _max_dutycycle := 1000 |}
              0.75 false daemon eq_refl eq_refl eq_refl) as (k & Hk & _ & E).
  - intros k Hk. cbn. lia.
  - vm_compute in Hk. injection Hk as <-. exact E.
Defined.

(** X11.  [move] outside the fractions.  A dutycycle that is not a number
    raises [ValueError] before anything is written.  A negative dutycycle is
    not cut at 0: the opposite pin is put to 0, then the negative value is
    requested on the pin of the direction, and when the daemon refuses it
    the call raises and leaves that pin at its previous dutycycle.  A
    dutycycle above 1 is cut at the maximum. *)
Theorem motor_move_outside_fractions (self : Motor) (dutycycle : float)
    (forward : bool) (p : pi) (range : float) :
  py_float (_max_dutycycle self) = inr range ->
  let driven := if forward then _forward_pin self else _backward_pin self in
  let opposite := if forward then _backward_pin self else _forward_pin self in
  (Prim2SF dutycycle = S754_nan ->
     move self dutycycle forward p = (p, inl ValueError)) /\
  (forall k, py_int (range * dutycycle) = inr k -> k < 0 ->
     0 <= _max_dutycycle self ->
     accepts p opposite 0 = true -> accepts p driven k = false ->
     move self dutycycle forward p =
       ({| accepts := accepts p; dutycycles := <[opposite := 0]> (dutycycles p) |},
        inl PigpioError)) /\
  (forall k, py_int (range * dutycycle) = inr k -> _max_dutycycle self < k ->
     accepts p opposite 0 = true -> accepts p driven (_max_dutycycle self) = true ->
     move self dutycycle forward p =
       ({| accepts := accepts p;
           dutycycles := <[driven := _max_dutycycle self]>
                           (<[opposite := 0]> (dutycycles p)) |}, inr tt)).
Proof.
  intros Hrange driven opposite. split; [|split].
  - intros Hnan. motor_steps. rewrite Hrange. cbn [fst snd].
    unfold py_int. rewrite (mul_nan range dutycycle Hnan). reflexivity.
  - intros k Hk Hneg Hmax Ho Hd. motor_steps. rewrite Hrange. cbn [fst snd].
    rewrite Hk. cbn [fst snd].
    destruct (Z.gtb_spec k (_max_dutycycle self)) as [Hgt|_]; [lia|].
    subst driven opposite.
    destruct forward; rewrite Ho; cbn [fst snd accepts dutycycles];
      rewrite Hd; reflexivity.
  - intros k Hk Hover Ho Hd. motor_steps. rewrite Hrange. cbn [fst snd].
    rewrite Hk. cbn [fst snd].
    destruct (Z.gtb_spec k (_max_dutycycle self)) as [_|Hle]; [|lia].
    subst driven opposite.
    destruct forward; rewrite Ho; cbn [fst snd accepts dutycycles];
      rewrite Hd; reflexivity.
Qed.

(** The left motor of [main] asked to move forward at minus one half: the
    backward pin is put to 0 and the call raises. *)
Lemma motor_move_outside_fractions_witness :
  move {| _forward_pin := 22; _backward_pin := 24; _max_dutycycle := 1000 |}
       (-0.5) true daemon =
    ({| accepts := accepts daemon; dutycycles := <[24 := 0]> ∅ |},
     inl PigpioError).
Proof.
  destruct (motor_move_outside_fractions
              {| _forward_pin := 22; _backward_pin := 24; _max_dutycycle := 1000 |}
              (-0.5) true daemon 1000 eq_refl) as (_ & Hneg & _).
  apply (Hneg (-500)); first [reflexivity | (cbn; lia)].
Defined.
End MotorRange.

(** ** The main loop as a whole *)
Section MainLoop.
Import radiocontrol main controller samples more_samples.

Lemma only_calls_ret P {A} (a : A) : only_calls P (ret a).
Proof. intros tr. exists []. split; [symmetry; apply app_nil_r | constructor]. Qed.

Lemma only_calls_lift P {A} (r : exn + A) : only_calls P (lift r).
Proof. intros tr. exists []. split; [symmetry; apply app_nil_r | constructor]. Qed.

Lemma only_calls_raise P {A} (e : exn) : only_calls P (@raise calls A e).
Proof. intros tr. exists []. split; [symmetry; apply app_nil_r | constructor]. Qed.

Lemma only_calls_call (P : command -> Prop) c : P c -> only_calls P (call c).
Proof. intros Hc tr. exists [c]. split; [reflexivity | repeat constructor; exact Hc]. Qed.

Lemma only_calls_bind P {A B} (m : ST calls A) (k : A -> ST calls B) :
  only_calls P m -> (forall a, only_calls P (k a)) -> only_calls P (bind m k).
Proof.
  intros Hm Hk tr. unfold bind.
  destruct (Hm tr) as (a1 & E1 & F1).
  destruct (m tr) as [tr' [e|a]]; cbn [fst] in E1; subst tr'.
  - exists a1. split; [reflexivity | exact F1].
  - destruct (Hk a (tr ++ a1)) as (a2 & E2 & F2).
    exists (a1 ++ a2). split; [rewrite E2; symmetry; apply app_assoc|].
    apply Forall_app. split; assumption.
Qed.

(** The continuation of a pure computation runs on its value only. *)
Lemma only_calls_bind_lift P {A B} (r : exn + A) (k : A -> ST calls B) :
  (forall a, r = inr a -> only_calls P (k a)) -> only_calls P (bind (lift r) k).
Proof.
  intros Hk tr. unfold bind, lift. destruct r as [e|a].
  - exists []. split; [symmetry; apply app_nil_r | constructor].
  - apply Hk. reflexivity.
Qed.

Lemma only_calls_if P {A} (b : bool) (m1 m2 : ST calls A) :
  only_calls P m1 -> only_calls P m2 -> only_calls P (if b then m1 else m2).
Proof. destruct b; auto. Qed.

Lemma speed_dutycycle speed : unit_dutycycle (motor_move left_motor (get_dutycycle speed) true).
Proof. destruct speed; split; reflexivity. Qed.

Lemma only_calls_run_motor m speed forward :
  only_calls unit_dutycycle (run_motor m speed forward).
Proof.
  unfold run_motor, run_motor_raw. apply only_calls_call.
  exact (speed_dutycycle speed).
Qed.

Lemma only_calls_run_servo P s speed clockwise :
  (forall c, is_motor_command c = false -> P c) ->
  only_calls P (run_servo s speed clockwise).
Proof.
  intros HP. destruct speed; cbn [run_servo];
    first [apply only_calls_ret | apply only_calls_call; apply HP; reflexivity].
Qed.

Lemma unit_dutycycle_other c : is_motor_command c = false -> unit_dutycycle c.
Proof. destruct c; try discriminate; intros _; exact I. Qed.

Ltac only_calls_steps :=
  repeat first
    [ apply only_calls_bind; [|intros ?]
    | apply only_calls_if
    | apply only_calls_ret
    | apply only_calls_lift
    | apply only_calls_run_motor
    | apply only_calls_run_servo; exact unit_dutycycle_other
    | apply only_calls_call; exact I ].

Lemma quantized_index input i x :
  quantized input -> index (axes input) i = inr x -> 0 <= value x <= 4.
Proof.
  unfold quantized, index. intros Hq. destruct (axes input !! i) as [a|] eqn:E;
    [|discriminate].
  intros [= <-]. exact (proj1 (Forall_lookup _ _) Hq i a E).
Qed.

Lemma blended_dutycycle speed n level :
  0 <= n <= 4 -> py_float n = inr level ->
  let d := (get_dutycycle speed - 0.15 * level)%float in
  unit_dutycycle (motor_move left_motor (if (d <? 0)%float then 0%float else d) true).
Proof.
  intros Hn Hlev.
  assert (Hv : n = 0 \/ n = 1 \/ n = 2 \/ n = 3 \/ n = 4) by lia.
  destruct Hv as [E|[E|[E|[E|E]]]]; rewrite E in Hlev; injection Hlev as <-;
    destruct speed; split; reflexivity.
Qed.

Lemma only_calls_blended_turn input :
  quantized input -> only_calls unit_dutycycle (blended_turn input).
Proof.
  intros Hq. unfold blended_turn.
  apply only_calls_bind_lift. intros y _.
  apply only_calls_bind_lift. intros speed _.
  apply only_calls_bind_lift. intros x Hx.
  apply only_calls_bind_lift. intros level Hlev.
  apply only_calls_bind_lift. intros y' _.
  apply only_calls_bind_lift. intros x' _.
  pose proof (blended_dutycycle speed (value x) level
                (quantized_index input _ x Hq Hx) Hlev) as Hd.
  cbv zeta in Hd.
  apply only_calls_if;
    (apply only_calls_bind; [apply only_calls_run_motor|intros _]);
    unfold run_motor_raw; apply only_calls_call; exact Hd.
Qed.

Lemma only_calls_input_changed input chip_down :
  quantized input -> only_calls unit_dutycycle (input_changed input chip_down).
Proof.
  intros Hq. pose proof (only_calls_blended_turn input Hq) as Hb.
  unfold input_changed, led_lighting, camera_servo, spin_turn, running_motor, and_.
  repeat first
    [ exact Hb
    | apply only_calls_bind; [|intros ?]
    | apply only_calls_if
    | apply only_calls_ret
    | apply only_calls_lift
    | apply only_calls_run_motor
    | apply only_calls_run_servo; exact unit_dutycycle_other
    | apply only_calls_call; exact I ].
Qed.

Lemma only_calls_iteration state chip_down :
  (event state = InputChanged -> quantized (controller_input state)) ->
  only_calls unit_dutycycle (iteration state chip_down).
Proof.
  intros Hq. unfold iteration. destruct (event state);
    try apply only_calls_ret.
  - only_calls_steps.
  - apply only_calls_input_changed. apply Hq. reflexivity.
Qed.

Lemma only_calls_main_loop deliveries :
  Forall (fun d => event d.1 = InputChanged -> quantized (controller_input d.1))
         deliveries ->
  only_calls unit_dutycycle (main_loop deliveries).
Proof.
  induction deliveries as [|[state chip_down] rest IH]; intros Hall;
    [apply only_calls_ret|].
  inversion Hall as [|? ? Hd Hrest]; subst. cbn [fst] in Hd.
  cbn [main_loop]. apply only_calls_bind; [apply only_calls_iteration; exact Hd|].
  intros f. destruct f; [apply IH; exact Hrest | apply only_calls_ret..].
Qed.

Lemma trigger_range x : 0 <= _round_trigger_value XboxAnalogAxisConverter x <= 4.
Proof.
  unfold _round_trigger_value.
  repeat match goal with |- context [if ?b then _ else _] => destruct b end;
    cbn; lia.
Qed.

Lemma poll_quantized now : quantized (poll XboxAnalogAxisConverter now).
Proof.
  unfold quantized, poll. cbn [axes]. apply Forall_lookup. intros i a Hi.
  rewrite list_lookup_imap in Hi.
  destruct (get_axis now !! i) as [v|]; [|discriminate]. injection Hi as <-.
  unfold convert. destruct (bool_decide (i ∈ XboxControllerTrigger.members));
    cbn [value]; [apply trigger_range | apply stick_range].
Qed.

(** X13.  The main loop never asks a motor for a dutycycle outside
    [0, 1]: when the [InputChanged] states it is delivered hold quantizer
    levels on their axes, every [move] of a motor it issues is at a
    dutycycle between 0 and 1, whatever the sticks, triggers, buttons and
    fault readings are; and the snapshots the capture thread assembles with
    the Xbox converter do hold quantizer levels, whatever the joystick
    reads. *)
Theorem motor_dutycycles_are_fractions
    (deliveries : list (ControllerData * bool)) (tr : calls) :
  Forall (fun d => event d.1 = InputChanged -> quantized (controller_input d.1))
         deliveries ->
  (exists added, (main_loop deliveries tr).1 = tr ++ added /\
     Forall unit_dutycycle added) /\
  (forall now chip_down,
     quantized (poll XboxAnalogAxisConverter now) /\
     exists added,
       (input_changed (poll XboxAnalogAxisConverter now) chip_down tr).1
         = tr ++ added /\
       Forall unit_dutycycle added).
Proof.
  intros Hall. split; [exact (only_calls_main_loop deliveries Hall tr)|].
  intros now chip_down. split; [apply poll_quantized|].
  exact (only_calls_input_changed _ chip_down (poll_quantized now) tr).
Qed.

(** The blended turn of [blend_example], then a spin turn. *)
Lemma motor_dutycycles_are_fractions_witness :
  exists added,
    (main_loop [({| event := InputChanged; controller_input := blend_example |}, false);
                ({| event := InputChanged; controller_input := spin_and_shutdown |}, false)]
               []).1 = added /\
    Forall unit_dutycycle added /\ length added = 8%nat.
Proof.
  destruct (motor_dutycycles_are_fractions
              [({| event := InputChanged; controller_input := blend_example |}, false);
               ({| event := InputChanged; controller_input := spin_and_shutdown |}, false)]
              []) as [(added & E & Hall) _].
  - assert (Hq : forall input, axes input = axes blend_example \/
                                 axes input = axes spin_and_shutdown ->
                  quantized input).
    { intros input [E|E]; unfold quantized; rewrite E;
        repeat (apply List.Forall_cons; [cbn; lia|]); apply List.Forall_nil. }
    repeat (apply List.Forall_cons; [intros _; apply Hq; auto|]).
    apply List.Forall_nil.
  - exists added. split; [exact E|]. split; [exact Hall|].
    cbn [app] in E. rewrite <- E. reflexivity.
Defined.

Lemma appends_iteration state chip_down :
  only_calls (fun _ => True) (iteration state chip_down).
Proof.
  unfold iteration, input_changed, led_lighting, camera_servo, spin_turn,
    running_motor, blended_turn, run_motor, run_motor_raw, and_.
  destruct (event state);
    repeat first
      [ apply only_calls_bind; [|intros ?]
      | apply only_calls_if
      | apply only_calls_ret
      | apply only_calls_lift
      | apply only_calls_run_servo; intros; exact I
      | apply only_calls_call; exact I ].
Qed.

Lemma not_blocked_bind {A} (m : ST calls A) (k : A -> ST calls flow) tr :
  (forall a tr', (k a tr').2 <> inr Blocked) -> (bind m k tr).2 <> inr Blocked.
Proof.
  intros Hk. unfold bind. destruct (m tr) as [tr' [e|a]]; [discriminate | apply Hk].
Qed.

Lemma iteration_not_blocked state chip_down tr :
  (iteration state chip_down tr).2 <> inr Blocked.
Proof.
  unfold iteration. destruct (event state); try discriminate.
  unfold input_changed.
  apply not_blocked_bind. intros _ tr1.
  apply not_blocked_bind. intros _ tr2.
  destruct chip_down; [discriminate|].
  apply not_blocked_bind. intros spun tr3.
  destruct spun; [discriminate|].
  apply not_blocked_bind. intros _ tr4.
  apply not_blocked_bind. intros quit tr5.
  destruct quit; discriminate.
Qed.

Lemma main_loop_app l1 : forall l2 tr,
  main_loop (l1 ++ l2) tr =
    match main_loop l1 tr with
    | (tr', inr Blocked) => main_loop l2 tr'
    | r => r
    end.
Proof.
  induction l1 as [|[state chip_down] l1 IH]; intros l2 tr; [reflexivity|].
  cbn [app main_loop]. unfold bind.
  pose proof (iteration_not_blocked state chip_down tr) as Hnb.
  destruct (iteration state chip_down tr) as [tr' [e|f]]; [reflexivity|].
  destruct f; [apply IH | reflexivity | contradiction Hnb; reflexivity].
Qed.

(** X12.  The main loop takes the deliveries one after the other: over
    two lists in a row it is the loop over the first and, unless that one
    ended by a [break] or an exception, the loop over the second from the
    calls made so far.  A [Quit] state ends it, so that nothing delivered
    after it is looked at; an [Empty] or [Connected] state is skipped; a
    [Disconnected] state stops the two servos and the two motors, in that
    order; and a call once made stays made. *)
Theorem main_loop_in_sequence (l1 l2 : list (ControllerData * bool))
    (state : ControllerData) (chip_down : bool) (tr : calls) :
  main_loop (l1 ++ l2) tr =
    match main_loop l1 tr with
    | (tr', inr Blocked) => main_loop l2 tr'
    | r => r
    end /\
  (event state = Quit ->
     main_loop ((state, chip_down) :: l2) tr = (tr, inr Break) /\
     main_loop (l1 ++ (state, chip_down) :: l2) tr
       = main_loop (l1 ++ [(state, chip_down)]) tr) /\
  (event state = Empty \/ event state = Connected ->
     main_loop ((state, chip_down) :: l2) tr = main_loop l2 tr) /\
  (event state = Disconnected ->
     main_loop ((state, chip_down) :: l2) tr =
       main_loop l2 (tr ++ [servo_stop pan_servo; servo_stop tilt_servo;
                            motor_stop left_motor; motor_stop right_motor])) /\
  (exists added, (main_loop l1 tr).1 = tr ++ added).
Proof.
  split; [apply main_loop_app|]. split; [|split; [|split]].
  - intros Hq.
    assert (E : forall l t, main_loop ((state, chip_down) :: l) t = (t, inr Break)).
    { intros l t. cbn [main_loop]. unfold bind, iteration. rewrite Hq. reflexivity. }
    split; [apply E|].
    rewrite !main_loop_app.
    destruct (main_loop l1 tr) as [tr' [e|[]]]; try reflexivity.
    rewrite !E. reflexivity.
  - intros [He|He]; cbn [main_loop]; unfold bind, iteration; rewrite He; reflexivity.
  - intros He. cbn [main_loop]. unfold bind at 1. unfold iteration. rewrite He.
    unfold call, bind, ret. cbn [fst snd]. rewrite <- !app_assoc. reflexivity.
  - assert (H : only_calls (fun _ => True) (main_loop l1)).
    { clear. induction l1 as [|[st b] l1 IH]; [apply only_calls_ret|].
      cbn [main_loop]. apply only_calls_bind; [apply appends_iteration|].
      intros f. destruct f; [exact IH | apply only_calls_ret..]. }
    destruct (H tr) as (added & E & _). exists added. exact E.
Qed.

(** X14.  The left stick outside a blended turn, with the motor driver up
    and no spin turn.  Centred, it stops both motors.  Tilted along Y only,
    it moves both motors at the dutycycle of Y's level, forward exactly when
    Y is negative.  Tilted along X only, it stops the motor on the side
    opposite to X's sign (the right motor for positive X) and moves the
    other forward at the dutycycle of X's level. *)
Theorem left_stick_drive (input : ControllerInput) (tr after : calls)
    (l r x y : AxisInput) :
  light_and_servos input tr = (after, inr tt) ->
  TriggerLeft input = inr l -> TriggerRight input = inr r ->
  (value l =? 0) = (value r =? 0) ->
  StickLeftX input = inr x -> StickLeftY input = inr y ->
  let issued := (input_changed input false tr).1 in
  (value y = 0 -> value x = 0 ->
     issued = after ++ [motor_stop left_motor; motor_stop right_motor]) /\
  (forall speed, value y <> 0 -> value x = 0 ->
     Speed.of_int (value y) = inr speed ->
     issued = after ++
       [motor_move left_motor (get_dutycycle speed) (negb (positive y));
        motor_move right_motor (get_dutycycle speed) (negb (positive y))]) /\
  (forall speed, value y = 0 -> value x <> 0 ->
     Speed.of_int (value x) = inr speed ->
     issued = after ++
       (if positive x then
          [motor_stop right_motor; motor_move left_motor (get_dutycycle speed) true]
        else
          [motor_stop left_motor; motor_move right_motor (get_dutycycle speed) true])).
Proof.
  intros Hpre Hl Hr Hlr Hx Hy issued. subst issued.
  rewrite (input_changed_after _ _ _ _ Hpre).
  assert (Hspin : spin_turn input after = (after, inr false)).
  { unfold spin_turn, and_, bind, lift, ret. cbv beta. rewrite Hl, Hr.
    cbv beta iota. rewrite <- Hlr. destruct (value l =? 0); reflexivity. }
  split; [|split]; unfold bind at 1; rewrite Hspin; cbv beta iota.
  - intros Hy0 Hx0.
    unfold running_motor, and_, call, bind, lift, ret. cbv beta.
    rewrite Hx, Hy, Hx0, Hy0. cbn.
    repeat match goal with
      | |- context [match ?b with inl _ => _ | inr _ => _ end] => destruct b; cbn
      | |- context [if ?b then _ else _] => destruct b; cbn
      end; rewrite <- app_assoc; reflexivity.
  - intros speed Hy0 Hx0 Hs. apply Z.eqb_neq in Hy0.
    unfold running_motor, run_motor, run_motor_raw, and_, call, bind, lift, ret.
    cbv beta. rewrite Hx, Hy, Hx0, Hy0. cbn. rewrite Hs. cbn.
    repeat match goal with
      | |- context [match ?b with inl _ => _ | inr _ => _ end] => destruct b; cbn
      | |- context [if ?b then _ else _] => destruct b; cbn
      end; rewrite <- app_assoc; reflexivity.
  - intros speed Hy0 Hx0 Hs. apply Z.eqb_neq in Hx0.
    unfold running_motor, run_motor, run_motor_raw, and_, call, bind, lift, ret.
    cbv beta. rewrite Hx, Hy, Hx0, Hy0. cbn. rewrite Hs. cbn.
    destruct (positive x); cbn;
    repeat match goal with
      | |- context [match ?b with inl _ => _ | inr _ => _ end] => destruct b; cbn
      | |- context [if ?b then _ else _] => destruct b; cbn
      end; rewrite <- app_assoc; reflexivity.
Qed.

(** The stick pushed to the left at level High: the left motor is stopped
    and the right one runs forward at 0.75. *)
Lemma left_stick_drive_witness :
  (input_changed pivot_example false []).1 =
    [servo_stop pan_servo; servo_stop tilt_servo;
     motor_stop left_motor; motor_move right_motor 0.75 true].
Proof.
  destruct (left_stick_drive pivot_example []
              [servo_stop pan_servo; servo_stop tilt_servo]
              idle_axis idle_axis {| positive := false; value := 3 |} idle_axis
              eq_refl eq_refl eq_refl eq_refl eq_refl eq_refl) as (_ & _ & H).
  exact (H Speed.High eq_refl ltac:(discriminate) eq_refl).
Defined.

(** X15.  A snapshot with no hat ends the main loop by an exception:
    the first thing an iteration on [InputChanged] reads is the hat, so
    [IndexError] is raised before any call is made, whatever else the
    snapshot holds and whatever is delivered next. *)
Theorem snapshot_without_hat_raises (input : ControllerInput) (chip_down : bool)
    (rest : list (ControllerData * bool)) (tr : calls) :
  hats input = [] ->
  input_changed input chip_down tr = (tr, inl IndexError) /\
  main_loop (({| event := InputChanged; controller_input := input |}, chip_down)
             :: rest) tr = (tr, inl IndexError) /\
  main_try (({| event := Connected; controller_input := ControllerInput_new |}, false)
            :: ({| event := InputChanged; controller_input := input |}, chip_down)
            :: rest) tr = (tr, inl IndexError).
Proof.
  intros Hh.
  assert (E : input_changed input chip_down tr = (tr, inl IndexError)).
  { unfold input_changed, led_lighting, bind, lift, HatX, index.
    rewrite Hh. reflexivity. }
  split; [exact E|].
  assert (E' : main_loop (({| event := InputChanged; controller_input := input |},
                           chip_down) :: rest) tr = (tr, inl IndexError)).
  { cbn [main_loop iteration event controller_input]. unfold bind at 1.
    rewrite E. reflexivity. }
  split; [exact E'|].
  cbn [main_try event]. exact E'.
Qed.

Lemma snapshot_without_hat_raises_witness :
  main_loop [({| event := InputChanged; controller_input := hatless |}, false);
             ({| event := InputChanged; controller_input := blend_example |}, false)]
            [] = ([], inl IndexError).
Proof.
  exact (proj1 (proj2 (snapshot_without_hat_raises hatless false
    [({| event := InputChanged; controller_input := blend_example |}, false)]
    [] eq_refl))).
Defined.

(** Back and Start pressed while the stick drives straight on. *)
Lemma shutdown_buttons_break_witness :
  main_loop [({| event := InputChanged; controller_input := straight_and_shutdown |},
              false);
             ({| event := InputChanged; controller_input := blend_example |}, false)]
            [] =
    ([servo_stop pan_servo; servo_stop tilt_servo;
      motor_move left_motor 0.5 true; motor_move right_motor 0.5 true],
     inr Break).
Proof.
  exact (proj2 (shutdown_buttons_break straight_and_shutdown []
    [servo_stop pan_servo; servo_stop tilt_servo]
    [servo_stop pan_servo; servo_stop tilt_servo;
     motor_move left_motor 0.5 true; motor_move right_motor 0.5 true]
    idle_axis idle_axis
    [({| event := InputChanged; controller_input := blend_example |}, false)]
    eq_refl eq_refl eq_refl eq_refl eq_refl eq_refl eq_refl)).
Defined.

Lemma main_try_waits pre : forall tr,
  Forall (fun d : ControllerData * bool =>
            event d.1 <> Connected /\ event d.1 <> Quit) pre ->
  forall rest, main_try (pre ++ rest) tr = main_try rest tr.
Proof.
  induction pre as [|[st b] pre IH]; intros tr Hall rest; [reflexivity|].
  inversion Hall as [|? ? [Hc Hq] Hrest]; subst. cbn [fst] in Hc, Hq.
  cbn [app main_try]. destruct (event st); try contradiction;
    apply IH; exact Hrest.
Qed.

(** X16.  [main] waits for the controller before it starts the loop:
    the states delivered before the first [Connected] or [Quit] are
    dropped; after [Connected] the main loop runs on what follows; on
    [Quit] the exception of the failed connection is raised with no call
    made; and when neither comes, [main] stays blocked on the queue. *)
Theorem main_waits_for_connection (pre rest : list (ControllerData * bool))
    (state : ControllerData) (chip_down : bool) (tr : calls) :
  Forall (fun d => event d.1 <> Connected /\ event d.1 <> Quit) pre ->
  (event state = Connected ->
     main_try (pre ++ (state, chip_down) :: rest) tr = main_loop rest tr) /\
  (event state = Quit ->
     main_try (pre ++ (state, chip_down) :: rest) tr = (tr, inl ConnectError)) /\
  main_try pre tr = (tr, inr Blocked).
Proof.
  intros Hpre. split; [|split].
  - intros He. rewrite (main_try_waits pre tr Hpre). cbn [main_try].
    rewrite He. reflexivity.
  - intros He. rewrite (main_try_waits pre tr Hpre). cbn [main_try].
    rewrite He. reflexivity.
  - rewrite <- (app_nil_r pre) at 1. rewrite (main_try_waits pre tr Hpre).
    reflexivity.
Qed.

Lemma main_waits_for_connection_witness :
  main_try [(ControllerData_new Empty, false); (ControllerData_new Quit, false);
            ({| event := InputChanged; controller_input := blend_example |}, false)]
           [] = ([], inl ConnectError).
Proof.
  refine (proj1 (proj2 (main_waits_for_connection
            [(ControllerData_new Empty, false)]
            [({| event := InputChanged; controller_input := blend_example |}, false)]
            (ControllerData_new Quit) false [] _)) eq_refl).
  repeat constructor; discriminate.
Defined.
End MainLoop.

(** ** Connection, reconnection and the shared state *)
Section Connection.
Import radiocontrol main controller samples more_samples.

(** The controller once [joy] has been taken. *)
Lemma try_connect_match l1 joy l2 : forall c,
  Forall (fun j => String.eqb (get_name j) (_controller_type c) = false) l1 ->
  String.eqb (get_name joy) (_controller_type c) = true ->
  _try_connect_controller (l1 ++ joy :: l2) c =
    ({| _controller_type := _controller_type c; _controller := Some joy;
        _connection_timeout := _connection_timeout c;
        _controller_connected := true;
        data := data c ++ [fresh (ControllerData_new Connected)];
        _controller_data := _controller_data c;
        _axis_converter := _axis_converter c; _running := _running c;
        _running_event := _running_event c |}, inr true).
Proof.
  induction l1 as [|j l1 IH]; intros c Hall Hjoy.
  - cbn [app _try_connect_controller]. unfold bind at 1, controller.self at 1.
    cbn [fst snd]. rewrite Hjoy. reflexivity.
  - inversion Hall as [|? ? Hj Hrest]; subst.
    cbn [app _try_connect_controller]. unfold bind at 1, controller.self at 1.
    cbn [fst snd]. rewrite Hj. apply IH; assumption.
Qed.

Lemma search_match deadline pre ev post l1 joy l2 : forall c,
  Forall (fun e => no_match (_controller_type c) e /\
                   match deadline with
                   | Some t => (arrival e <? t)%float
                   | None => true
                   end = true) pre ->
  match deadline with Some t => (arrival ev <? t)%float | None => true end = true ->
  joysticks ev = l1 ++ joy :: l2 ->
  Forall (fun j => String.eqb (get_name j) (_controller_type c) = false) l1 ->
  String.eqb (get_name joy) (_controller_type c) = true ->
  _search_controller deadline (pre ++ ev :: post) c =
    ({| _controller_type := _controller_type c; _controller := Some joy;
        _connection_timeout := _connection_timeout c;
        _controller_connected := true;
        data := data c ++ [fresh (ControllerData_new Connected)];
        _controller_data := _controller_data c;
        _axis_converter := _axis_converter c; _running := _running c;
        _running_event := if _running c then true else _running_event c |},
     inr true).
Proof.
  induction pre as [|e pre IH]; intros c Hpre Hin Hjs Hl1 Hjoy.
  - cbn [app _search_controller]. rewrite Hin. unfold bind at 1.
    rewrite Hjs, (try_connect_match l1 joy l2 c Hl1 Hjoy).
    unfold bind, controller.self, set_running_event, ret. cbn [fst snd _running].
    destruct (_running c); reflexivity.
  - inversion Hpre as [|? ? [Hno Hie] Hrest]; subst.
    cbn [app _search_controller]. rewrite Hie. unfold bind at 1.
    rewrite (try_connect_no_match _ _ Hno). apply IH; assumption.
Qed.

(** X18.  [connect] takes the first joystick with the name of the
    controller type: joysticks of other names before it are passed over,
    whatever comes after it is not looked at, no search is started, and
    exactly one [Connected] is put on the queue.  [main], reading that queue
    from empty, leaves its wait for the connection and blocks in the main
    loop until the capture thread delivers an input. *)
Theorem connect_takes_first_match (c : Controller) (l1 l2 : list Joystick)
    (joy : Joystick) (events : list attached) (tr : calls) :
  Forall (fun j => String.eqb (get_name j) (_controller_type c) = false) l1 ->
  String.eqb (get_name joy) (_controller_type c) = true ->
  let r := connect (l1 ++ joy :: l2) events c in
  r.2 = inr Continue /\
  _controller r.1 = Some joy /\
  _controller_connected r.1 = true /\
  data r.1 = data c ++ [fresh (ControllerData_new Connected)] /\
  (data c = [] ->
     main_try (map (fun e => (deref r.1 e, false)) (data r.1)) tr
       = (tr, inr Blocked)).
Proof.
  intros Hl1 Hjoy r.
  assert (E : r = ({| _controller_type := _controller_type c; _controller := Some joy;
                      _connection_timeout := _connection_timeout c;
                      _controller_connected := true;
                      data := data c ++ [fresh (ControllerData_new Connected)];
                      _controller_data := _controller_data c;
                      _axis_converter := _axis_converter c; _running := _running c;
                      _running_event := _running_event c |}, inr Continue)).
  { subst r. unfold connect. unfold bind at 1.
    rewrite (try_connect_match l1 joy l2 c Hl1 Hjoy). reflexivity. }
  rewrite E. cbn [fst snd _controller _controller_connected data].
  repeat split. intros ->. reflexivity.
Qed.

(** The pad of [main] listed after a keyboard. *)
Lemma connect_takes_first_match_witness :
  let r := connect [keyboard; pad; pad] []
             (init "Xbox Wireless Controller"%string 30) in
  r.2 = inr Continue /\ _controller r.1 = Some pad /\
  data r.1 = [fresh (ControllerData_new Connected)].
Proof.
  destruct (connect_takes_first_match (init "Xbox Wireless Controller"%string 30)
              [keyboard] [pad] pad [] []) as (H1 & H2 & _ & H4 & _).
  - repeat constructor.
  - reflexivity.
  - repeat split; assumption.
Defined.

(** X19.  With a connection timeout that is not positive the search
    waits without limit: when no joystick of the right name is present or
    attached, [connect] and the reconnection never return and put nothing on
    the queue, in particular no [Quit]; and a joystick of that name attached
    at any time, however late, is taken. *)
Theorem no_timeout_waits (c : Controller) (caller : thread)
    (present : list Joystick) (events : list attached) :
  (0 <? _connection_timeout c)%float = false ->
  Forall (fun j => String.eqb (get_name j) (_controller_type c) = false) present ->
  Forall (no_match (_controller_type c)) events ->
  connect present events c = (c, inr Blocked) /\
  _reconnect_controller caller events c = (c, inr Blocked) /\
  (forall late joy,
     String.eqb (get_name joy) (_controller_type c) = true ->
     let r := connect present
                (events ++ [{| arrival := late; joysticks := [joy] |}]) c in
     r.2 = inr Continue /\ _controller r.1 = Some joy /\
     data r.1 = data c ++ [fresh (ControllerData_new Connected)]).
Proof.
  intros HT Hpre Hno.
  assert (E : forall caller', _reconnect_controller caller' events c = (c, inr Blocked)).
  { intros caller'. unfold _reconnect_controller.
    unfold bind at 1, controller.self at 1. cbn [fst snd]. rewrite HT.
    unfold bind at 1. rewrite (search_no_match _ _ c Hno). reflexivity. }
  split; [|split; [apply E|]].
  - unfold connect. unfold bind at 1. rewrite (try_connect_no_match _ _ Hpre).
    cbn [negb]. apply E.
  - intros late joy Hjoy r.
    assert (Er : r = ({| _controller_type := _controller_type c;
                         _controller := Some joy;
                         _connection_timeout := _connection_timeout c;
                         _controller_connected := true;
                         data := data c ++ [fresh (ControllerData_new Connected)];
                         _controller_data := _controller_data c;
                         _axis_converter := _axis_converter c;
                         _running := _running c;
                         _running_event :=
                           if _running c then true else _running_event c |},
                      inr Continue)).
    { subst r. unfold connect. unfold bind at 1.
      rewrite (try_connect_no_match _ _ Hpre). cbn [negb].
      unfold _reconnect_controller. unfold bind at 1, controller.self at 1.
      cbn [fst snd]. rewrite HT. unfold bind at 1.
      rewrite (search_match None events {| arrival := late; joysticks := [joy] |}
                 [] [] joy [] c); try reflexivity; try assumption.
      - apply Forall_forall. intros e He. split; [|reflexivity].
        exact (proj1 (Forall_forall _ _) Hno e He).
      - constructor. }
    rewrite Er. repeat split.
Qed.

(** A controller built with the timeout 0, a keyboard attached after five
    seconds and the pad after a day. *)
Lemma no_timeout_waits_witness :
  connect [keyboard] [{| arrival := 5; joysticks := [keyboard] |}]
    patient_controller = (patient_controller, inr Blocked) /\
  _controller
    (connect [keyboard]
       ([{| arrival := 5; joysticks := [keyboard] |}] ++
        [{| arrival := 86400; joysticks := [pad] |}]) patient_controller).1
    = Some pad.
Proof.
  destruct (no_timeout_waits patient_controller MainThread [keyboard]
              [{| arrival := 5; joysticks := [keyboard] |}])
    as (H1 & _ & H3).
  - reflexivity.
  - repeat constructor.
  - repeat constructor.
  - split; [exact H1|]. exact (proj1 (proj2 (H3 86400%float pad eq_refl))).
Defined.







(** X23.  The states the capture thread queues on a change of input are
    one object, changed in place: after two polls that each found a change,
    the queue holds that object twice, and both entries show the snapshot of
    the second poll; the snapshot of the first is gone for a reader that has
    not taken its entry by then. *)
Theorem queued_states_are_shared (c : Controller) (cur : ControllerInput)
    (event1 event2 : pygame_event) (now1 now2 : readings) (events : list attached) :
  _running_event c = true -> _controller_connected c = true ->
  polls c event1 -> polls c event2 ->
  poll (_axis_converter c) now1 <> controller_input (_controller_data c) ->
  poll (_axis_converter c) now2 <> poll (_axis_converter c) now1 ->
  let new1 := poll (_axis_converter c) now1 in
  let new2 := poll (_axis_converter c) now2 in
  let r1 := _run_iteration event1 now1 events (c, cur) in
  let r2 := _run_iteration event2 now2 events r1.1 in
  data r1.1.1 = data c ++ [the_controller_data] /\
  deref r1.1.1 the_controller_data
    = {| event := InputChanged; controller_input := new1 |} /\
  data r2.1.1 = data c ++ [the_controller_data; the_controller_data] /\
  deref r2.1.1 the_controller_data
    = {| event := InputChanged; controller_input := new2 |} /\
  (data c = [] ->
     map (deref r2.1.1) (data r2.1.1) =
       [{| event := InputChanged; controller_input := new2 |};
        {| event := InputChanged; controller_input := new2 |}]).
Proof.
  intros Hev Hconn Hp1 Hp2 Hne1 Hne2 new1 new2 r1 r2.
  pose proof (run_iteration_poll c cur event1 now1 events Hev Hconn Hp1) as E1.
  cbv zeta in E1.
  rewrite (ControllerInput_eqb_neq _ _ (not_eq_sym Hne1)) in E1.
  fold new1 r1 in E1.
  set (c1 := {| _controller_type := _controller_type c;
                _controller := _controller c;
                _connection_timeout := _connection_timeout c;
                _controller_connected := _controller_connected c;
                data := data c ++ [the_controller_data];
                _controller_data :=
                  {| event := InputChanged; controller_input := new1 |};
                _axis_converter := _axis_converter c;
                _running := _running c;
                _running_event := _running_event c |}) in *.
  assert (Hp2' : polls c1 event2) by (destruct event2; exact Hp2).
  pose proof (run_iteration_poll c1 new1 event2 now2 events Hev Hconn Hp2') as E2.
  cbv zeta in E2.
  cbn [c1 _controller_data controller_input _axis_converter] in E2.
  fold c1 in E2. fold new1 new2 in Hne2. fold new2 in E2.
  rewrite (ControllerInput_eqb_neq new1 new2 (not_eq_sym Hne2)) in E2.
  subst r2. rewrite E1. cbn [fst]. rewrite E2.
  cbn [fst snd c1 data deref _controller_data _controller_type _controller
       _connection_timeout _controller_connected _axis_converter _running
       _running_event].
  rewrite <- app_assoc. repeat split.
  intros ->. reflexivity.
Qed.

(** The pad at rest, then the stick pushed, before anything is read. *)
Lemma queued_states_are_shared_witness :
  let r1 := _run_iteration JOYAXISMOTION at_rest []
              (connected_controller, ControllerInput_new) in
  let r2 := _run_iteration JOYAXISMOTION pushed [] r1.1 in
  map (deref r2.1.1) (drop 1 (data r2.1.1)) =
    [{| event := InputChanged;
        controller_input := poll XboxAnalogAxisConverter pushed |};
     {| event := InputChanged;
        controller_input := poll XboxAnalogAxisConverter pushed |}].
Proof.
  intros r1 r2.
  destruct (queued_states_are_shared connected_controller ControllerInput_new
              JOYAXISMOTION JOYAXISMOTION at_rest pushed [] eq_refl eq_refl I I)
    as (_ & _ & Hdata & Hderef & _).
  - vm_compute. discriminate.
  - vm_compute. discriminate.
  - fold r1 r2 in Hdata, Hderef. rewrite Hdata. cbn [drop app map data].
    change (data connected_controller)
      with [fresh (ControllerData_new Connected)].
    cbn [app drop map deref]. cbn [deref] in Hderef. rewrite Hderef. reflexivity.
Defined.
End Connection.
